(** * RabbitMQ messaging layer: connection manager, publisher, consumer

    A shallow embedding of the transport module of the order / email
    services:

    - [connection.js]  singleton connection and channel, reconnection loop,
                       channel observers, shutdown;
    - [publisher.js]   topology provisioning, serialization, publish;
    - [consumer.js]    topology provisioning, prefetch, the per-delivery
                       callback with its ack / nack decision;
    - [constants.js]   the static topology table;

    and of the code of the two services that uses it:

    - [orderController.js]  validation of an order and its publication;
    - [emailConsumer.js]    the handler of the email service;
    - [emailService.js]     the checks and the simulated sending of an email;
    - [server.js]           startup of the email service.

    The broker client (amqplib) and the JavaScript runtime are the
    boundary of the embedding.  Every call that crosses it is recorded as
    an [Event] in a trace, and its outcome is read from an environment
    [Env] that may depend on the whole history, so a call may succeed or
    throw at any point.  Console output is not part of the model. *)

From Stdlib Require Import ZArith String Ascii Bool Lia Arith List.
Import ListNotations.

(** ** Results of JavaScript calls: a value, or a thrown [Error] with its message *)

Inductive result (A : Type) : Type :=
| Ok (a : A)
| Throw (message : string).

Arguments Ok {A} a.
Arguments Throw {A} message.

(** * JSON text, as the runtime's [JSON.stringify], [JSON.parse] and [Buffer] handle it *)

Module Json.

Local Open Scope Z_scope.

(** A JavaScript string is a sequence of UTF-16 code units; a [Buffer] is a
    sequence of bytes. *)
Definition jsstring := list Z.
Definition Buffer := list Z.

Definition str (s : string) : jsstring :=
  map (fun a => Z.of_N (N_of_ascii a)) (list_ascii_of_string s).

(** A finite Number is held by the decimal that [Number::toString]
    identifies it with: sign, significant digits [d1 .. dk] (no leading and
    no trailing zero) and the position [n] of the decimal point, for the
    value [0.d1..dk * 10^n].  Zero has no digits and no sign: the Number
    -0, which [JSON.stringify] prints as 0, is not told apart from 0. *)
Record number := mkNumber { negative : bool; digits : list Z; pointpos : Z }.

Definition zero : number := mkNumber false [] 0.

Unset Elimination Schemes.
Inductive json :=
| JNull
| JBool (b : bool)
| JNum (n : number)
| JStr (s : jsstring)
| JArr (elems : list json)
| JObj (members : list (jsstring * json)).
Set Elimination Schemes.

(** *** Characters *)

Abbreviation QUOTE := 34 (only parsing).
Abbreviation BACKSLASH := 92 (only parsing).
Abbreviation COMMA := 44 (only parsing).
Abbreviation COLON := 58 (only parsing).
Abbreviation LBRACKET := 91 (only parsing).
Abbreviation RBRACKET := 93 (only parsing).
Abbreviation LBRACE := 123 (only parsing).
Abbreviation RBRACE := 125 (only parsing).
Abbreviation MINUS := 45 (only parsing).
Abbreviation PLUS := 43 (only parsing).
Abbreviation DOT := 46 (only parsing).
Abbreviation ZERO := 48 (only parsing).

Definition is_digit (c : Z) : bool := (48 <=? c) && (c <=? 57).
Definition is_high_surrogate (c : Z) : bool := (55296 <=? c) && (c <=? 56319).
Definition is_low_surrogate (c : Z) : bool := (56320 <=? c) && (c <=? 57343).
Definition is_ws (c : Z) : bool :=
  (c =? 32) || (c =? 9) || (c =? 10) || (c =? 13).

(** *** JSON.stringify *)

Definition hexdigit (d : Z) : Z := if d <? 10 then 48 + d else 87 + d.

Definition unicode_escape (c : Z) : jsstring :=
  [BACKSLASH; 117; hexdigit (c / 4096 mod 16); hexdigit (c / 256 mod 16);
   hexdigit (c / 16 mod 16); hexdigit (c mod 16)].

(** One code unit that is not part of a surrogate pair. *)
Definition quote_unit (c : Z) : jsstring :=
  if c =? 8 then [BACKSLASH; 98]
  else if c =? 9 then [BACKSLASH; 116]
  else if c =? 10 then [BACKSLASH; 110]
  else if c =? 12 then [BACKSLASH; 102]
  else if c =? 13 then [BACKSLASH; 114]
  else if c =? QUOTE then [BACKSLASH; QUOTE]
  else if c =? BACKSLASH then [BACKSLASH; BACKSLASH]
  else if c <? 32 then unicode_escape c
  else if is_high_surrogate c || is_low_surrogate c then unicode_escape c
  else [c].

(** The code units are read as code points: a high surrogate followed by a
    low one is one code point and is copied; a lone surrogate is escaped. *)
Fixpoint quote_units (s : jsstring) : jsstring :=
  match s with
  | [] => []
  | c :: t =>
      match t with
      | d :: t' =>
          if is_high_surrogate c && is_low_surrogate d
          then c :: d :: quote_units t'
          else quote_unit c ++ quote_units t
      | [] => quote_unit c ++ quote_units t
      end
  end.

Definition QuoteJSONString (s : jsstring) : jsstring :=
  QUOTE :: quote_units s ++ [QUOTE].

(** Decimal digits of a natural number (the exponent of a Number). *)
Fixpoint decimal_aux (fuel : positive) (n : Z) : jsstring :=
  match fuel with
  | xH => [48 + n mod 10]
  | xO f | xI f =>
      if n <? 10 then [48 + n] else decimal_aux f (n / 10) ++ [48 + n mod 10]
  end.

Definition decimal (n : Z) : jsstring := decimal_aux (Z.to_pos (n + 1)) n.

Definition digit_chars (ds : list Z) : jsstring := map (fun d => 48 + d) ds.

(** The digits [d :: ds] (there are [k] of them) with the point at [n],
    laid out as [Number::toString] does. *)
Definition digits_toString (d : Z) (ds : list Z) (n : Z) : jsstring :=
  let k := Z.of_nat (List.length (d :: ds)) in
  if (k <=? n) && (n <=? 21) then
    digit_chars (d :: ds) ++ repeat ZERO (Z.to_nat (n - k))
  else if (0 <? n) && (n <=? 21) then
    digit_chars (firstn (Z.to_nat n) (d :: ds)) ++ DOT ::
    digit_chars (skipn (Z.to_nat n) (d :: ds))
  else if (-6 <? n) && (n <=? 0) then
    ZERO :: DOT :: repeat ZERO (Z.to_nat (- n)) ++ digit_chars (d :: ds)
  else
    digit_chars [d] ++
    (match ds with [] => [] | _ :: _ => DOT :: digit_chars ds end) ++
    101 :: (if n - 1 <? 0 then MINUS else PLUS) :: decimal (Z.abs (n - 1)).

Definition Number_toString (x : number) : jsstring :=
  match digits x with
  | [] => [ZERO]
  | d :: ds =>
      (if negative x then [MINUS] else []) ++ digits_toString d ds (pointpos x)
  end.

(** A list printed with commas between the items and [close] at the end. *)
Fixpoint print_items {A : Type} (f : A -> jsstring) (close : Z) (l : list A)
  : jsstring :=
  match l with
  | [] => [close]
  | x :: l' =>
      match l' with
      | [] => f x ++ [close]
      | _ :: _ => f x ++ COMMA :: print_items f close l'
      end
  end.

(** [JSON.stringify(value)] with no replacer and no indentation. *)
Fixpoint stringify (v : json) : jsstring :=
  match v with
  | JNull => str "null"
  | JBool true => str "true"
  | JBool false => str "false"
  | JNum n => Number_toString n
  | JStr s => QuoteJSONString s
  | JArr l => LBRACKET :: print_items stringify RBRACKET l
  | JObj m =>
      LBRACE ::
      print_items (fun kv => QuoteJSONString (fst kv) ++ COLON :: stringify (snd kv))
        RBRACE m
  end.

(** *** JSON.parse *)

Fixpoint skip_ws (s : jsstring) : jsstring :=
  match s with
  | c :: t => if is_ws c then skip_ws t else s
  | [] => []
  end.

Definition hexval (h : Z) : option Z :=
  if (48 <=? h) && (h <=? 57) then Some (h - 48)
  else if (97 <=? h) && (h <=? 102) then Some (h - 87)
  else if (65 <=? h) && (h <=? 70) then Some (h - 55)
  else None.

Definition hex4 (h1 h2 h3 h4 : Z) : option Z :=
  match hexval h1, hexval h2, hexval h3, hexval h4 with
  | Some a, Some b, Some c, Some d => Some (a * 4096 + b * 256 + c * 16 + d)
  | _, _, _, _ => None
  end.

(** The character after a backslash, other than [u]. *)
Definition unescape (e : Z) : option Z :=
  if e =? QUOTE then Some QUOTE
  else if e =? BACKSLASH then Some BACKSLASH
  else if e =? 47 then Some 47
  else if e =? 98 then Some 8
  else if e =? 102 then Some 12
  else if e =? 110 then Some 10
  else if e =? 114 then Some 13
  else if e =? 116 then Some 9
  else None.

Definition consto (c : Z) (r : option (jsstring * jsstring))
  : option (jsstring * jsstring) :=
  match r with
  | Some (s, rest) => Some (c :: s, rest)
  | None => None
  end.

(** The characters of a string literal after its opening quote, up to and
    including the closing quote. *)
Fixpoint parse_chars (s : jsstring) : option (jsstring * jsstring) :=
  match s with
  | [] => None
  | c :: t =>
      if c =? QUOTE then Some ([], t)
      else if c =? BACKSLASH then
        match t with
        | [] => None
        | e :: t1 =>
            if e =? 117 then
              match t1 with
              | h1 :: h2 :: h3 :: h4 :: t2 =>
                  match hex4 h1 h2 h3 h4 with
                  | Some u => consto u (parse_chars t2)
                  | None => None
                  end
              | _ => None
              end
            else
              match unescape e with
              | Some u => consto u (parse_chars t1)
              | None => None
              end
        end
      else if c <? 32 then None
      else consto c (parse_chars t)
  end.

Fixpoint span_digits (s : jsstring) : list Z * jsstring :=
  match s with
  | c :: t =>
      if is_digit c
      then let (ds, r) := span_digits t in (c - 48 :: ds, r)
      else ([], s)
  | [] => ([], [])
  end.

Definition value_of_digits (ds : list Z) : Z :=
  fold_left (fun a d => 10 * a + d) ds 0.

Fixpoint strip_leading (ds : list Z) (p : Z) : list Z * Z :=
  match ds with
  | d :: t => if d =? 0 then strip_leading t (p - 1) else (ds, p)
  | [] => ([], p)
  end.

Fixpoint drop_zeros (ds : list Z) : list Z :=
  match ds with
  | d :: t => if d =? 0 then drop_zeros t else ds
  | [] => []
  end.

Definition strip_trailing (ds : list Z) : list Z := rev (drop_zeros (rev ds)).

(** The Number whose decimal expansion is [0.ds * 10^p]. *)
Definition make_number (neg : bool) (ds : list Z) (p : Z) : number :=
  let (ds1, p1) := strip_leading ds p in
  match strip_trailing ds1 with
  | [] => zero
  | ds2 => mkNumber neg ds2 p1
  end.

(** [int] of the JSON grammar: a single 0, or digits that do not start with 0. *)
Definition int_ok (ds : list Z) : bool :=
  match ds with
  | [] => false
  | d :: t => negb (d =? 0) || match t with [] => true | _ => false end
  end.

Definition parse_frac (s : jsstring) : option (list Z * jsstring) :=
  match s with
  | c :: t =>
      if c =? DOT then
        match span_digits t with
        | ([], _) => None
        | (f, r) => Some (f, r)
        end
      else Some ([], s)
  | [] => Some ([], [])
  end.

Definition parse_exp_digits (neg : bool) (s : jsstring) : option (Z * jsstring) :=
  match span_digits s with
  | ([], _) => None
  | (ds, r) => Some (if neg then - value_of_digits ds else value_of_digits ds, r)
  end.

Definition parse_exp (s : jsstring) : option (Z * jsstring) :=
  match s with
  | c :: t =>
      if (c =? 101) || (c =? 69) then
        match t with
        | g :: t' =>
            if g =? PLUS then parse_exp_digits false t'
            else if g =? MINUS then parse_exp_digits true t'
            else parse_exp_digits false t
        | [] => None
        end
      else Some (0, s)
  | [] => Some (0, [])
  end.

(** A number of the JSON grammar without its sign. *)
Definition parse_unsigned (neg : bool) (s : jsstring)
  : option (number * jsstring) :=
  let (i, s2) := span_digits s in
  if int_ok i then
    match parse_frac s2 with
    | Some (f, s3) =>
        match parse_exp s3 with
        | Some (e, s4) =>
            Some (make_number neg (i ++ f) (Z.of_nat (List.length i) + e), s4)
        | None => None
        end
    | None => None
    end
  else None.

Definition parse_number (s : jsstring) : option (number * jsstring) :=
  match s with
  | c :: t => if c =? MINUS then parse_unsigned true t else parse_unsigned false s
  | [] => None
  end.

Fixpoint strip_prefix (p s : jsstring) : option jsstring :=
  match p with
  | [] => Some s
  | a :: p' =>
      match s with
      | c :: t => if c =? a then strip_prefix p' t else None
      | [] => None
      end
  end.

Fixpoint jsstring_eqb (a b : jsstring) : bool :=
  match a, b with
  | [], [] => true
  | x :: a', y :: b' => (x =? y) && jsstring_eqb a' b'
  | _, _ => false
  end.

(** Defining a property on the object under construction: a key that is
    already present keeps its place and takes the new value.  Properties
    are kept in the order in which they were first defined. *)
Fixpoint obj_set (k : jsstring) (v : json) (m : list (jsstring * json))
  : list (jsstring * json) :=
  match m with
  | [] => [(k, v)]
  | (k', v') :: m' =>
      if jsstring_eqb k k' then (k', v) :: m' else (k', v') :: obj_set k v m'
  end.

(** Recursive descent; [fuel] bounds the number of nested calls. *)
Fixpoint parse_value (fuel : nat) (s : jsstring) : option (json * jsstring) :=
  match fuel with
  | O => None
  | S f =>
      match skip_ws s with
      | [] => None
      | c :: t =>
          if c =? LBRACE then
            match skip_ws t with
            | c' :: t' =>
                if c' =? RBRACE then Some (JObj [], t')
                else
                  match parse_members f (c' :: t') [] with
                  | Some (m, r) => Some (JObj m, r)
                  | None => None
                  end
            | [] => None
            end
          else if c =? LBRACKET then
            match skip_ws t with
            | c' :: t' =>
                if c' =? RBRACKET then Some (JArr [], t')
                else
                  match parse_elements f (c' :: t') with
                  | Some (l, r) => Some (JArr l, r)
                  | None => None
                  end
            | [] => None
            end
          else if c =? QUOTE then
            match parse_chars t with
            | Some (k, r) => Some (JStr k, r)
            | None => None
            end
          else if c =? 116 then
            match strip_prefix (str "rue") t with
            | Some r => Some (JBool true, r)
            | None => None
            end
          else if c =? 102 then
            match strip_prefix (str "alse") t with
            | Some r => Some (JBool false, r)
            | None => None
            end
          else if c =? 110 then
            match strip_prefix (str "ull") t with
            | Some r => Some (JNull, r)
            | None => None
            end
          else if (c =? MINUS) || is_digit c then
            match parse_number (c :: t) with
            | Some (n, r) => Some (JNum n, r)
            | None => None
            end
          else None
      end
  end

with parse_elements (fuel : nat) (s : jsstring) : option (list json * jsstring) :=
  match fuel with
  | O => None
  | S f =>
      match parse_value f s with
      | Some (v, r) =>
          match skip_ws r with
          | c :: t =>
              if c =? COMMA then
                match parse_elements f t with
                | Some (l, r') => Some (v :: l, r')
                | None => None
                end
              else if c =? RBRACKET then Some ([v], t)
              else None
          | [] => None
          end
      | None => None
      end
  end

with parse_members (fuel : nat) (s : jsstring) (acc : list (jsstring * json))
  : option (list (jsstring * json) * jsstring) :=
  match fuel with
  | O => None
  | S f =>
      match skip_ws s with
      | c :: t =>
          if c =? QUOTE then
            match parse_chars t with
            | Some (k, r) =>
                match skip_ws r with
                | c2 :: t2 =>
                    if c2 =? COLON then
                      match parse_value f t2 with
                      | Some (v, r2) =>
                          match skip_ws r2 with
                          | c3 :: t3 =>
                              if c3 =? COMMA
                              then parse_members f t3 (obj_set k v acc)
                              else if c3 =? RBRACE
                              then Some (obj_set k v acc, t3)
                              else None
                          | [] => None
                          end
                      | None => None
                      end
                    else None
                | [] => None
                end
            | None => None
            end
          else None
      | [] => None
      end
  end.

(** [JSON.parse(text)]: one value, with nothing but white space after it. *)
Definition JSON_parse (text : jsstring) : result json :=
  match parse_value (S (2 * List.length text)) text with
  | Some (v, rest) =>
      match skip_ws rest with
      | [] => Ok v
      | _ :: _ => Throw "Unexpected non-whitespace character after JSON"
      end
  | None => Throw "Unexpected token in JSON"
  end.

(** *** Buffer.from(string) and buffer.toString(): UTF-8 *)

Definition is_cont (b : Z) : bool := (128 <=? b) && (b <=? 191).

Definition encode_unit (c : Z) : Buffer :=
  if c <? 128 then [c]
  else if c <? 2048 then [192 + c / 64; 128 + c mod 64]
  else if is_high_surrogate c || is_low_surrogate c then [239; 191; 189]
  else [224 + c / 4096; 128 + c / 64 mod 64; 128 + c mod 64].

Definition encode_pair (h l : Z) : Buffer :=
  let cp := 65536 + (h - 55296) * 1024 + (l - 56320) in
  [240 + cp / 262144; 128 + cp / 4096 mod 64; 128 + cp / 64 mod 64; 128 + cp mod 64].

Fixpoint utf8_encode (s : jsstring) : Buffer :=
  match s with
  | [] => []
  | c :: t =>
      match t with
      | d :: t' =>
          if is_high_surrogate c && is_low_surrogate d
          then encode_pair c d ++ utf8_encode t'
          else encode_unit c ++ utf8_encode t
      | [] => encode_unit c ++ utf8_encode t
      end
  end.

Definition decode2 (b1 b2 : Z) : option Z :=
  let cp := (b1 - 192) * 64 + (b2 - 128) in
  if (192 <=? b1) && (b1 <=? 223) && is_cont b2 && (128 <=? cp)
  then Some cp else None.

Definition decode3 (b1 b2 b3 : Z) : option Z :=
  let cp := (b1 - 224) * 4096 + (b2 - 128) * 64 + (b3 - 128) in
  if (224 <=? b1) && (b1 <=? 239) && is_cont b2 && is_cont b3 && (2048 <=? cp)
     && negb (is_high_surrogate cp || is_low_surrogate cp)
  then Some cp else None.

Definition decode4 (b1 b2 b3 b4 : Z) : option (Z * Z) :=
  let cp := (b1 - 240) * 262144 + (b2 - 128) * 4096 + (b3 - 128) * 64 + (b4 - 128) in
  if (240 <=? b1) && (b1 <=? 247) && is_cont b2 && is_cont b3 && is_cont b4
     && (65536 <=? cp) && (cp <=? 1114111)
  then Some (55296 + (cp - 65536) / 1024, 56320 + (cp - 65536) mod 1024)
  else None.

(** An ill-formed byte is replaced by U+FFFD and decoding resumes at the
    next byte. *)
Fixpoint utf8_decode (b : Buffer) : jsstring :=
  match b with
  | [] => []
  | b1 :: t1 =>
      if b1 <? 128 then b1 :: utf8_decode t1
      else
        match t1 with
        | [] => [65533]
        | b2 :: t2 =>
            match decode2 b1 b2 with
            | Some c => c :: utf8_decode t2
            | None =>
                match t2 with
                | [] => 65533 :: utf8_decode t1
                | b3 :: t3 =>
                    match decode3 b1 b2 b3 with
                    | Some c => c :: utf8_decode t3
                    | None =>
                        match t3 with
                        | [] => 65533 :: utf8_decode t1
                        | b4 :: t4 =>
                            match decode4 b1 b2 b3 b4 with
                            | Some (h, l) => h :: l :: utf8_decode t4
                            | None => 65533 :: utf8_decode t1
                            end
                        end
                    end
                end
            end
        end
  end.

(** *** Values of the language that are passed to the messaging layer *)

Inductive jsvalue :=
| VJson (v : json)
| VUndefined
| VBigInt (z : Z).

(** [JSON.stringify(message)]: [undefined] for [undefined], a TypeError for a BigInt. *)
Definition JSON_stringify (m : jsvalue) : result (option jsstring) :=
  match m with
  | VJson v => Ok (Some (stringify v))
  | VUndefined => Ok None
  | VBigInt _ => Throw "Do not know how to serialize a BigInt"
  end.

(** [Buffer.from(x)]: a TypeError unless [x] is a string. *)
Definition Buffer_from (x : option jsstring) : result Buffer :=
  match x with
  | Some s => Ok (utf8_encode s)
  | None => Throw "The first argument must be of type string or an instance of Buffer, ArrayBuffer, or Array or an Array-like Object. Received undefined"
  end.

Definition Buffer_toString (b : Buffer) : jsstring := utf8_decode b.

(** *** JSON-representable values *)

Definition unit_ok (c : Z) : bool := (0 <=? c) && (c <=? 65535).

Definition digit_ok (d : Z) : bool := (0 <=? d) && (d <=? 9).

(** The digits of a Number are its shortest decimal: digits between 0 and
    9 with no zero at either end; zero is [zero]. *)
Definition number_ok (x : number) : bool :=
  match digits x with
  | [] => negb (negative x) && (pointpos x =? 0)
  | d :: _ =>
      forallb digit_ok (digits x) && negb (d =? 0) &&
      negb (last (digits x) 0 =? 0)
  end.

Fixpoint distinct_keys (ks : list jsstring) : bool :=
  match ks with
  | [] => true
  | k :: t => negb (existsb (jsstring_eqb k) t) && distinct_keys t
  end.

(** What [JSON.parse] can return: strings of 16-bit code units, Numbers
    in shortest form, objects whose property names are distinct. *)
Fixpoint representable (v : json) : bool :=
  match v with
  | JNull => true
  | JBool _ => true
  | JNum n => number_ok n
  | JStr s => forallb unit_ok s
  | JArr l => forallb representable l
  | JObj m =>
      distinct_keys (map fst m) &&
      forallb (fun kv => forallb unit_ok (fst kv) && representable (snd kv)) m
  end.

(** Well-formed UTF-16: every surrogate is half of a pair. *)
Fixpoint well_formed (s : jsstring) : bool :=
  match s with
  | [] => true
  | c :: t =>
      match t with
      | d :: t' =>
          if is_high_surrogate c && is_low_surrogate d
          then well_formed t'
          else unit_ok c && negb (is_high_surrogate c || is_low_surrogate c)
               && well_formed t
      | [] => unit_ok c && negb (is_high_surrogate c || is_low_surrogate c)
      end
  end.

(** The number of nested calls that parsing [v] takes. *)
Fixpoint weight (v : json) : nat :=
  match v with
  | JArr l => S ((fix total (l : list json) : nat :=
                    match l with
                    | [] => O
                    | x :: t => S (weight x + total t)
                    end) l)
  | JObj m => S ((fix total (m : list (jsstring * json)) : nat :=
                    match m with
                    | [] => O
                    | kv :: t => S (weight (snd kv) + total t)
                    end) m)
  | _ => 1%nat
  end.

(** The condition of an [if]. *)
Definition ToBoolean (v : jsvalue) : bool :=
  match v with
  | VUndefined => false
  | VBigInt z => negb (z =? 0)
  | VJson JNull => false
  | VJson (JBool b) => b
  | VJson (JNum n) => match digits n with [] => false | _ :: _ => true end
  | VJson (JStr s) => match s with [] => false | _ :: _ => true end
  | VJson (JArr _) => true
  | VJson (JObj _) => true
  end.

End Json.

(** * The broker client (amqplib) as seen from the messaging layer *)

Module Amqp.

Record ExchangeOptions := { ex_durable : bool; ex_autoDelete : bool }.

Record ExchangeConfig :=
  { ex_name : string; ex_type : string; ex_options : ExchangeOptions }.

(** [arguments] is absent on a queue without dead-letter configuration. *)
Record QueueOptions :=
  { q_durable : bool; q_autoDelete : bool;
    arguments : option (list (string * string)) }.

Record QueueConfig := { q_name : string; q_options : QueueOptions }.

Record MessageOptions :=
  { persistent : bool; contentType : string; contentEncoding : string }.

Record ConsumeOptions := { opt_noAck : bool }.

(** A delivery handed to the consumer callback. *)
Record Message := { content : Json.Buffer; deliveryTag : Z }.

Definition Connection := nat.
Definition Channel := nat.

(** The methods of a channel that the layer calls. *)
Inductive Command :=
| assertExchange (name type : string) (options : ExchangeOptions)
| assertQueue (name : string) (options : QueueOptions)
| bindQueue (queue exchange : string) (routingKey : option string)
| prefetch (count : Z)
| consume (queue : string) (options : ConsumeOptions)
| publish (exchange routingKey : string) (content : Json.Buffer)
    (options : MessageOptions)
| ack (msg : Message)
| nack (msg : Message) (allUpTo requeue : bool).

(** What leaves the layer, in order. *)
Inductive Event :=
| EvConnect (url : option string)
| EvCreateChannel (conn : Connection)
| EvDelay (ms : Z)
| EvChannel (ch : Channel) (c : Command)
| EvHandler (payload : Json.json).

(** How the outside answers, given everything that happened before:
    [channel_call] is [None] when the method returns and [Some m] when it
    throws; [publish_accepted] is the value [channel.publish] returns. *)
Record Env := {
  amqp_connect : list Event -> option string -> result Connection;
  createChannel : list Event -> Connection -> result Channel;
  channel_call : list Event -> Channel -> Command -> option string;
  publish_accepted : list Event -> bool
}.

(** The module-level variables of [connection.js]. *)
Record State := {
  connection : option Connection;
  channel : option Channel;
  connectionUrl : option string;
  isReconnecting : bool;
  reconnectAttempts : nat
}.

Record World := { state : State; trace : list Event }.

Definition initial : World :=
  {| state := {| connection := None; channel := None; connectionUrl := None;
                 isReconnecting := false; reconnectAttempts := 0 |};
     trace := [] |}.

Definition log (e : Event) (w : World) : World :=
  {| state := state w; trace := trace w ++ [e] |}.

Definition update (f : State -> State) (w : World) : World :=
  {| state := f (state w); trace := trace w |}.

Definition set_connection (c : option Connection) (s : State) : State :=
  {| connection := c; channel := channel s; connectionUrl := connectionUrl s;
     isReconnecting := isReconnecting s; reconnectAttempts := reconnectAttempts s |}.

Definition set_channel (c : option Channel) (s : State) : State :=
  {| connection := connection s; channel := c; connectionUrl := connectionUrl s;
     isReconnecting := isReconnecting s; reconnectAttempts := reconnectAttempts s |}.

Definition set_connectionUrl (u : option string) (s : State) : State :=
  {| connection := connection s; channel := channel s; connectionUrl := u;
     isReconnecting := isReconnecting s; reconnectAttempts := reconnectAttempts s |}.

Definition set_isReconnecting (b : bool) (s : State) : State :=
  {| connection := connection s; channel := channel s;
     connectionUrl := connectionUrl s;
     isReconnecting := b; reconnectAttempts := reconnectAttempts s |}.

Definition set_reconnectAttempts (n : nat) (s : State) : State :=
  {| connection := connection s; channel := channel s;
     connectionUrl := connectionUrl s;
     isReconnecting := isReconnecting s; reconnectAttempts := n |}.

(** ** Asynchronous functions: a state and exception monad over [World] *)

Definition M (A : Type) : Type := World -> result A * World.

Definition ret {A} (a : A) : M A := fun w => (Ok a, w).

Definition throw {A} (message : string) : M A := fun w => (Throw message, w).

Definition bind {A B} (m : M A) (k : A -> M B) : M B :=
  fun w =>
    match m w with
    | (Ok a, w') => k a w'
    | (Throw e, w') => (Throw e, w')
    end.

Definition try_catch {A} (body : M A) (handler : string -> M A) : M A :=
  fun w =>
    match body w with
    | (Ok a, w') => (Ok a, w')
    | (Throw e, w') => handler e w'
    end.

Definition lift {A} (r : result A) : M A := fun w => (r, w).

(** [await channel.method(...)] and the synchronous [channel.method(...)]. *)
Definition call (env : Env) (ch : Channel) (c : Command) : M unit :=
  fun w =>
    match channel_call env (trace w) ch c with
    | None => (Ok tt, log (EvChannel ch c) w)
    | Some e => (Throw e, log (EvChannel ch c) w)
    end.

(** [channel.publish(...)], which returns the write-buffer signal. *)
Definition call_publish (env : Env) (ch : Channel) (c : Command) : M bool :=
  fun w =>
    match channel_call env (trace w) ch c with
    | None => (Ok (publish_accepted env (trace w)), log (EvChannel ch c) w)
    | Some e => (Throw e, log (EvChannel ch c) w)
    end.

End Amqp.

Declare Scope amqp_scope.
Delimit Scope amqp_scope with amqp.
Notation "x <- m ;; k" := (Amqp.bind m (fun x => k))
  (at level 61, m at next level, right associativity) : amqp_scope.
Notation "m ;;; k" := (Amqp.bind m (fun _ => k))
  (at level 61, right associativity) : amqp_scope.

(** * constants.js *)

Module Constants.
Import Amqp.
Local Open Scope string_scope.

Definition ORDER_EXCHANGE : ExchangeConfig :=
  {| ex_name := "order.exchange"; ex_type := "direct";
     ex_options := {| ex_durable := true; ex_autoDelete := false |} |}.

Definition DEAD_LETTER_EXCHANGE : ExchangeConfig :=
  {| ex_name := "dlx.exchange"; ex_type := "direct";
     ex_options := {| ex_durable := true; ex_autoDelete := false |} |}.

Definition EMAIL_QUEUE : QueueConfig :=
  {| q_name := "email.queue";
     q_options :=
       {| q_durable := true; q_autoDelete := false;
          arguments := Some [("x-dead-letter-exchange", "dlx.exchange");
                             ("x-dead-letter-routing-key", "email.dlq")] |} |}.

Definition EMAIL_DLQ : QueueConfig :=
  {| q_name := "email.dlq";
     q_options :=
       {| q_durable := true; q_autoDelete := false; arguments := None |} |}.

Definition ORDER_CREATED : string := "order.created".
Definition ROUTING_KEY_EMAIL_DLQ : string := "email.dlq".

Definition MESSAGE_OPTIONS : MessageOptions :=
  {| persistent := true; contentType := "application/json";
     contentEncoding := "utf-8" |}.

Definition prefetchCount : Z := 1.
Definition noAck : bool := false.

End Constants.

(** * connection.js *)

Module Connection.
Import Amqp.
Local Open Scope string_scope.

Definition MAX_RECONNECT_ATTEMPTS : nat := 10.
Definition RECONNECT_DELAY_MS : Z := 5000.

(** [getChannel()]: the singleton channel, created from the current
    connection when there is none. *)
Definition getChannel (env : Env) : M Channel :=
  fun w =>
    match channel (state w) with
    | Some ch => (Ok ch, w)
    | None =>
        match connection (state w) with
        | None =>
            (Throw "No RabbitMQ connection available. Call connect() first.", w)
        | Some c =>
            let w1 := log (EvCreateChannel c) w in
            match createChannel env (trace w) c with
            | Ok ch => (Ok ch, update (set_channel (Some ch)) w1)
            | Throw e => (Throw e, w1)
            end
        end
    end.

(** The [while] loop of [handleReconnection].  Whatever is thrown inside
    the [try] block, by [amqp.connect] or by [getChannel], is caught and
    the loop goes on.  [None] stands for a loop that has not ended within
    [fuel] iterations. *)
Fixpoint reconnectLoop (fuel : nat) (env : Env) (w : World) : option World :=
  if Nat.ltb (reconnectAttempts (state w)) MAX_RECONNECT_ATTEMPTS then
    match fuel with
    | O => None
    | S f =>
        let w1 := update (set_reconnectAttempts (S (reconnectAttempts (state w)))) w in
        let w2 := log (EvDelay RECONNECT_DELAY_MS) w1 in
        let w3 := log (EvConnect (connectionUrl (state w2))) w2 in
        match amqp_connect env (trace w2) (connectionUrl (state w2)) with
        | Ok c =>
            let w4 := update (set_connection (Some c)) w3 in
            let w5 := update (set_reconnectAttempts 0) w4 in
            let w6 := update (set_isReconnecting false) w5 in
            let w7 := update (set_channel None) w6 in
            match getChannel env w7 with
            | (Ok _, w8) => Some w8
            | (Throw _, w8) => reconnectLoop f env w8
            end
        | Throw _ => reconnectLoop f env w3
        end
    end
  else Some (update (set_isReconnecting false) w).

Definition handleReconnection (fuel : nat) (env : Env) (w : World)
  : option World :=
  if isReconnecting (state w) then Some w
  else reconnectLoop fuel env (update (set_isReconnecting true) w).

(** [connect(url)].  A failure of its own [amqp.connect] runs the
    reconnection procedure and is then thrown again. *)
Definition connect (fuel : nat) (env : Env) (url : string) (w : World)
  : option (result Connection * World) :=
  match connection (state w) with
  | Some c => Some (Ok c, w)
  | None =>
      let w1 := update (set_connectionUrl (Some url)) w in
      let w2 := log (EvConnect (Some url)) w1 in
      match amqp_connect env (trace w1) (Some url) with
      | Ok c =>
          let w3 := update (set_connection (Some c)) w2 in
          let w4 := update (set_reconnectAttempts 0) w3 in
          Some (Ok c, update (set_isReconnecting false) w4)
      | Throw e =>
          match handleReconnection fuel env w2 with
          | Some w3 => Some (Throw e, w3)
          | None => None
          end
      end
  end.

(** The observers installed by [setupConnectionHandlers], run to the end
    of the reconnection they start. *)
Definition onConnectionError (fuel : nat) (env : Env) (w : World)
  : option World :=
  if isReconnecting (state w) then Some w else handleReconnection fuel env w.

Definition onConnectionClose (fuel : nat) (env : Env) (w : World)
  : option World :=
  let w1 := update (set_channel None) (update (set_connection None) w) in
  if isReconnecting (state w1) then Some w1 else handleReconnection fuel env w1.

End Connection.

(** * publisher.js *)

Module Publisher.
Import Amqp Constants.
Local Open Scope string_scope.
Local Open Scope amqp_scope.

Fixpoint lookup {A : Type} (key : string) (m : list (string * A)) : option A :=
  match m with
  | [] => None
  | (k, v) :: m' => if String.eqb k key then Some v else lookup key m'
  end.

(** The table from queue names to dead-letter queues: its own entries
    (what a JavaScript object inherits from [Object.prototype] is not a
    queue name of the topology). *)
Definition queueToDLQMap : list (string * QueueConfig) :=
  [(q_name EMAIL_QUEUE, EMAIL_DLQ)].

(** [queueToDLQMap[queueName] || null]. *)
Definition findDLQForQueue (queueName : string) : option QueueConfig :=
  lookup queueName queueToDLQMap.

(** [queueConfig.options.arguments['x-dead-letter-routing-key']]: a
    TypeError when [arguments] is absent, [undefined] when the key is. *)
Definition deadLetterRoutingKey (queueConfig : QueueConfig)
  : result (option string) :=
  match arguments (q_options queueConfig) with
  | None => Throw "Cannot read properties of undefined (reading 'x-dead-letter-routing-key')"
  | Some args => Ok (lookup "x-dead-letter-routing-key" args)
  end.

(** Steps 1 to 5 of [publishMessage]. *)
Definition provision (env : Env) (channel : Channel)
    (exchangeConfig : ExchangeConfig) (queueConfig : QueueConfig)
    (routingKey : string) : M unit :=
  call env channel
    (assertExchange (ex_name DEAD_LETTER_EXCHANGE) (ex_type DEAD_LETTER_EXCHANGE)
       (ex_options DEAD_LETTER_EXCHANGE)) ;;;
  match findDLQForQueue (q_name queueConfig) with
  | Some dlqConfig =>
      call env channel (assertQueue (q_name dlqConfig) (q_options dlqConfig)) ;;;
      dlqRoutingKey <- lift (deadLetterRoutingKey queueConfig) ;;
      call env channel
        (bindQueue (q_name dlqConfig) (ex_name DEAD_LETTER_EXCHANGE) dlqRoutingKey)
  | None => ret tt
  end ;;;
  call env channel
    (assertExchange (ex_name exchangeConfig) (ex_type exchangeConfig)
       (ex_options exchangeConfig)) ;;;
  call env channel (assertQueue (q_name queueConfig) (q_options queueConfig)) ;;;
  call env channel
    (bindQueue (q_name queueConfig) (ex_name exchangeConfig) (Some routingKey)).

(** Step 6: [JSON.stringify] then [Buffer.from], with the error rewrapped. *)
Definition serialize (message : Json.jsvalue) : result Json.Buffer :=
  match
    match Json.JSON_stringify message with
    | Ok messageString => Json.Buffer_from messageString
    | Throw error => Throw error
    end
  with
  | Ok messageBuffer => Ok messageBuffer
  | Throw error => Throw ("Failed to serialize message: " ++ error)
  end.

Definition publishMessage (env : Env) (exchangeConfig : ExchangeConfig)
    (queueConfig : QueueConfig) (routingKey : string)
    (message : Json.jsvalue) : M bool :=
  try_catch
    (channel <- Connection.getChannel env ;;
     provision env channel exchangeConfig queueConfig routingKey ;;;
     messageBuffer <- lift (serialize message) ;;
     published <- call_publish env channel
                    (publish (ex_name exchangeConfig) routingKey messageBuffer
                       MESSAGE_OPTIONS) ;;
     if published then ret true else ret false)
    (fun error => throw error).

End Publisher.

(** * consumer.js *)

Module Consumer.
Import Amqp Constants.
Local Open Scope string_scope.
Local Open Scope amqp_scope.

Fixpoint lookup {A : Type} (key : string) (m : list (string * A)) : option A :=
  match m with
  | [] => None
  | (k, v) :: m' => if String.eqb k key then Some v else lookup key m'
  end.

Definition queueToDLQMap : list (string * QueueConfig) :=
  [(q_name EMAIL_QUEUE, EMAIL_DLQ)].

Definition findDLQForQueue (queueName : string) : option QueueConfig :=
  lookup queueName queueToDLQMap.

Definition deadLetterRoutingKey (queueConfig : QueueConfig)
  : result (option string) :=
  match arguments (q_options queueConfig) with
  | None => Throw "Cannot read properties of undefined (reading 'x-dead-letter-routing-key')"
  | Some args => Ok (lookup "x-dead-letter-routing-key" args)
  end.

(** [deserializeMessage(msg)]: [msg.content.toString()] then [JSON.parse],
    with the error rewrapped. *)
Definition deserializeMessage (msg : Message) : result Json.json :=
  match Json.JSON_parse (Json.Buffer_toString (content msg)) with
  | Ok messageObject => Ok messageObject
  | Throw error => Throw ("Failed to deserialize message: " ++ error)
  end.

(** The application handler: it sees the payload and returns a value or
    throws; its answer may depend on what happened before. *)
Definition Handler := list Event -> Json.json -> result Json.jsvalue.

Definition invoke (onMessage : Handler) (payload : Json.json) : M Json.jsvalue :=
  fun w => (onMessage (trace w) payload, log (EvHandler payload) w).

(** The callback passed to [channel.consume]; [None] is the null message
    of a cancelled consumer. *)
Definition onDelivery (env : Env) (channel : Channel) (onMessage : Handler)
    (msg : option Message) : M unit :=
  match msg with
  | None => ret tt
  | Some msg =>
      try_catch
        (messageContent <- lift (deserializeMessage msg) ;;
         success <- invoke onMessage messageContent ;;
         if Json.ToBoolean success
         then call env channel (ack msg)
         else call env channel (nack msg false false))
        (fun error => call env channel (nack msg false false))
  end.

(** Steps 1 to 5 of [consumeMessages]. *)
Definition provision (env : Env) (channel : Channel)
    (exchangeConfig : ExchangeConfig) (queueConfig : QueueConfig)
    (routingKey : string) : M unit :=
  call env channel
    (assertExchange (ex_name DEAD_LETTER_EXCHANGE) (ex_type DEAD_LETTER_EXCHANGE)
       (ex_options DEAD_LETTER_EXCHANGE)) ;;;
  match findDLQForQueue (q_name queueConfig) with
  | Some dlqConfig =>
      call env channel (assertQueue (q_name dlqConfig) (q_options dlqConfig)) ;;;
      dlqRoutingKey <- lift (deadLetterRoutingKey queueConfig) ;;
      call env channel
        (bindQueue (q_name dlqConfig) (ex_name DEAD_LETTER_EXCHANGE) dlqRoutingKey)
  | None => ret tt
  end ;;;
  call env channel
    (assertExchange (ex_name exchangeConfig) (ex_type exchangeConfig)
       (ex_options exchangeConfig)) ;;;
  call env channel (assertQueue (q_name queueConfig) (q_options queueConfig)) ;;;
  call env channel
    (bindQueue (q_name queueConfig) (ex_name exchangeConfig) (Some routingKey)).

(** [consumeMessages]: provisioning, prefetch, then the subscription that
    installs [onDelivery env channel onMessage] as the callback. *)
Definition consumeMessages (env : Env) (exchangeConfig : ExchangeConfig)
    (queueConfig : QueueConfig) (routingKey : string) (onMessage : Handler)
  : M unit :=
  try_catch
    (channel <- Connection.getChannel env ;;
     provision env channel exchangeConfig queueConfig routingKey ;;;
     call env channel (prefetch prefetchCount) ;;;
     call env channel (consume (q_name queueConfig) {| opt_noAck := noAck |}))
    (fun error => throw error).

End Consumer.

(** * connection.js, continued: channel observers and shutdown *)

Module Shutdown.
Import Amqp.

(** The observers installed by [setupChannelHandlers] on a channel: on
    ['error'] and on ['close'] the module variable [channel] is cleared. *)
Definition onChannelError (w : World) : World := update (set_channel None) w.

Definition onChannelClose (w : World) : World := update (set_channel None) w.

(** The two [close()] calls of a shutdown, in the order they are made. *)
Inductive Closing :=
| CloseChannel (ch : Channel)
| CloseConnection (c : Connection).

(** How [channel.close()] and [connection.close()] answer: [None] when the
    call returns, [Some m] when it throws. *)
Record CloseEnv := {
  channel_close : list Event -> Channel -> option string;
  connection_close : list Event -> Connection -> option string
}.

(** [if (channel) { await channel.close(); channel = null; }] *)
Definition closeHeldChannel (cenv : CloseEnv) (x : World * list Closing)
  : result unit * (World * list Closing) :=
  let (w, made) := x in
  match channel (state w) with
  | Some ch =>
      match channel_close cenv (trace w) ch with
      | None => (Ok tt, (update (set_channel None) w, made ++ [CloseChannel ch]))
      | Some e => (Throw e, (w, made ++ [CloseChannel ch]))
      end
  | None => (Ok tt, (w, made))
  end.

(** [if (connection) { await connection.close(); connection = null; }] *)
Definition closeHeldConnection (cenv : CloseEnv) (x : World * list Closing)
  : result unit * (World * list Closing) :=
  let (w, made) := x in
  match connection (state w) with
  | Some c =>
      match connection_close cenv (trace w) c with
      | None => (Ok tt, (update (set_connection None) w, made ++ [CloseConnection c]))
      | Some e => (Throw e, (w, made ++ [CloseConnection c]))
      end
  | None => (Ok tt, (w, made))
  end.

(** The [catch] clause: [channel = null; connection = null]. *)
Definition forceCleanup (w : World) : World :=
  update (set_connection None) (update (set_channel None) w).

(** [closeConnection()]: the world it leaves and the [close()] calls it made. *)
Definition closeConnection (cenv : CloseEnv) (w : World) : World * list Closing :=
  match closeHeldChannel cenv (w, []) with
  | (Ok _, x1) =>
      match closeHeldConnection cenv x1 with
      | (Ok _, x2) => x2
      | (Throw _, (w2, made)) => (forceCleanup w2, made)
      end
  | (Throw _, (w1, made)) => (forceCleanup w1, made)
  end.

End Shutdown.

(** * Operations of the language on parsed values *)

Module Values.
Import Json.
Local Open Scope string_scope.
Local Open Scope list_scope.
Local Open Scope Z_scope.

(** The own property [key] of an object (property names are distinct). *)
Fixpoint assoc (key : jsstring) (m : list (jsstring * json)) : option json :=
  match m with
  | [] => None
  | (k, v) :: t => if jsstring_eqb k key then Some v else assoc key t
  end.

(** [null] and [undefined]: reading a property of them is a TypeError. *)
Definition nullish (v : jsvalue) : bool :=
  match v with
  | VUndefined => true
  | VJson JNull => true
  | _ => false
  end.

(** [v.key] for a [v] that is not nullish and a [key] that the prototypes
    do not define: the own property of an object, [undefined] otherwise. *)
Definition GetV (v : jsvalue) (key : string) : jsvalue :=
  match v with
  | VJson (JObj m) =>
      match assoc (str key) m with
      | Some x => VJson x
      | None => VUndefined
      end
  | _ => VUndefined
  end.

(** [v === s] for a string [s]. *)
Definition strict_equal_string (v : jsvalue) (s : jsstring) : bool :=
  match v with
  | VJson (JStr x) => jsstring_eqb x s
  | _ => false
  end.

Definition Array_isArray (v : jsvalue) : bool :=
  match v with
  | VJson (JArr _) => true
  | _ => false
  end.

(** [v.length === 0] for an array [v]. *)
Definition length_is_zero (v : jsvalue) : bool :=
  match v with
  | VJson (JArr []) => true
  | _ => false
  end.

(** [typeof v !== 'number'] *)
Definition not_a_number (v : jsvalue) : bool :=
  match v with
  | VJson (JNum _) => false
  | _ => true
  end.

(** Numbers are compared as the decimals they stand for:
    [0.d1..dk * 10^n] is [d1..dk * 10^(n-k)]. *)
Definition mantissa (x : number) : Z :=
  (if negative x then -1 else 1) * value_of_digits (digits x).

Definition exponent (x : number) : Z :=
  pointpos x - Z.of_nat (List.length (digits x)).

Definition number_ltb (a b : number) : bool :=
  let e := Z.min (exponent a) (exponent b) in
  mantissa a * 10 ^ (exponent a - e) <? mantissa b * 10 ^ (exponent b - e).

(** [v <= 0] for a Number [v]. *)
Definition le_zero (v : jsvalue) : bool :=
  match v with
  | VJson (JNum n) => negb (number_ltb zero n)
  | _ => false
  end.

(** [ToString] of a parsed value.  An array is joined with commas, [null]
    elements giving the empty string.  An object gives [[object Object]]
    through [Object.prototype.toString], unless it has an own property
    [toString]: a parsed value is never callable, [valueOf] returns the
    object itself, and the conversion is a TypeError. *)
Fixpoint ToString (v : json) : result jsstring :=
  match v with
  | JNull => Ok (str "null")
  | JBool true => Ok (str "true")
  | JBool false => Ok (str "false")
  | JNum n => Ok (Number_toString n)
  | JStr s => Ok s
  | JArr l =>
      (fix join (l : list json) : result jsstring :=
         match l with
         | [] => Ok []
         | x :: t =>
             match match x with JNull => Ok [] | _ => ToString x end with
             | Throw e => Throw e
             | Ok first =>
                 match t with
                 | [] => Ok first
                 | _ :: _ =>
                     match join t with
                     | Ok rest => Ok (first ++ COMMA :: rest)
                     | Throw e => Throw e
                     end
                 end
             end
         end) l
  | JObj m =>
      match assoc (str "toString") m with
      | Some _ => Throw "Cannot convert object to primitive value"
      | None => Ok (str "[object Object]")
      end
  end.

(** [ToString] of any value, as in [prefix + v] and in [regex.test(v)]. *)
Definition ToStringV (v : jsvalue) : result jsstring :=
  match v with
  | VUndefined => Ok (str "undefined")
  | VBigInt z => Ok ((if z <? 0 then [MINUS] else []) ++ decimal (Z.abs z))
  | VJson x => ToString x
  end.

(** An object literal as property reads and [JSON.stringify] see it: a
    property whose value is [undefined] reads as absent and is not printed.
    (The values put in literals here are read with [GetV], which never
    gives a BigInt.) *)
Fixpoint object_literal (members : list (string * jsvalue))
  : list (jsstring * json) :=
  match members with
  | [] => []
  | (k, VJson v) :: t => (str k, v) :: object_literal t
  | (_, _) :: t => object_literal t
  end.

End Values.

(** * Regular expressions, as [RegExp.prototype.test] decides them *)

Module RegExp.
Import Json.
Local Open Scope Z_scope.

Inductive regex :=
| Nothing
| Epsilon
| Class (p : Z -> bool)
| Cat (r1 r2 : regex)
| Alt (r1 r2 : regex)
| Star (r : regex).

(** [r+] *)
Definition Plus (r : regex) : regex := Cat r (Star r).

Definition Chr (c : Z) : regex := Class (Z.eqb c).

Fixpoint nullable (r : regex) : bool :=
  match r with
  | Nothing => false
  | Epsilon => true
  | Class _ => false
  | Cat r1 r2 => nullable r1 && nullable r2
  | Alt r1 r2 => nullable r1 || nullable r2
  | Star _ => true
  end.

(** What is left of [r] to match once the code unit [c] has been read. *)
Fixpoint deriv (c : Z) (r : regex) : regex :=
  match r with
  | Nothing => Nothing
  | Epsilon => Nothing
  | Class p => if p c then Epsilon else Nothing
  | Cat r1 r2 =>
      if nullable r1
      then Alt (Cat (deriv c r1) r2) (deriv c r2)
      else Cat (deriv c r1) r2
  | Alt r1 r2 => Alt (deriv c r1) (deriv c r2)
  | Star r1 => Cat (deriv c r1) (Star r1)
  end.

(** A pattern written between [^] and [$], without flags, matches when
    the whole string does, code unit by code unit. *)
Definition matches (r : regex) (s : jsstring) : bool :=
  nullable (fold_left (fun r c => deriv c r) s r).

(** [\s]: WhiteSpace and LineTerminator. *)
Definition is_space (c : Z) : bool :=
  (c =? 9) || (c =? 10) || (c =? 11) || (c =? 12) || (c =? 13) || (c =? 32) ||
  (c =? 160) || (c =? 5760) || ((8192 <=? c) && (c <=? 8202)) ||
  (c =? 8232) || (c =? 8233) || (c =? 8239) || (c =? 8287) ||
  (c =? 12288) || (c =? 65279).

(** [[^\s@]] *)
Definition not_space_or_at (c : Z) : bool := negb (is_space c || (c =? 64)).

(** [/^[^\s@]+@[^\s@]+\.[^\s@]+$/] *)
Definition emailRegex : regex :=
  Cat (Plus (Class not_space_or_at))
    (Cat (Chr 64)
       (Cat (Plus (Class not_space_or_at))
          (Cat (Chr 46) (Plus (Class not_space_or_at))))).

(** [regex.test(v)]: the argument is converted to a string first. *)
Definition test (r : regex) (v : jsvalue) : result bool :=
  match Values.ToStringV v with
  | Ok s => Ok (matches r s)
  | Throw e => Throw e
  end.

(** The strings of a pattern. *)
Inductive lang : regex -> jsstring -> Prop :=
| lang_eps : lang Epsilon []
| lang_class p c : p c = true -> lang (Class p) [c]
| lang_cat r1 r2 s1 s2 : lang r1 s1 -> lang r2 s2 -> lang (Cat r1 r2) (s1 ++ s2)
| lang_alt_l r1 r2 s : lang r1 s -> lang (Alt r1 r2) s
| lang_alt_r r1 r2 s : lang r2 s -> lang (Alt r1 r2) s
| lang_star_nil r : lang (Star r) []
| lang_star_cons r s1 s2 : lang r s1 -> lang (Star r) s2 -> lang (Star r) (s1 ++ s2).

End RegExp.

(** * emailService.js and emailConsumer.js *)

Module EmailService.
Import Amqp Json Values RegExp Constants.
Local Open Scope string_scope.
Local Open Scope amqp_scope.

(** [await new Promise((resolve) => setTimeout(resolve, ms))] *)
Definition delay (ms : Z) : M unit := fun w => (Ok tt, log (EvDelay ms) w).

Section Service.

(** [generateEmailContent] lays the order out as a text that only goes to
    the console; the text depends on the locale and on the rendering of
    doubles and is not embedded.  It is any function that returns a text
    or throws. *)
Variable generateEmailContent : jsvalue -> result jsstring.

(** [Math.random()] *)
Variable Math_random : list Event -> number.

Definition random : M number := fun w => (Ok (Math_random (trace w)), w).

(** [sendOrderConfirmationEmail(orderData)] *)
Definition sendOrderConfirmationEmail (orderData : jsvalue) : M bool :=
  try_catch
    (if nullish orderData
     then throw "Cannot destructure property 'orderId' of 'orderData' as it is undefined."
     else
       let orderId := GetV orderData "orderId" in
       let customerEmail := GetV orderData "customerEmail" in
       let items := GetV orderData "items" in
       let total := GetV orderData "total" in
       if negb (ToBoolean orderId) || negb (ToBoolean customerEmail) ||
          negb (ToBoolean items) || negb (ToBoolean total)
       then throw "Missing required email data"
       else
         valid <- lift (test emailRegex customerEmail) ;;
         if negb valid then throw "Invalid email address"
         else
           (* 'Subject: Order Confirmation - Order #' + orderId *)
           lift (ToStringV orderId) ;;;
           lift (generateEmailContent orderData) ;;;
           delay 1000 ;;;
           r <- random ;;
           if number_ltb r (mkNumber false [5%Z] (-1))
           then throw "Simulated email service error (5% random failure)"
           else ret true)
    (fun error => ret false).

(** [processOrderMessage(message)] *)
Definition processOrderMessage (message : jsvalue) : M bool :=
  try_catch
    (if nullish message
     then throw "Cannot read properties of null (reading 'eventType')"
     else
       if negb (strict_equal_string (GetV message "eventType") (str "order.created"))
       then ret false
       else
         emailSent <- sendOrderConfirmationEmail message ;;
         if emailSent then ret true else ret false)
    (fun error => ret false).

(** [processOrderMessage] as the callback that [consumeMessages] is given:
    it is handed the parsed payload and answers from what has happened so
    far. *)
Definition onMessage : Consumer.Handler :=
  fun history payload =>
    match fst (processOrderMessage (VJson payload)
                 {| state := state initial; trace := history |}) with
    | Ok b => Ok (VJson (JBool b))
    | Throw e => Throw e
    end.

(** [startEmailConsumer()] *)
Definition startEmailConsumer (env : Env) : M unit :=
  try_catch
    (Consumer.consumeMessages env ORDER_EXCHANGE EMAIL_QUEUE ORDER_CREATED onMessage)
    (fun error => throw error).

End Service.

End EmailService.

(** * orderController.js *)

Module OrderController.
Import Amqp Json Values RegExp Constants.
Local Open Scope string_scope.
Local Open Scope amqp_scope.

(** [res.status(code).json(body)] *)
Record Response := { status : Z; body : json }.

Definition failure (code : Z) (error : string) : Response :=
  {| status := code;
     body := JObj [(str "success", JBool false); (str "error", JStr (str error))] |}.

(** The payload published for an accepted order. *)
Definition orderMessage (orderId customerEmail items total : jsvalue)
    (createdAt : jsstring) : json :=
  JObj (object_literal
          [("orderId", orderId); ("customerEmail", customerEmail);
           ("items", items); ("total", total);
           ("createdAt", VJson (JStr createdAt));
           ("eventType", VJson (JStr (str "order.created")))]).

Definition created (orderId : jsvalue) : Response :=
  {| status := 201;
     body :=
       JObj [(str "success", JBool true);
             (str "message", JStr (str "Order created successfully"));
             (str "data",
              JObj (object_literal
                      [("orderId", orderId);
                       ("status", VJson (JStr (str "pending")));
                       ("message",
                        VJson (JStr (str "Order confirmation email will be sent shortly")))]))] |}.

(** [createOrder(req, res)] for the request body [req.body];
    [toISOString] is [new Date().toISOString()]. *)
Definition createOrder (env : Env) (toISOString : list Event -> jsstring)
    (req_body : jsvalue) : M Response :=
  try_catch
    (if nullish req_body
     then throw "Cannot destructure property 'orderId' of 'req.body' as it is undefined."
     else
       let orderId := GetV req_body "orderId" in
       let customerEmail := GetV req_body "customerEmail" in
       let items := GetV req_body "items" in
       let total := GetV req_body "total" in
       if negb (ToBoolean orderId) || negb (ToBoolean customerEmail) ||
          negb (ToBoolean items) || negb (ToBoolean total)
       then ret (failure 400 "Missing required fields: orderId, customerEmail, items, total")
       else if negb (Array_isArray items) || length_is_zero items
       then ret (failure 400 "Items must be a non-empty array")
       else if not_a_number total || le_zero total
       then ret (failure 400 "Total must be a positive number")
       else
         valid <- lift (test emailRegex customerEmail) ;;
         if negb valid then ret (failure 400 "Invalid email format")
         else
           createdAt <- (fun w => (Ok (toISOString (trace w)), w)) ;;
           Publisher.publishMessage env ORDER_EXCHANGE EMAIL_QUEUE ORDER_CREATED
             (VJson (orderMessage orderId customerEmail items total createdAt)) ;;;
           ret (created orderId))
    (fun error =>
       ret {| status := 500;
              body := JObj [(str "success", JBool false);
                            (str "error", JStr (str "Failed to create order"));
                            (str "details", JStr (str error))] |}).

End OrderController.

(** * server.js of the email service: startup *)

Module Server.
Import Amqp.

(** How [startServer] leaves the process: listening for health checks, or
    ended by [process.exit(code)]. *)
Inductive Outcome :=
| Listening
| Exited (code : Z).

Section Startup.

Variable generateEmailContent : Json.jsvalue -> result Json.jsstring.
Variable Math_random : list Event -> Json.number.

(** [app.listen(port, ...)]: [None] when it returns, [Some m] when it throws. *)
Variable listen : list Event -> option string.

(** [startServer()]: connect, start the consumer, listen; any exception
    ends the process with code 1. *)
Definition startServer (fuel : nat) (env : Env) (url : string) (w : World)
  : option (Outcome * World) :=
  match Connection.connect fuel env url w with
  | None => None
  | Some (Throw _, w1) => Some (Exited 1, w1)
  | Some (Ok _, w1) =>
      match EmailService.startEmailConsumer generateEmailContent Math_random env w1 with
      | (Throw _, w2) => Some (Exited 1, w2)
      | (Ok _, w2) =>
          match listen (trace w2) with
          | Some _ => Some (Exited 1, w2)
          | None => Some (Listening, w2)
          end
      end
  end.

End Startup.

End Server.

(** * What is observed in a trace *)

Module Observe.
Import Amqp.

(** The terminal decisions (ack or nack) issued in a run of events. *)
Definition decision (e : Event) : option Command :=
  match e with
  | EvChannel _ (ack m) => Some (ack m)
  | EvChannel _ (nack m a r) => Some (nack m a r)
  | _ => None
  end.

Fixpoint decisions (evs : list Event) : list Command :=
  match evs with
  | [] => []
  | e :: t =>
      match decision e with
      | Some d => d :: decisions t
      | None => decisions t
      end
  end.

Definition is_requeue (e : Event) : bool :=
  match e with
  | EvChannel _ (nack _ _ true) => true
  | _ => false
  end.

Definition is_handler (e : Event) : bool :=
  match e with
  | EvHandler _ => true
  | _ => false
  end.

Definition is_publish (e : Event) : bool :=
  match e with
  | EvChannel _ (publish _ _ _ _) => true
  | _ => false
  end.

Definition is_channel_call (e : Event) : bool :=
  match e with
  | EvChannel _ _ => true
  | _ => false
  end.

Definition is_connect (e : Event) : bool :=
  match e with
  | EvConnect _ => true
  | _ => false
  end.

(** Number of [amqp.connect] calls in a run of events. *)
Definition connect_attempts (evs : list Event) : nat :=
  List.length (filter is_connect evs).

(** Every [amqp.connect] of a reconnection comes right after a wait of
    [ms] milliseconds. *)
Fixpoint delayed_connects (ms : Z) (evs : list Event) : bool :=
  match evs with
  | [] => true
  | EvDelay d :: EvConnect _ :: t => Z.eqb d ms && delayed_connects ms t
  | EvConnect _ :: _ => false
  | _ :: t => delayed_connects ms t
  end.

(** The events of [w'] that are not yet in [w]. *)
Definition events_since (w w' : World) : list Event :=
  skipn (List.length (trace w)) (trace w').

(** The world [w] after the further events [evs]. *)
Definition extend (w : World) (evs : list Event) : World :=
  {| state := state w; trace := trace w ++ evs |}.

(** The assertions of the provisioning steps, as commands. *)
Definition assert_dlx : Command :=
  assertExchange (ex_name Constants.DEAD_LETTER_EXCHANGE)
    (ex_type Constants.DEAD_LETTER_EXCHANGE)
    (ex_options Constants.DEAD_LETTER_EXCHANGE).

Definition assert_exchange (ex : ExchangeConfig) : Command :=
  assertExchange (ex_name ex) (ex_type ex) (ex_options ex).

Definition assert_queue (q : QueueConfig) : Command :=
  assertQueue (q_name q) (q_options q).

Definition bind_main (q : QueueConfig) (ex : ExchangeConfig) (rk : string)
  : Command :=
  bindQueue (q_name q) (ex_name ex) (Some rk).

(** The events before the first assertion of the queue called [name]. *)
Fixpoint before_queue (name : string) (evs : list Event) : list Event :=
  match evs with
  | [] => []
  | EvChannel ch (assertQueue n o) :: t =>
      if String.eqb n name then [] else EvChannel ch (assertQueue n o) :: before_queue name t
  | e :: t => e :: before_queue name t
  end.

Definition asserts_exchange (name : string) (e : Event) : bool :=
  match e with
  | EvChannel _ (assertExchange n _ _) => String.eqb n name
  | _ => false
  end.

Definition asserts_queue (name : string) (e : Event) : bool :=
  match e with
  | EvChannel _ (assertQueue n _) => String.eqb n name
  | _ => false
  end.

(** The ordering the invariant of the data model asks for: before the
    main queue [q] is asserted, the exchange [dlx] has been asserted and
    some queue has been asserted and bound to [dlx] with routing key [rk]. *)
Definition dead_letter_first (q : QueueConfig) (dlx rk : string)
    (evs : list Event) : bool :=
  let pre := before_queue (q_name q) evs in
  existsb (asserts_exchange dlx) pre &&
  existsb (fun e =>
             match e with
             | EvChannel _ (bindQueue d x (Some k)) =>
                 String.eqb x dlx && String.eqb k rk &&
                 existsb (asserts_queue d) pre
             | _ => false
             end) pre.

(** A queue configuration that carries a dead-letter reference. *)
Definition dead_letter_reference (q : QueueConfig) (dlx rk : string) : Prop :=
  exists args,
    arguments (q_options q) = Some args /\
    Publisher.lookup "x-dead-letter-exchange" args = Some dlx /\
    Publisher.lookup "x-dead-letter-routing-key" args = Some rk.

(** [quiet f m]: the run [m] only appends events, all of which satisfy [f]. *)
Definition quiet {A : Type} (f : Event -> bool) (m : M A) : Prop :=
  forall w, exists evs,
    trace (snd (m w)) = trace w ++ evs /\ forallb f evs = true.

(** The channel [ch] takes every command. *)
Definition accepting (env : Env) (ch : Channel) : Prop :=
  forall h c, channel_call env h ch c = None.

End Observe.

(** * Situations used to run the model *)

Module Scenario.
Import Amqp.
Local Open Scope string_scope.

(** A broker that is reachable and accepts every command. *)
Definition broker_up : Env :=
  {| amqp_connect := fun h _ => Ok (List.length h);
     createChannel := fun h _ => Ok (List.length h);
     channel_call := fun _ _ _ => None;
     publish_accepted := fun _ => true |}.

(** A broker that cannot be reached. *)
Definition broker_down : Env :=
  {| amqp_connect := fun _ _ => Throw "connect ECONNREFUSED";
     createChannel := fun _ _ => Throw "Connection closed";
     channel_call := fun _ _ _ => Some "Channel closed";
     publish_accepted := fun _ => false |}.


(** A broker that accepts connections and refuses a channel as long as
    fewer than [n] channels have been asked for. *)
Definition broker_refusing_channels (n : nat) : Env :=
  {| amqp_connect := fun h _ => Ok (List.length h);
     createChannel := fun h _ =>
       if Nat.ltb (List.length (filter (fun e => match e with
                                                   | EvCreateChannel _ => true
                                                   | _ => false
                                                   end) h)) n
       then Throw "Connection closed"
       else Ok (List.length h);
     channel_call := fun _ _ _ => None;
     publish_accepted := fun _ => true |}.

(** A broker whose write buffer is full. *)
Definition broker_buffer_full : Env :=
  {| amqp_connect := fun h _ => Ok (List.length h);
     createChannel := fun h _ => Ok (List.length h);
     channel_call := fun _ _ _ => None;
     publish_accepted := fun _ => false |}.

(** The state after [connect] and a first [getChannel]. *)
Definition connected : World :=
  {| state := {| connection := Some 0; channel := Some 1;
                 connectionUrl := Some "amqp://localhost";
                 isReconnecting := false; reconnectAttempts := 0 |};
     trace := [EvConnect (Some "amqp://localhost"); EvCreateChannel 0] |}.

Definition order : Json.json :=
  Json.JObj
    [(Json.str "orderId", Json.JStr (Json.str "ORD-001"));
     (Json.str "customerEmail", Json.JStr (Json.str "c@example.com"));
     (Json.str "items", Json.JArr [Json.JStr (Json.str "A"); Json.JStr (Json.str "B")]);
     (Json.str "total", Json.JNum (Json.mkNumber false [9; 9; 9; 9]%Z 2))].

Definition delivery (text : string) : Message :=
  {| content := Json.utf8_encode (Json.str text); deliveryTag := 1 |}.

Definition order_delivery : Message :=
  {| content := Json.utf8_encode (Json.stringify order); deliveryTag := 7 |}.

Definition handler_true : Consumer.Handler :=
  fun _ _ => Ok (Json.VJson (Json.JBool true)).


Definition handler_throws : Consumer.Handler :=
  fun _ _ => Throw "Simulated email service error".

(** A queue with dead-letter arguments that the DLQ table does not list. *)
Definition SMS_QUEUE : QueueConfig :=
  {| q_name := "sms.queue";
     q_options :=
       {| q_durable := true; q_autoDelete := false;
          arguments := Some [("x-dead-letter-exchange", "dlx.exchange");
                             ("x-dead-letter-routing-key", "sms.dlq")] |} |}.

(** The state in which a first [connect] leaves the process when the
    broker is down: the error has been thrown after ten failed
    reconnection attempts. *)
Definition after_failed_connect : World :=
  Eval vm_compute in
    match Connection.connect 10 broker_down "amqp://localhost" initial with
    | Some (_, w) => w
    | None => initial
    end.

End Scenario.

(** * Notions used to state the round trip *)

Module JsonNotions.
Import Json.
Local Open Scope Z_scope.

Definition no_digit_head (rest : jsstring) : bool :=
  match rest with
  | [] => true
  | c :: _ => negb (is_digit c)
  end.

(** What may follow a number in a text: nothing that continues it. *)
Definition ends_number (rest : jsstring) : bool :=
  match rest with
  | [] => true
  | c :: _ => negb (is_digit c) && negb (c =? 46) && negb (c =? 101) && negb (c =? 69)
  end.

Definition digits_of (text : jsstring) (n : Z) : Prop :=
  exists ds, text = digit_chars ds /\
             forallb digit_ok ds = true /\ ds <> [] /\
             value_of_digits ds = n.

Section JsonInduction.

Variable P : json -> Prop.
Hypothesis Hnull : P JNull.
Hypothesis Hbool : forall b, P (JBool b).
Hypothesis Hnum : forall n, P (JNum n).
Hypothesis Hstr : forall s, P (JStr s).
Hypothesis Harr : forall l, Forall P l -> P (JArr l).
Hypothesis Hobj : forall m, Forall (fun kv => P (snd kv)) m -> P (JObj m).

Fixpoint json_induction (v : json) : P v :=
  match v with
  | JNull => Hnull
  | JBool b => Hbool b
  | JNum n => Hnum n
  | JStr s => Hstr s
  | JArr l =>
      Harr l ((fix all (l : list json) : Forall P l :=
                 match l with
                 | [] => Forall_nil P
                 | x :: t => Forall_cons x (json_induction x) (all t)
                 end) l)
  | JObj m =>
      Hobj m ((fix all (m : list (jsstring * json))
                 : Forall (fun kv => P (snd kv)) m :=
                 match m with
                 | [] => Forall_nil _
                 | kv :: t => Forall_cons kv (json_induction (snd kv)) (all t)
                 end) m)
  end.

End JsonInduction.

Definition weights (l : list json) : nat :=
  fold_right (fun x n => S (weight x + n)) O l.

Definition member_weights (m : list (jsstring * json)) : nat :=
  fold_right (fun kv n => S (weight (snd kv) + n)) O m.

(** The first character of a value. *)
Definition starts_value (c : Z) : Prop :=
  c = 123 \/ c = 91 \/ c = 34 \/ c = 116 \/ c = 102 \/ c = 110 \/ c = 45 \/
  48 <= c <= 57.

Definition member_text (kv : jsstring * json) : jsstring :=
  QuoteJSONString (fst kv) ++ 58 :: stringify (snd kv).

(** [v] is read back from its text, with enough fuel and before any text
    that cannot continue a number. *)
Definition reads_back (v : json) : Prop :=
  forall fuel rest,
    (weight v <= fuel)%nat ->
    representable v = true ->
    ends_number rest = true ->
    parse_value fuel (stringify v ++ rest) = Some (v, rest).

(** A code unit that is a code point by itself. *)
Definition scalar (c : Z) : bool :=
  unit_ok c && negb (is_high_surrogate c || is_low_surrogate c).

End JsonNotions.

(** * Three sentences of the specification, as they are worded *)

Module Worded.
Import Amqp Observe.
Local Open Scope string_scope.

(** The claim of the specification on serialization failures, as worded:
    the error is raised before any broker interaction. *)
Definition no_interaction_before_serialization_error : Prop :=
  forall env ex q rk message e w,
    Publisher.serialize message = Throw e ->
    filter is_channel_call
      (events_since w (snd (Publisher.publishMessage env ex q rk message w))) = [].

(** The claim of the specification on dead-letter provisioning, as worded:
    for every queue configuration with a dead-letter reference, both
    provisioning passes assert the dead-letter exchange and a dead-letter
    queue bound with the declared routing key before the main queue. *)
Definition dead_letter_always_first : Prop :=
  forall env ex q rk dlx key w ch w1,
    dead_letter_reference q dlx key ->
    Connection.getChannel env w = (Ok ch, w1) ->
    accepting env ch ->
    (forall message,
       dead_letter_first q dlx key
         (events_since w1 (snd (Publisher.publishMessage env ex q rk message w)))
       = true) /\
    (forall onMessage,
       dead_letter_first q dlx key
         (events_since w1 (snd (Consumer.consumeMessages env ex q rk onMessage w)))
       = true).


End Worded.

(** * What the two services check of an order *)

Module Checks.
Import Json Values RegExp.
Local Open Scope string_scope.

Definition email_matches (v : jsvalue) : bool :=
  match test emailRegex v with
  | Ok true => true
  | _ => false
  end.

(** The checks of [sendOrderConfirmationEmail]: the four fields are
    truthy and [customerEmail] matches the pattern. *)
Definition validates (orderData : jsvalue) : bool :=
  ToBoolean (GetV orderData "orderId") &&
  ToBoolean (GetV orderData "customerEmail") &&
  ToBoolean (GetV orderData "items") &&
  ToBoolean (GetV orderData "total") &&
  email_matches (GetV orderData "customerEmail").

(** The checks of [createOrder]: those of the email service, and [items]
    is a non-empty array, [total] a Number above zero. *)
Definition acceptable (req_body : jsvalue) : bool :=
  validates req_body &&
  Array_isArray (GetV req_body "items") &&
  negb (length_is_zero (GetV req_body "items")) &&
  negb (not_a_number (GetV req_body "total")) &&
  negb (le_zero (GetV req_body "total")).

(** [message.eventType === 'order.created'] *)
Definition is_order_created (message : jsvalue) : bool :=
  strict_equal_string (GetV message "eventType") (str "order.created").

(** The answer of [createOrder] to an exception with the message [details]. *)
Definition server_error (details : string) : OrderController.Response :=
  {| OrderController.status := 500;
     OrderController.body :=
       JObj [(str "success", JBool false);
             (str "error", JStr (str "Failed to create order"));
             (str "details", JStr (str details))] |}.

(** The payload that [createOrder] publishes for the body [req_body] at
    the time [createdAt]. *)
Definition message_of (req_body : jsvalue) (createdAt : jsstring) : json :=
  OrderController.orderMessage (GetV req_body "orderId")
    (GetV req_body "customerEmail") (GetV req_body "items")
    (GetV req_body "total") createdAt.

(** [Math.random() < 0.05] *)
Definition simulated_failure (r : number) : bool :=
  Values.number_ltb r (mkNumber false [5%Z] (-1)).

End Checks.

(** * The commands of a call, as a list *)

Module Script.
Import Amqp Constants Observe.


(** The commands of steps 1 to 5 when every one of them returns. *)
Definition provisioning (ex : ExchangeConfig) (q : QueueConfig) (rk : string)
  : list Command :=
  assert_dlx ::
  match Publisher.findDLQForQueue (q_name q) with
  | Some dlq =>
      assert_queue dlq ::
      match Publisher.deadLetterRoutingKey q with
      | Ok key =>
          [bindQueue (q_name dlq) (ex_name DEAD_LETTER_EXCHANGE) key;
           assert_exchange ex; assert_queue q; bind_main q ex rk]
      | Throw _ => []
      end
  | None => [assert_exchange ex; assert_queue q; bind_main q ex rk]
  end.




(** An event that is a command on the channel [ch]. *)
Definition on_channel (ch : Channel) (e : Event) : bool :=
  match e with
  | EvChannel ch' _ => Nat.eqb ch' ch
  | _ => false
  end.

(** [steady f m]: the run [m] leaves the variables of the connection
    manager as they are and only appends events, all of which satisfy [f]. *)
Definition steady {A : Type} (f : Event -> bool) (m : M A) : Prop :=
  forall w, exists evs, snd (m w) = extend w evs /\ forallb f evs = true.

End Script.

(** * Further situations *)

Module Cases.
Import Amqp.
Local Open Scope string_scope.

(** Connected, after the channel has been closed by the broker. *)
Definition channel_lost : World := Shutdown.onChannelClose Scenario.connected.

(** Both [close()] calls return. *)
Definition closing_ok : Shutdown.CloseEnv :=
  {| Shutdown.channel_close := fun _ _ => None;
     Shutdown.connection_close := fun _ _ => None |}.

(** [channel.close()] throws. *)
Definition closing_fails : Shutdown.CloseEnv :=
  {| Shutdown.channel_close := fun _ _ => Some "Channel closed";
     Shutdown.connection_close := fun _ _ => None |}.

(** A queue called [email.queue] whose configuration has no [arguments]. *)
Definition EMAIL_QUEUE_plain : QueueConfig :=
  {| q_name := "email.queue";
     q_options := {| q_durable := true; q_autoDelete := false; arguments := None |} |}.

(** An email text that can always be built. *)
Definition plain_text : Json.jsvalue -> result Json.jsstring :=
  fun _ => Ok (Json.str "Thank you for your order!").

(** Random draws of 0.5 and of 0. *)
Definition draw_half : list Event -> Json.number :=
  fun _ => Json.mkNumber false [5%Z] 0.

Definition draw_zero : list Event -> Json.number := fun _ => Json.zero.

(** The body of a well-formed order request. *)
Definition order_request : Json.jsvalue := Json.VJson Scenario.order.

(** The time at which the order is taken. *)
Definition noon : list Event -> Json.jsstring :=
  fun _ => Json.str "2024-01-01T12:00:00.000Z".

(** A broker that refuses connections until the process has waited once. *)
Definition broker_late : Env :=
  {| amqp_connect := fun h _ =>
       if existsb (fun e => match e with EvDelay _ => true | _ => false end) h
       then Ok (List.length h)
       else Throw "connect ECONNREFUSED";
     createChannel := fun h _ => Ok (List.length h);
     channel_call := fun _ _ _ => None;
     publish_accepted := fun _ => true |}.

(** [app.listen] returns. *)
Definition port_free : list Event -> option string := fun _ => None.


(** The process after a first [connect] to a reachable broker. *)
Definition first_connected : World :=
  Eval vm_compute in
    match Connection.connect 0 Scenario.broker_up "amqp://localhost" initial with
    | Some (_, w) => w
    | None => initial
    end.

(** The process after a graceful shutdown. *)
Definition shut_down : World := fst (Shutdown.closeConnection closing_ok Scenario.connected).

End Cases.

(** * Traces only grow *)

Module TraceFacts.
Import Amqp Observe.

Lemma log_extend w e : log e w = extend w [e].
Proof. reflexivity. Qed.

Lemma extend_extend w a b : extend (extend w a) b = extend w (a ++ b).
Proof. unfold extend; simpl; now rewrite app_assoc. Qed.

Lemma extend_nil w : extend w [] = w.
Proof. destruct w; unfold extend; simpl; now rewrite app_nil_r. Qed.

Lemma events_since_app w w' evs :
  trace w' = trace w ++ evs -> events_since w w' = evs.
Proof.
  intros H. unfold events_since. rewrite H, skipn_app, skipn_all, Nat.sub_diag.
  reflexivity.
Qed.

Lemma try_catch_rethrow {A} (m : M A) w :
  try_catch m (fun error => throw error) w = m w.
Proof. unfold try_catch, throw. destruct (m w) as [[a|e] w']; reflexivity. Qed.

Lemma quiet_ret A f (a : A) : quiet f (ret a).
Proof. intros w. exists []. simpl. now rewrite app_nil_r. Qed.

Lemma quiet_throw A f e : quiet f (@throw A e).
Proof. intros w. exists []. simpl. now rewrite app_nil_r. Qed.

Lemma quiet_lift A f (r : result A) : quiet f (lift r).
Proof. intros w. exists []. simpl. now rewrite app_nil_r. Qed.

Lemma quiet_call f env ch c :
  f (EvChannel ch c) = true -> quiet f (call env ch c).
Proof.
  intros Hf w. exists [EvChannel ch c]. unfold call.
  destruct (channel_call env (trace w) ch c); simpl; now rewrite Hf.
Qed.

Lemma quiet_call_publish f env ch c :
  f (EvChannel ch c) = true -> quiet f (call_publish env ch c).
Proof.
  intros Hf w. exists [EvChannel ch c]. unfold call_publish.
  destruct (channel_call env (trace w) ch c); simpl; now rewrite Hf.
Qed.

Lemma quiet_bind A B f (m : M A) (k : A -> M B) :
  quiet f m -> (forall a, quiet f (k a)) -> quiet f (bind m k).
Proof.
  intros Hm Hk w. unfold bind. destruct (Hm w) as [e1 [H1 F1]].
  destruct (m w) as [[a|e] w1]; simpl in *.
  - destruct (Hk a w1) as [e2 [H2 F2]]. exists (e1 ++ e2).
    rewrite H2, H1, app_assoc, forallb_app, F1, F2. auto.
  - exists e1. auto.
Qed.

Lemma quiet_try_catch A f (m : M A) (h : string -> M A) :
  quiet f m -> (forall e, quiet f (h e)) -> quiet f (try_catch m h).
Proof.
  intros Hm Hh w. unfold try_catch. destruct (Hm w) as [e1 [H1 F1]].
  destruct (m w) as [[a|e] w1]; simpl in *.
  - exists e1. auto.
  - destruct (Hh e w1) as [e2 [H2 F2]]. exists (e1 ++ e2).
    rewrite H2, H1, app_assoc, forallb_app, F1, F2. auto.
Qed.

Lemma quiet_getChannel f env :
  (forall c, f (EvCreateChannel c) = true) -> quiet f (Connection.getChannel env).
Proof.
  intros Hf w. unfold Connection.getChannel.
  destruct (channel (state w)); [exists []; simpl; now rewrite app_nil_r|].
  destruct (connection (state w)) as [c|]; [|exists []; simpl; now rewrite app_nil_r].
  exists [EvCreateChannel c].
  destruct (createChannel env (trace w) c); simpl; now rewrite Hf.
Qed.

End TraceFacts.

(** * The consumer callback *)

Module ConsumerFacts.
Import Amqp Observe Consumer TraceFacts.
Local Open Scope string_scope.

Ltac run_callback :=
  unfold onDelivery, try_catch, bind, lift, invoke, call; simpl.

(** The callback, path by path, on a channel that takes the commands. *)
Lemma onDelivery_run env ch onMessage msg w :
  (forall h, channel_call env h ch (ack msg) = None) ->
  (forall h, channel_call env h ch (nack msg false false) = None) ->
  onDelivery env ch onMessage (Some msg) w =
  (Ok tt,
   extend w
     match deserializeMessage msg with
     | Throw _ => [EvChannel ch (nack msg false false)]
     | Ok payload =>
         EvHandler payload ::
         match onMessage (trace w) payload with
         | Throw _ => [EvChannel ch (nack msg false false)]
         | Ok success =>
             if Json.ToBoolean success
             then [EvChannel ch (ack msg)]
             else [EvChannel ch (nack msg false false)]
         end
     end).
Proof.
  intros Hack Hnack. run_callback.
  destruct (deserializeMessage msg) as [payload|e]; simpl.
  - destruct (onMessage (trace w) payload) as [success|e]; simpl.
    + destruct (Json.ToBoolean success); simpl.
      * rewrite Hack. now rewrite !log_extend, extend_extend.
      * rewrite Hnack. now rewrite !log_extend, extend_extend.
    + rewrite Hnack. now rewrite !log_extend, extend_extend.
  - rewrite Hnack. now rewrite log_extend.
Qed.




Lemma order_delivery_parses :
  deserializeMessage Scenario.order_delivery = Ok Scenario.order.
Proof. vm_compute. reflexivity. Qed.


(** Whatever the channel answers, no command of the callback asks for a
    requeue, and the handler runs at most once. *)
Lemma never_requeued env ch onMessage msg w :
  exists evs,
    snd (onDelivery env ch onMessage msg w) = extend w evs /\
    forallb (fun e => negb (is_requeue e)) evs = true /\
    (List.length (filter is_handler evs) <= 1)%nat.
Proof.
  destruct msg as [msg|]; [|exists []; simpl; rewrite extend_nil; auto].
  run_callback.
  destruct (deserializeMessage msg) as [payload|e]; simpl.
  - destruct (onMessage (trace w) payload) as [success|e]; simpl.
    + destruct (Json.ToBoolean success); simpl.
      * destruct (channel_call env _ ch (ack msg)); simpl.
        -- destruct (channel_call env _ ch (nack msg false false)); simpl;
             rewrite !log_extend, !extend_extend; eexists; split;
             try reflexivity; simpl; auto.
        -- rewrite !log_extend, !extend_extend; eexists; split;
             try reflexivity; simpl; auto.
      * destruct (channel_call env _ ch (nack msg false false)); simpl.
        -- destruct (channel_call env _ ch (nack msg false false)); simpl;
             rewrite !log_extend, !extend_extend; eexists; split;
             try reflexivity; simpl; auto.
        -- rewrite !log_extend, !extend_extend; eexists; split;
             try reflexivity; simpl; auto.
    + destruct (channel_call env _ ch (nack msg false false)); simpl;
        rewrite !log_extend, !extend_extend; eexists; split;
        try reflexivity; simpl; auto.
  - destruct (channel_call env _ ch (nack msg false false)); simpl;
      rewrite !log_extend; eexists; split; try reflexivity; simpl; auto.
Qed.

(** C3.  A delivery whose bytes are not valid JSON is rejected with
    [nack(msg, false, false)] and the handler is not called: the nack is
    the only event of the callback, whatever the channel answers.  The
    null delivery of a cancelled consumer leaves no event at all. *)
Theorem malformed_or_null_delivery env ch onMessage msg e w :
  Json.JSON_parse (Json.Buffer_toString (content msg)) = Throw e ->
  snd (onDelivery env ch onMessage (Some msg) w) =
    extend w [EvChannel ch (nack msg false false)] /\
  filter is_handler (events_since w (snd (onDelivery env ch onMessage (Some msg) w))) = [] /\
  onDelivery env ch onMessage None w = (Ok tt, w).
Proof.
  intros Hparse.
  assert (Hrun : snd (onDelivery env ch onMessage (Some msg) w) =
                 extend w [EvChannel ch (nack msg false false)]).
  { run_callback. unfold deserializeMessage. rewrite Hparse. simpl.
    destruct (channel_call env (trace w) ch (nack msg false false)); reflexivity. }
  split; [exact Hrun|split; [|reflexivity]].
  rewrite Hrun. unfold events_since, extend; simpl.
  rewrite skipn_app, skipn_all, Nat.sub_diag. reflexivity.
Qed.

Lemma malformed_or_null_delivery_witness :
  snd (onDelivery Scenario.broker_up 1 Scenario.handler_true
         (Some (Scenario.delivery "{orderId:")) Scenario.connected) =
    extend Scenario.connected
      [EvChannel 1 (nack (Scenario.delivery "{orderId:") false false)] /\
  filter is_handler
    (events_since Scenario.connected
       (snd (onDelivery Scenario.broker_up 1 Scenario.handler_true
               (Some (Scenario.delivery "{orderId:")) Scenario.connected))) = [] /\
  onDelivery Scenario.broker_up 1 Scenario.handler_true None Scenario.connected =
    (Ok tt, Scenario.connected).
Proof.
  apply (malformed_or_null_delivery Scenario.broker_up 1 Scenario.handler_true
           (Scenario.delivery "{orderId:")
           "Unexpected token in JSON" Scenario.connected).
  vm_compute. reflexivity.
Defined.

(** [channel.ack] is called inside the [try] block: on a channel where it
    throws (a closed channel), the [catch] clause sends a nack after it. *)
Lemma failed_ack_is_followed_by_nack env ch onMessage msg payload success w :
  deserializeMessage msg = Ok payload ->
  onMessage (trace w) payload = Ok success ->
  Json.ToBoolean success = true ->
  (forall h, channel_call env h ch (ack msg) = Some "Channel closed") ->
  snd (onDelivery env ch onMessage (Some msg) w) =
  extend w [EvHandler payload; EvChannel ch (ack msg);
            EvChannel ch (nack msg false false)].
Proof.
  intros Hparse Hh Hb Hack. run_callback.
  rewrite Hparse. simpl. rewrite Hh. simpl. rewrite Hb, Hack. simpl.
  destruct (channel_call env _ ch (nack msg false false)); simpl;
    now rewrite !log_extend, !extend_extend.
Qed.

End ConsumerFacts.

(** * Provisioning and publishing *)

Module PublisherFacts.
Import Amqp Observe Worded Constants TraceFacts.
Local Open Scope string_scope.
Local Open Scope list_scope.

Lemma consumer_provision_same :
  Consumer.provision = Publisher.provision.
Proof. reflexivity. Qed.

(** Steps 1 to 5 on a channel that takes every command. *)
Lemma provision_run env ch ex q rk w :
  accepting env ch ->
  Publisher.provision env ch ex q rk w =
  match Publisher.findDLQForQueue (q_name q) with
  | None =>
      (Ok tt, extend w [EvChannel ch assert_dlx; EvChannel ch (assert_exchange ex);
                        EvChannel ch (assert_queue q);
                        EvChannel ch (bind_main q ex rk)])
  | Some dlq =>
      match Publisher.deadLetterRoutingKey q with
      | Ok key =>
          (Ok tt, extend w [EvChannel ch assert_dlx; EvChannel ch (assert_queue dlq);
                            EvChannel ch (bindQueue (q_name dlq)
                                            (ex_name DEAD_LETTER_EXCHANGE) key);
                            EvChannel ch (assert_exchange ex);
                            EvChannel ch (assert_queue q);
                            EvChannel ch (bind_main q ex rk)])
      | Throw e =>
          (Throw e, extend w [EvChannel ch assert_dlx; EvChannel ch (assert_queue dlq)])
      end
  end.
Proof.
  intros H. unfold Publisher.provision, bind, call, lift.
  rewrite H.
  destruct (Publisher.findDLQForQueue (q_name q)) as [dlq|].
  - rewrite H. destruct (Publisher.deadLetterRoutingKey q) as [key|e].
    + rewrite !H. now rewrite !log_extend, !extend_extend.
    + now rewrite !log_extend, !extend_extend.
  - unfold ret. rewrite !H. now rewrite !log_extend, !extend_extend.
Qed.

Lemma provision_first_event env ch ex q rk w :
  exists rest,
    trace (snd (Publisher.provision env ch ex q rk w)) =
    trace w ++ EvChannel ch assert_dlx :: rest.
Proof.
  unfold Publisher.provision.
  set (k := fun _ : unit => _).
  unfold bind at 1. unfold call at 1.
  assert (Hk : forall w0, exists evs, trace (snd (k tt w0)) = trace w0 ++ evs).
  { intros w0.
    assert (Q : quiet (fun _ => true) (k tt)).
    { unfold k. repeat (apply quiet_bind; intros).
      - destruct (Publisher.findDLQForQueue (q_name q)).
        + repeat (apply quiet_bind; intros); try apply quiet_call; auto.
          apply quiet_lift.
        + apply quiet_ret.
      - apply quiet_call; auto.
      - apply quiet_call; auto.
      - apply quiet_call; auto. }
    destruct (Q w0) as [evs [H _]]. eauto. }
  destruct (channel_call env (trace w) ch _); simpl.
  - exists []. reflexivity.
  - destruct (Hk (log (EvChannel ch assert_dlx) w)) as [evs H].
    exists evs.
    transitivity (trace (log (EvChannel ch assert_dlx) w) ++ evs); [exact H|].
    simpl. now rewrite <- app_assoc.
Qed.

Lemma provision_no_publish env ch ex q rk :
  quiet (fun e => negb (is_publish e)) (Publisher.provision env ch ex q rk).
Proof.
  unfold Publisher.provision.
  repeat (apply quiet_bind; intros); try (apply quiet_call; reflexivity).
  destruct (Publisher.findDLQForQueue (q_name q)).
  - repeat (apply quiet_bind; intros); try (apply quiet_call; reflexivity).
    apply quiet_lift.
  - apply quiet_ret.
Qed.

Lemma forallb_negb_filter {A : Type} (f : A -> bool) l :
  forallb (fun x => negb (f x)) l = true -> filter f l = [].
Proof.
  induction l as [|x l IH]; simpl; auto.
  destruct (f x); simpl; intros H; [discriminate|auto].
Qed.

(** The unfolding of [publishMessage] once a channel has been obtained. *)
Lemma publishMessage_run env ex q rk message w ch w1 :
  Connection.getChannel env w = (Ok ch, w1) ->
  Publisher.publishMessage env ex q rk message w =
  match Publisher.provision env ch ex q rk w1 with
  | (Throw e, w2) => (Throw e, w2)
  | (Ok _, w2) =>
      match Publisher.serialize message with
      | Throw e => (Throw e, w2)
      | Ok buf =>
          match channel_call env (trace w2) ch
                  (publish (ex_name ex) rk buf MESSAGE_OPTIONS) with
          | Some e =>
              (Throw e, log (EvChannel ch (publish (ex_name ex) rk buf MESSAGE_OPTIONS)) w2)
          | None =>
              (Ok (publish_accepted env (trace w2)),
               log (EvChannel ch (publish (ex_name ex) rk buf MESSAGE_OPTIONS)) w2)
          end
      end
  end.
Proof.
  intros Hget. unfold Publisher.publishMessage.
  rewrite try_catch_rethrow. unfold bind at 1. rewrite Hget.
  unfold bind at 1.
  destruct (Publisher.provision env ch ex q rk w1) as [[[]|e] w2]; [|reflexivity].
  unfold bind at 1, lift.
  destruct (Publisher.serialize message) as [buf|e]; [|reflexivity].
  unfold bind, call_publish.
  destruct (channel_call env (trace w2) ch _); [reflexivity|].
  destruct (publish_accepted env (trace w2)); reflexivity.
Qed.

(** C4, as stated, fails: [undefined] cannot be serialized, and the six
    provisioning commands have gone to the broker when the error is raised. *)
Lemma serialization_error_counterexample :
  ~ no_interaction_before_serialization_error.
Proof.
  intros H.
  specialize (H Scenario.broker_up ORDER_EXCHANGE EMAIL_QUEUE ORDER_CREATED
                Json.VUndefined _ Scenario.connected eq_refl).
  vm_compute in H. discriminate H.
Qed.

(** C4, amended.  When the message cannot be serialized, [publishMessage]
    throws and no publish command is issued; serialization is step 6, so
    when provisioning (steps 1 to 5) has gone through, its commands,
    starting with the assertion of the dead-letter exchange, have been
    issued and the error thrown is the serialization error. *)
Theorem serialization_failure_aborts_publish env ex q rk message e w :
  Publisher.serialize message = Throw e ->
  (exists e', fst (Publisher.publishMessage env ex q rk message w) = Throw e') /\
  filter is_publish
    (events_since w (snd (Publisher.publishMessage env ex q rk message w))) = [] /\
  (forall ch w1 w2,
     Connection.getChannel env w = (Ok ch, w1) ->
     Publisher.provision env ch ex q rk w1 = (Ok tt, w2) ->
     Publisher.publishMessage env ex q rk message w = (Throw e, w2) /\
     exists rest, trace w2 = trace w1 ++ EvChannel ch assert_dlx :: rest).
Proof.
  intros Hser.
  assert (Hq : quiet (fun e => negb (is_publish e))
                 (Publisher.publishMessage env ex q rk message)).
  { unfold Publisher.publishMessage. apply quiet_try_catch; [|intros; apply quiet_throw].
    apply quiet_bind; [apply quiet_getChannel; reflexivity|intros ch].
    apply quiet_bind; [apply provision_no_publish|intros _].
    rewrite Hser. intros w0. exists []. unfold bind, lift. simpl.
    now rewrite app_nil_r. }
  split; [|split].
  - unfold Publisher.publishMessage. rewrite try_catch_rethrow. unfold bind at 1.
    destruct (Connection.getChannel env w) as [[ch|e0] w1]; [|simpl; eauto].
    unfold bind at 1.
    destruct (Publisher.provision env ch ex q rk w1) as [[[]|e0] w2]; [|simpl; eauto].
    unfold bind, lift. rewrite Hser. simpl; eauto.
  - destruct (Hq w) as [evs [Ht Hf]].
    rewrite (events_since_app _ _ _ Ht). now apply forallb_negb_filter.
  - intros ch w1 w2 Hget Hprov. split.
    + rewrite (publishMessage_run env ex q rk message w ch w1 Hget), Hprov, Hser.
      reflexivity.
    + destruct (provision_first_event env ch ex q rk w1) as [rest Hr].
      rewrite Hprov in Hr. simpl in Hr. eauto.
Qed.

Lemma serialization_failure_aborts_publish_witness :
  (exists e', fst (Publisher.publishMessage Scenario.broker_up ORDER_EXCHANGE
                     EMAIL_QUEUE ORDER_CREATED (Json.VBigInt 1) Scenario.connected)
              = Throw e') /\
  filter is_publish
    (events_since Scenario.connected
       (snd (Publisher.publishMessage Scenario.broker_up ORDER_EXCHANGE
               EMAIL_QUEUE ORDER_CREATED (Json.VBigInt 1) Scenario.connected))) = [].
Proof.
  pose proof (serialization_failure_aborts_publish Scenario.broker_up
                ORDER_EXCHANGE EMAIL_QUEUE ORDER_CREATED (Json.VBigInt 1)
                "Failed to serialize message: Do not know how to serialize a BigInt"
                Scenario.connected eq_refl) as H.
  exact (conj (proj1 H) (proj1 (proj2 H))).
Defined.

(** The unfolding of [consumeMessages] on a channel that takes every command. *)
Lemma consumeMessages_run env ex q rk onMessage w ch w1 :
  Connection.getChannel env w = (Ok ch, w1) ->
  accepting env ch ->
  Consumer.consumeMessages env ex q rk onMessage w =
  match Publisher.provision env ch ex q rk w1 with
  | (Throw e, w2) => (Throw e, w2)
  | (Ok _, w2) =>
      (Ok tt, extend w2 [EvChannel ch (prefetch prefetchCount);
                         EvChannel ch (consume (q_name q) {| opt_noAck := noAck |})])
  end.
Proof.
  intros Hget H. unfold Consumer.consumeMessages.
  rewrite try_catch_rethrow. unfold bind at 1. rewrite Hget.
  unfold bind at 1. rewrite consumer_provision_same.
  destruct (Publisher.provision env ch ex q rk w1) as [[[]|e] w2]; [|reflexivity].
  unfold bind, call. rewrite !H. now rewrite !log_extend, !extend_extend.
Qed.

(** C5, as stated, fails: a queue that carries dead-letter arguments but is
    not listed in the queue-to-DLQ table gets no dead-letter queue. *)
Lemma dead_letter_counterexample : ~ dead_letter_always_first.
Proof.
  intros H.
  destruct (H Scenario.broker_up ORDER_EXCHANGE Scenario.SMS_QUEUE ORDER_CREATED
              "dlx.exchange" "sms.dlq" Scenario.connected 1%nat Scenario.connected)
    as [Hp _].
  - eexists. repeat split.
  - reflexivity.
  - intros h c. reflexivity.
  - specialize (Hp (Json.VJson Scenario.order)). vm_compute in Hp. discriminate Hp.
Qed.

(** C5, amended.  For a queue configuration named [email.queue], the one
    entry of the queue-to-DLQ table, that carries [arguments], both
    provisioning passes assert [dlx.exchange], then [email.dlq], then bind
    [email.dlq] to [dlx.exchange] with the routing key declared under
    [x-dead-letter-routing-key], and only then assert the main exchange,
    the main queue and its binding. *)
Theorem dead_letter_first_for_email_queue env ex q rk args w ch w1 :
  Connection.getChannel env w = (Ok ch, w1) ->
  accepting env ch ->
  q_name q = q_name EMAIL_QUEUE ->
  arguments (q_options q) = Some args ->
  let provisioning :=
    [EvChannel ch assert_dlx;
     EvChannel ch (assert_queue EMAIL_DLQ);
     EvChannel ch (bindQueue (q_name EMAIL_DLQ) (ex_name DEAD_LETTER_EXCHANGE)
                     (Publisher.lookup "x-dead-letter-routing-key" args));
     EvChannel ch (assert_exchange ex);
     EvChannel ch (assert_queue q);
     EvChannel ch (bind_main q ex rk)] in
  (forall message, exists rest,
     snd (Publisher.publishMessage env ex q rk message w) =
     extend w1 (provisioning ++ rest) /\
     forallb is_publish rest = true) /\
  (forall onMessage,
     Consumer.consumeMessages env ex q rk onMessage w =
     (Ok tt, extend w1 (provisioning ++
                        [EvChannel ch (prefetch prefetchCount);
                         EvChannel ch (consume (q_name q) {| opt_noAck := noAck |})]))).
Proof.
  intros Hget H Hname Hargs provisioning.
  assert (Hprov : Publisher.provision env ch ex q rk w1 =
                  (Ok tt, extend w1 provisioning)).
  { rewrite (provision_run env ch ex q rk w1 H).
    unfold Publisher.findDLQForQueue, Publisher.deadLetterRoutingKey.
    rewrite Hname, Hargs. reflexivity. }
  split.
  - intros message.
    rewrite (publishMessage_run env ex q rk message w ch w1 Hget), Hprov.
    destruct (Publisher.serialize message) as [buf|e].
    + rewrite H. eexists. rewrite log_extend, extend_extend. split; reflexivity.
    + exists []. rewrite app_nil_r. split; reflexivity.
  - intros onMessage.
    rewrite (consumeMessages_run env ex q rk onMessage w ch w1 Hget H), Hprov.
    now rewrite extend_extend.
Qed.

Lemma dead_letter_first_for_email_queue_witness :
  Consumer.consumeMessages Scenario.broker_up ORDER_EXCHANGE EMAIL_QUEUE
    ORDER_CREATED Scenario.handler_true Scenario.connected =
  (Ok tt,
   extend Scenario.connected
     [EvChannel 1 assert_dlx;
      EvChannel 1 (assert_queue EMAIL_DLQ);
      EvChannel 1 (bindQueue "email.dlq" "dlx.exchange" (Some "email.dlq"));
      EvChannel 1 (assert_exchange ORDER_EXCHANGE);
      EvChannel 1 (assert_queue EMAIL_QUEUE);
      EvChannel 1 (bind_main EMAIL_QUEUE ORDER_EXCHANGE ORDER_CREATED);
      EvChannel 1 (prefetch 1);
      EvChannel 1 (consume "email.queue" {| opt_noAck := false |})]).
Proof.
  refine (proj2 (dead_letter_first_for_email_queue Scenario.broker_up
            ORDER_EXCHANGE EMAIL_QUEUE ORDER_CREATED
            [("x-dead-letter-exchange", "dlx.exchange");
             ("x-dead-letter-routing-key", "email.dlq")]
            Scenario.connected 1%nat Scenario.connected _ _ _ _)
            Scenario.handler_true);
    try reflexivity.
  intros h c; reflexivity.
Defined.



(** C9.  When a channel is obtained, provisioning goes through, the
    message serializes and [channel.publish] returns, [publishMessage]
    returns the value [channel.publish] returned: [true] when the message
    went into the write buffer, [false] when the buffer was full.
    Conversely [false] is returned in that case only: every other failure
    leaves [publishMessage] by an exception. *)
Theorem publish_returns_buffer_signal env ex q rk message w :
  (forall ch w1 w2 buf,
     Connection.getChannel env w = (Ok ch, w1) ->
     Publisher.provision env ch ex q rk w1 = (Ok tt, w2) ->
     Publisher.serialize message = Ok buf ->
     channel_call env (trace w2) ch (publish (ex_name ex) rk buf MESSAGE_OPTIONS)
       = None ->
     Publisher.publishMessage env ex q rk message w =
     (Ok (publish_accepted env (trace w2)),
      extend w2 [EvChannel ch (publish (ex_name ex) rk buf MESSAGE_OPTIONS)])) /\
  (fst (Publisher.publishMessage env ex q rk message w) = Ok false ->
   exists ch w1 w2 buf,
     Connection.getChannel env w = (Ok ch, w1) /\
     Publisher.provision env ch ex q rk w1 = (Ok tt, w2) /\
     Publisher.serialize message = Ok buf /\
     channel_call env (trace w2) ch (publish (ex_name ex) rk buf MESSAGE_OPTIONS)
       = None /\
     publish_accepted env (trace w2) = false).
Proof.
  split.
  - intros ch w1 w2 buf Hget Hprov Hser Hcall.
    rewrite (publishMessage_run env ex q rk message w ch w1 Hget), Hprov, Hser, Hcall.
    now rewrite log_extend.
  - destruct (Connection.getChannel env w) as [[ch|e] w1] eqn:Hget.
    + rewrite (publishMessage_run env ex q rk message w ch w1 Hget).
      destruct (Publisher.provision env ch ex q rk w1) as [[[]|e] w2] eqn:Hprov;
        [|discriminate].
      destruct (Publisher.serialize message) as [buf|e] eqn:Hser; [|discriminate].
      destruct (channel_call env (trace w2) ch _) eqn:Hcall; [discriminate|].
      simpl. intros Hres. exists ch, w1, w2, buf.
      repeat split; auto. congruence.
    + unfold Publisher.publishMessage. rewrite try_catch_rethrow.
      unfold bind. rewrite Hget. discriminate.
Qed.

Lemma publish_returns_buffer_signal_witness :
  exists w',
    Publisher.publishMessage Scenario.broker_buffer_full ORDER_EXCHANGE EMAIL_QUEUE
      ORDER_CREATED (Json.VJson Scenario.order) Scenario.connected =
    (Ok false, w').
Proof.
  eexists.
  refine (proj1 (publish_returns_buffer_signal Scenario.broker_buffer_full
            ORDER_EXCHANGE EMAIL_QUEUE ORDER_CREATED (Json.VJson Scenario.order)
            Scenario.connected) 1%nat Scenario.connected _ _ _ _ _ _);
    vm_compute; reflexivity.
Defined.

End PublisherFacts.

(** * Connecting and reconnecting *)

Module ConnectionFacts.
Import Amqp Observe Worded Connection TraceFacts.
Local Open Scope string_scope.
Local Open Scope list_scope.

Lemma connect_attempts_app a b :
  connect_attempts (a ++ b) = (connect_attempts a + connect_attempts b)%nat.
Proof. unfold connect_attempts. now rewrite filter_app, length_app. Qed.

(** Giving up is terminal: once the counter has reached the maximum the
    procedure only clears its flag, with any fuel and any broker. *)
Lemma reconnect_exhausted fuel env w :
  (MAX_RECONNECT_ATTEMPTS <= reconnectAttempts (state w))%nat ->
  reconnectLoop fuel env w = Some (update (set_isReconnecting false) w).
Proof.
  intros H. destruct fuel; simpl;
    destruct (Nat.ltb_spec (reconnectAttempts (state w)) MAX_RECONNECT_ATTEMPTS);
    try reflexivity; lia.
Qed.

(** One iteration of the loop. *)
Lemma reconnectLoop_step f env w :
  (reconnectAttempts (state w) < MAX_RECONNECT_ATTEMPTS)%nat ->
  reconnectLoop (S f) env w =
  let w1 := update (set_reconnectAttempts (S (reconnectAttempts (state w)))) w in
  let w2 := log (EvDelay RECONNECT_DELAY_MS) w1 in
  let w3 := log (EvConnect (connectionUrl (state w2))) w2 in
  match amqp_connect env (trace w2) (connectionUrl (state w2)) with
  | Ok c =>
      let w7 := update (set_channel None)
                  (update (set_isReconnecting false)
                     (update (set_reconnectAttempts 0)
                        (update (set_connection (Some c)) w3))) in
      match getChannel env w7 with
      | (Ok _, w8) => Some w8
      | (Throw _, w8) => reconnectLoop f env w8
      end
  | Throw _ => reconnectLoop f env w3
  end.
Proof.
  intros H. simpl.
  destruct (Nat.ltb_spec (reconnectAttempts (state w)) MAX_RECONNECT_ATTEMPTS);
    [reflexivity|lia].
Qed.


(** With a broker that cannot be reached the loop makes exactly the
    remaining attempts and gives up with the counter at the maximum. *)
Lemma reconnectLoop_gives_up env :
  (forall h u, exists e, amqp_connect env h u = Throw e) ->
  forall fuel w,
    (MAX_RECONNECT_ATTEMPTS <= fuel + reconnectAttempts (state w))%nat ->
    (reconnectAttempts (state w) <= MAX_RECONNECT_ATTEMPTS)%nat ->
    exists w' evs,
      reconnectLoop fuel env w = Some w' /\
      trace w' = trace w ++ evs /\
      (connect_attempts evs + reconnectAttempts (state w))%nat =
        MAX_RECONNECT_ATTEMPTS /\
      delayed_connects RECONNECT_DELAY_MS evs = true /\
      isReconnecting (state w') = false /\
      reconnectAttempts (state w') = MAX_RECONNECT_ATTEMPTS /\
      connection (state w') = connection (state w).
Proof.
  intros Hdown. induction fuel as [|f IH]; intros w Hfuel Hle.
  - exists (update (set_isReconnecting false) w), [].
    rewrite reconnect_exhausted by lia. simpl. rewrite app_nil_r.
    repeat split; auto; unfold connect_attempts; simpl; lia.
  - destruct (Nat.lt_ge_cases (reconnectAttempts (state w)) MAX_RECONNECT_ATTEMPTS)
      as [Hlt|Hge].
    + rewrite reconnectLoop_step by assumption. cbv zeta.
      destruct (Hdown (trace (log (EvDelay RECONNECT_DELAY_MS)
                         (update (set_reconnectAttempts
                                    (S (reconnectAttempts (state w)))) w)))
                  (connectionUrl (state w))) as [e He].
      simpl in He. simpl. rewrite He.
      destruct (IH (log (EvConnect (connectionUrl (state w)))
                      (log (EvDelay RECONNECT_DELAY_MS)
                         (update (set_reconnectAttempts
                                    (S (reconnectAttempts (state w)))) w))))
        as [w' [evs [Hrun [Htr [Hcnt [Hdel [Hflag [Hend Hconn]]]]]]]].
      { simpl. lia. }
      { simpl. lia. }
      exists w', ([EvDelay RECONNECT_DELAY_MS;
                   EvConnect (connectionUrl (state w))] ++ evs).
      split; [exact Hrun|].
      split; [rewrite Htr; simpl; now rewrite <- !app_assoc|].
      split.
      { rewrite connect_attempts_app.
        change (connect_attempts [EvDelay RECONNECT_DELAY_MS; EvConnect (connectionUrl (state w))]) with 1%nat.
        simpl in Hcnt. lia. }
      split; [simpl; exact Hdel|]. auto.
    + exists (update (set_isReconnecting false) w), [].
      rewrite reconnect_exhausted by lia. simpl. rewrite app_nil_r.
      repeat split; auto; unfold connect_attempts; simpl; lia.
Qed.

(** After giving up, a further run of the procedure makes no attempt. *)
Lemma handleReconnection_after_giving_up fuel env w :
  isReconnecting (state w) = false ->
  (MAX_RECONNECT_ATTEMPTS <= reconnectAttempts (state w))%nat ->
  handleReconnection fuel env w = Some w.
Proof.
  intros Hflag Hmax. unfold handleReconnection. rewrite Hflag.
  rewrite reconnect_exhausted by exact Hmax.
  destruct w as [[c ch u r n] t]. simpl in *. subst r. reflexivity.
Qed.

(** When [amqp.connect] succeeds and the channel cannot be created, the
    counter has been reset before [getChannel] throws, so the loop starts
    again from zero: it never ends while the broker keeps refusing
    channels. *)
Lemma reconnectLoop_never_ends env :
  (forall h u, exists c, amqp_connect env h u = Ok c) ->
  (forall h c, exists e, createChannel env h c = Throw e) ->
  forall fuel w,
    (reconnectAttempts (state w) < MAX_RECONNECT_ATTEMPTS)%nat ->
    reconnectLoop fuel env w = None.
Proof.
  intros Hup Hno. induction fuel as [|f IH]; intros w Hlt.
  - simpl.
    destruct (Nat.ltb_spec (reconnectAttempts (state w)) MAX_RECONNECT_ATTEMPTS);
      [reflexivity|lia].
  - rewrite reconnectLoop_step by assumption. cbv zeta.
    destruct (Hup (trace (log (EvDelay RECONNECT_DELAY_MS)
                     (update (set_reconnectAttempts
                                (S (reconnectAttempts (state w)))) w)))
                (connectionUrl (state w))) as [c Hc].
    simpl in Hc. simpl. rewrite Hc.
    unfold getChannel. simpl.
    destruct (Hno ((trace w ++ [EvDelay RECONNECT_DELAY_MS]) ++
                   [EvConnect (connectionUrl (state w))]) c) as [e He].
    rewrite He. apply IH. simpl. unfold MAX_RECONNECT_ATTEMPTS. lia.
Qed.

(** C6, on the failing input.  The connection is lost (the close observer
    runs) and the broker then accepts every connection but refuses the
    next eleven channels: one run of the reconnection procedure calls
    [amqp.connect] twelve times, more than [MAX_RECONNECT_ATTEMPTS], each
    time after the fixed wait. *)
Theorem reconnection_exceeds_max_attempts :
  exists w',
    onConnectionClose 12 (Scenario.broker_refusing_channels 12) Scenario.connected
      = Some w' /\
    connect_attempts (events_since Scenario.connected w') = 12%nat /\
    (MAX_RECONNECT_ATTEMPTS < connect_attempts (events_since Scenario.connected w'))%nat /\
    delayed_connects RECONNECT_DELAY_MS (events_since Scenario.connected w') = true.
Proof.
  eexists. split; [vm_compute; reflexivity|].
  split; [vm_compute; reflexivity|].
  split; [vm_compute; lia|vm_compute; reflexivity].
Qed.




End ConnectionFacts.

(** * Serialization round trip *)

Module JsonFacts.
Import Json JsonNotions.
Local Open Scope Z_scope.

(** Boolean tests on code units, decided by linear arithmetic. *)
Ltac bsolve :=
  repeat match goal with
    | |- true = _ => symmetry
    | |- false = _ => symmetry
    | |- _ && _ = true => apply andb_true_intro; split
    | |- _ || _ = false => apply orb_false_intro
    | |- _ && _ = false =>
        first [ apply andb_false_intro1; solve [bsolve]
              | apply andb_false_intro2; solve [bsolve] ]
    | |- _ || _ = true =>
        first [ apply orb_true_intro; left; solve [bsolve]
              | apply orb_true_intro; right; solve [bsolve] ]
    | |- negb _ = true => apply negb_true_iff
    | |- negb _ = false => apply negb_false_iff
    | |- (_ <=? _) = true => apply Z.leb_le; lia
    | |- (_ <=? _) = false => apply Z.leb_gt; lia
    | |- (_ <? _) = true => apply Z.ltb_lt; lia
    | |- (_ <? _) = false => apply Z.ltb_ge; lia
    | |- (_ =? _) = true => apply Z.eqb_eq; lia
    | |- (_ =? _) = false => apply Z.eqb_neq; lia
    end.

Ltac btrue b := replace b with true by bsolve.
Ltac bfalse b := replace b with false by bsolve.

(** ** String literals *)

Lemma unit_ok_range c : unit_ok c = true -> 0 <= c <= 65535.
Proof. unfold unit_ok. intros H. apply andb_prop in H. destruct H. lia. Qed.

Lemma hexval_hexdigit d : 0 <= d < 16 -> hexval (hexdigit d) = Some d.
Proof.
  intros H. unfold hexdigit, hexval.
  destruct (Z.ltb_spec d 10).
  - btrue ((48 <=? 48 + d) && (48 + d <=? 57)). f_equal. lia.
  - bfalse ((48 <=? 87 + d) && (87 + d <=? 57)).
    btrue ((97 <=? 87 + d) && (87 + d <=? 102)). f_equal. lia.
Qed.

Lemma hex4_escape c r :
  0 <= c <= 65535 ->
  parse_chars (unicode_escape c ++ r) = consto c (parse_chars r).
Proof.
  intros H. unfold unicode_escape.
  cbn [app parse_chars].
  change (92 =? 34) with false. change (92 =? 92) with true.
  change (117 =? 117) with true. cbv iota.
  unfold hex4.
  rewrite !hexval_hexdigit by (apply Z.mod_pos_bound; lia).
  replace (c / 4096 mod 16 * 4096 + c / 256 mod 16 * 256 + c / 16 mod 16 * 16 + c mod 16)
    with c; [reflexivity|].
  Z.div_mod_to_equations; lia.
Qed.

Lemma parse_chars_raw c r :
  32 <= c -> c <> 34 -> c <> 92 ->
  parse_chars (c :: r) = consto c (parse_chars r).
Proof.
  intros H1 H2 H3. cbn [parse_chars].
  bfalse (c =? 34). bfalse (c =? 92). bfalse (c <? 32). reflexivity.
Qed.

Lemma parse_chars_unit c r :
  0 <= c <= 65535 ->
  parse_chars (quote_unit c ++ r) = consto c (parse_chars r).
Proof.
  intros H. unfold quote_unit.
  destruct (Z.eqb_spec c 8); [subst; reflexivity|].
  destruct (Z.eqb_spec c 9); [subst; reflexivity|].
  destruct (Z.eqb_spec c 10); [subst; reflexivity|].
  destruct (Z.eqb_spec c 12); [subst; reflexivity|].
  destruct (Z.eqb_spec c 13); [subst; reflexivity|].
  destruct (Z.eqb_spec c 34); [subst; reflexivity|].
  destruct (Z.eqb_spec c 92); [subst; reflexivity|].
  destruct (Z.ltb_spec c 32); [now apply hex4_escape|].
  destruct (is_high_surrogate c || is_low_surrogate c); [now apply hex4_escape|].
  now apply parse_chars_raw.
Qed.

Lemma quote_units_step c t :
  quote_units (c :: t) =
  match t with
  | d :: t' =>
      if is_high_surrogate c && is_low_surrogate d
      then c :: d :: quote_units t'
      else quote_unit c ++ quote_units t
  | [] => quote_unit c
  end.
Proof. destruct t; cbn [quote_units]; [now rewrite app_nil_r|reflexivity]. Qed.

Lemma high_surrogate_range c : is_high_surrogate c = true -> 55296 <= c <= 56319.
Proof. unfold is_high_surrogate. intros H. apply andb_prop in H. destruct H. lia. Qed.

Lemma low_surrogate_range c : is_low_surrogate c = true -> 56320 <= c <= 57343.
Proof. unfold is_low_surrogate. intros H. apply andb_prop in H. destruct H. lia. Qed.

(** Reading back the characters that [QuoteJSONString] wrote. *)
Lemma parse_chars_quote_units n :
  forall s rest,
    (List.length s <= n)%nat ->
    forallb unit_ok s = true ->
    parse_chars (quote_units s ++ 34 :: rest) = Some (s, rest).
Proof.
  induction n as [|n IH]; intros s rest Hlen Hok.
  - destruct s; [reflexivity|simpl in Hlen; lia].
  - destruct s as [|c t]; [reflexivity|].
    simpl in Hok. apply andb_prop in Hok. destruct Hok as [Hc Ht].
    apply unit_ok_range in Hc.
    rewrite quote_units_step. destruct t as [|d t'].
    + rewrite parse_chars_unit by assumption. reflexivity.
    + destruct (is_high_surrogate c && is_low_surrogate d) eqn:Hpair.
      * apply andb_prop in Hpair. destruct Hpair as [Hh Hl].
        apply high_surrogate_range in Hh. apply low_surrogate_range in Hl.
        simpl in Ht. apply andb_prop in Ht. destruct Ht as [_ Ht'].
        cbn [app]. rewrite parse_chars_raw by lia.
        rewrite parse_chars_raw by lia.
        rewrite IH; [reflexivity| simpl in *; lia | assumption].
      * rewrite <- app_assoc, parse_chars_unit by assumption.
        rewrite IH; [reflexivity| simpl in *; lia | assumption].
Qed.

(** ** Numbers *)

Lemma digit_ok_range d : digit_ok d = true -> 0 <= d <= 9.
Proof. unfold digit_ok. intros H. apply andb_prop in H. destruct H. lia. Qed.

Lemma ends_number_no_digit rest : ends_number rest = true -> no_digit_head rest = true.
Proof.
  destruct rest as [|c r]; simpl; auto. intros H.
  apply andb_prop in H; destruct H as [H _].
  apply andb_prop in H; destruct H as [H _].
  apply andb_prop in H; destruct H as [H _]. assumption.
Qed.

Lemma digit_chars_app a b : digit_chars (a ++ b) = digit_chars a ++ digit_chars b.
Proof. apply map_app. Qed.

Lemma digit_chars_zeros n : digit_chars (repeat 0 n) = repeat 48 n.
Proof. induction n; simpl; congruence. Qed.

Lemma span_digits_stop rest :
  no_digit_head rest = true -> span_digits rest = ([], rest).
Proof.
  destruct rest as [|c r]; simpl; auto. intros H.
  apply negb_true_iff in H. now rewrite H.
Qed.

Lemma span_digits_chars ds rest :
  forallb digit_ok ds = true ->
  no_digit_head rest = true ->
  span_digits (digit_chars ds ++ rest) = (ds, rest).
Proof.
  intros Hds Hrest. induction ds as [|d ds IH].
  - now apply span_digits_stop.
  - simpl in Hds. apply andb_prop in Hds. destruct Hds as [Hd Hds].
    apply digit_ok_range in Hd.
    cbn [digit_chars map app span_digits].
    unfold is_digit. btrue ((48 <=? 48 + d) && (48 + d <=? 57)).
    fold (digit_chars ds). rewrite (IH Hds). f_equal. f_equal. lia.
Qed.

Lemma forallb_digit_zeros n : forallb digit_ok (repeat 0 n) = true.
Proof. induction n; simpl; auto. Qed.

Lemma strip_leading_zeros m l p :
  strip_leading (repeat 0 m ++ l) p = strip_leading l (p - Z.of_nat m).
Proof.
  revert p. induction m as [|m IH]; intros p.
  - simpl. f_equal. lia.
  - cbn [repeat app strip_leading]. change (0 =? 0) with true. cbv iota.
    rewrite IH. f_equal. lia.
Qed.

Lemma strip_leading_nonzero d ds p :
  d <> 0 -> strip_leading (d :: ds) p = (d :: ds, p).
Proof. intros H. cbn [strip_leading]. bfalse (d =? 0). reflexivity. Qed.

Lemma drop_zeros_zeros m l : drop_zeros (repeat 0 m ++ l) = drop_zeros l.
Proof. induction m; simpl; auto. Qed.

Lemma rev_zeros m : rev (repeat 0 m) = repeat 0 m.
Proof.
  induction m as [|m IH]; [reflexivity|].
  simpl. rewrite IH. clear IH. induction m; simpl; congruence.
Qed.

Lemma strip_trailing_zeros ds m :
  ds <> [] -> last ds 0 <> 0 ->
  strip_trailing (ds ++ repeat 0 m) = ds.
Proof.
  intros Hne Hlast. unfold strip_trailing.
  rewrite rev_app_distr, rev_zeros, drop_zeros_zeros.
  destruct (exists_last Hne) as [l [a E]]. subst ds.
  rewrite last_last in Hlast.
  rewrite rev_app_distr. cbn [rev app drop_zeros].
  bfalse (a =? 0). cbn [rev]. rewrite rev_involutive. reflexivity.
Qed.

(** Digits that are already in shortest form, possibly followed by
    zeros, are what [make_number] keeps. *)
Lemma make_number_canonical neg d ds m p :
  d <> 0 -> last (d :: ds) 0 <> 0 ->
  make_number neg ((d :: ds) ++ repeat 0 m) p = mkNumber neg (d :: ds) p.
Proof.
  intros Hd Hlast. unfold make_number.
  cbn [app]. rewrite strip_leading_nonzero by assumption.
  change (d :: ds ++ repeat 0 m) with ((d :: ds) ++ repeat 0 m).
  rewrite strip_trailing_zeros by (auto; discriminate). reflexivity.
Qed.

Lemma value_of_digits_snoc ds x :
  value_of_digits (ds ++ [x]) = 10 * value_of_digits ds + x.
Proof. unfold value_of_digits. now rewrite fold_left_app. Qed.

Lemma digits_of_single n : 0 <= n < 10 -> digits_of [48 + n] n.
Proof.
  intros H. exists [n].
  split; [reflexivity|]. split.
  - simpl. unfold digit_ok. btrue ((0 <=? n) && (n <=? 9)). reflexivity.
  - split; [discriminate|]. unfold value_of_digits. simpl. lia.
Qed.

Lemma digits_of_snoc text n :
  10 <= n -> digits_of text (n / 10) ->
  digits_of (text ++ [48 + n mod 10]) n.
Proof.
  intros H [ds [E [Hok [Hne Hval]]]].
  exists (ds ++ [n mod 10]). rewrite E, digit_chars_app.
  split; [reflexivity|]. split.
  - rewrite forallb_app, Hok. simpl. unfold digit_ok.
    pose proof (Z.mod_pos_bound n 10 ltac:(lia)).
    btrue ((0 <=? n mod 10) && (n mod 10 <=? 9)). reflexivity.
  - split; [destruct ds; discriminate|].
    rewrite value_of_digits_snoc, Hval.
    pose proof (Z.div_mod n 10 ltac:(lia)). lia.
Qed.

(** The decimal digits of a natural number read back as that number. *)
Lemma decimal_aux_digits fuel :
  forall n, 0 <= n <= Z.pos fuel -> digits_of (decimal_aux fuel n) n.
Proof.
  induction fuel as [f IH|f IH|]; intros n Hn; cbn [decimal_aux].
  - destruct (Z.ltb_spec n 10); [apply digits_of_single; lia|].
    apply digits_of_snoc; [assumption|]. apply IH.
    split; [apply Z.div_pos; lia|apply Z.div_le_upper_bound; lia].
  - destruct (Z.ltb_spec n 10); [apply digits_of_single; lia|].
    apply digits_of_snoc; [assumption|]. apply IH.
    split; [apply Z.div_pos; lia|apply Z.div_le_upper_bound; lia].
  - rewrite Z.mod_small by lia. apply digits_of_single. lia.
Qed.

Lemma decimal_digits n : 0 <= n -> digits_of (decimal n) n.
Proof.
  intros H. unfold decimal. apply decimal_aux_digits.
  rewrite Z2Pos.id by lia. lia.
Qed.

Lemma parse_frac_none rest :
  ends_number rest = true -> parse_frac rest = Some ([], rest).
Proof.
  destruct rest as [|c r]; [reflexivity|]. simpl. intros H.
  apply andb_prop in H; destruct H as [H H69].
  apply andb_prop in H; destruct H as [H H101].
  apply andb_prop in H; destruct H as [Hdig H46].
  apply negb_true_iff in H46. unfold parse_frac. now rewrite H46.
Qed.

Lemma parse_exp_none rest :
  ends_number rest = true -> parse_exp rest = Some (0, rest).
Proof.
  destruct rest as [|c r]; [reflexivity|]. simpl. intros H.
  apply andb_prop in H; destruct H as [H H69].
  apply andb_prop in H; destruct H as [H H101].
  apply negb_true_iff in H69, H101. unfold parse_exp. now rewrite H69, H101.
Qed.

Lemma parse_frac_digits ds rest :
  ds <> [] -> forallb digit_ok ds = true -> no_digit_head rest = true ->
  parse_frac (46 :: digit_chars ds ++ rest) = Some (ds, rest).
Proof.
  intros Hne Hok Hrest. unfold parse_frac. change (46 =? 46) with true. cbv iota.
  rewrite span_digits_chars by assumption.
  destruct ds; [contradiction|reflexivity].
Qed.

Lemma parse_exp_digits_decimal neg a rest :
  0 <= a -> no_digit_head rest = true ->
  parse_exp_digits neg (decimal a ++ rest) = Some (if neg then - a else a, rest).
Proof.
  intros Ha Hrest. destruct (decimal_digits a Ha) as [ds [E [Hok [Hne Hval]]]].
  unfold parse_exp_digits. rewrite E, span_digits_chars by assumption.
  destruct ds; [contradiction|]. now rewrite Hval.
Qed.

Lemma int_ok_nonzero d ds : d <> 0 -> int_ok (d :: ds) = true.
Proof. intros H. unfold int_ok. bfalse (d =? 0). reflexivity. Qed.

Lemma make_number_shortest neg d ds p :
  d <> 0 -> last (d :: ds) 0 <> 0 ->
  make_number neg (d :: ds) p = mkNumber neg (d :: ds) p.
Proof.
  intros Hd Hl. rewrite <- (make_number_canonical neg d ds 0 p Hd Hl).
  simpl. now rewrite app_nil_r.
Qed.

Section NumberLayouts.

Variables (neg : bool) (d : Z) (ds : list Z) (n : Z) (rest : jsstring).
Hypothesis Hds : forallb digit_ok (d :: ds) = true.
Hypothesis Hd : d <> 0.
Hypothesis Hlast : last (d :: ds) 0 <> 0.
Hypothesis Hrest : ends_number rest = true.

(** Digits followed by zeros: an integer. *)
Lemma parse_integer_layout :
  Z.of_nat (List.length (d :: ds)) <= n ->
  parse_unsigned neg
    ((digit_chars (d :: ds) ++ repeat 48 (Z.to_nat (n - Z.of_nat (List.length (d :: ds))))) ++ rest)
  = Some (mkNumber neg (d :: ds) n, rest).
Proof.
  intros Hk. rewrite <- digit_chars_zeros, <- digit_chars_app.
  unfold parse_unsigned.
  rewrite span_digits_chars;
    [|rewrite forallb_app, Hds, forallb_digit_zeros; reflexivity
     |now apply ends_number_no_digit].
  change ((d :: ds) ++ repeat 0 (Z.to_nat (n - Z.of_nat (List.length (d :: ds)))))
    with (d :: (ds ++ repeat 0 (Z.to_nat (n - Z.of_nat (List.length (d :: ds)))))).
  rewrite int_ok_nonzero by assumption.
  rewrite parse_frac_none, parse_exp_none by assumption.
  rewrite app_nil_r.
  change (d :: (ds ++ repeat 0 (Z.to_nat (n - Z.of_nat (List.length (d :: ds))))))
    with ((d :: ds) ++ repeat 0 (Z.to_nat (n - Z.of_nat (List.length (d :: ds))))).
  rewrite make_number_canonical by assumption.
  do 2 f_equal. f_equal.
  rewrite length_app, repeat_length, Nat2Z.inj_add, Z2Nat.id by lia.
  lia.
Qed.

(** Digits with the point inside. *)
Lemma parse_point_layout :
  0 < n < Z.of_nat (List.length (d :: ds)) ->
  parse_unsigned neg
    ((digit_chars (firstn (Z.to_nat n) (d :: ds)) ++ 46 ::
      digit_chars (skipn (Z.to_nat n) (d :: ds))) ++ rest)
  = Some (mkNumber neg (d :: ds) n, rest).
Proof.
  intros Hn. rewrite <- app_assoc. cbn [app].
  assert (Hsplit := firstn_skipn (Z.to_nat n) (d :: ds)).
  assert (Hboth := Hds). rewrite <- Hsplit, forallb_app in Hboth.
  apply andb_prop in Hboth. destruct Hboth as [Hfst Hsnd].
  assert (Hlen : List.length (firstn (Z.to_nat n) (d :: ds)) = Z.to_nat n).
  { apply firstn_length_le. lia. }
  assert (Hskip : skipn (Z.to_nat n) (d :: ds) <> []).
  { intros E. apply (f_equal (@List.length Z)) in E.
    rewrite length_skipn in E. change (List.length (@nil Z)) with O in E.
    lia. }
  assert (Hint : int_ok (firstn (Z.to_nat n) (d :: ds)) = true).
  { destruct (Z.to_nat n) as [|m] eqn:Hm; [lia|].
    cbn [firstn]. now apply int_ok_nonzero. }
  unfold parse_unsigned.
  rewrite span_digits_chars by (auto; reflexivity).
  rewrite Hint.
  rewrite parse_frac_digits; auto using ends_number_no_digit.
  rewrite parse_exp_none by assumption.
  rewrite Hsplit, make_number_shortest by assumption.
  do 2 f_equal. f_equal. rewrite Hlen. lia.
Qed.

(** A fraction below one: zero, the point, zeros, then the digits. *)
Lemma parse_fraction_layout :
  n <= 0 ->
  parse_unsigned neg
    ((48 :: 46 :: repeat 48 (Z.to_nat (- n)) ++ digit_chars (d :: ds)) ++ rest)
  = Some (mkNumber neg (d :: ds) n, rest).
Proof.
  intros Hn. cbn [app]. rewrite <- app_assoc.
  rewrite <- digit_chars_zeros, app_assoc, <- digit_chars_app.
  unfold parse_unsigned. cbn [span_digits].
  change (is_digit 48) with true. change (is_digit 46) with false. cbv iota.
  change (48 - 48) with 0. change (int_ok [0]) with true. cbv iota.
  rewrite parse_frac_digits;
    [|destruct (Z.to_nat (- n)); discriminate
     |rewrite forallb_app, forallb_digit_zeros; exact Hds
     |now apply ends_number_no_digit].
  rewrite parse_exp_none by assumption.
  change ([0] ++ repeat 0 (Z.to_nat (- n)) ++ d :: ds)
    with (repeat 0 (S (Z.to_nat (- n))) ++ d :: ds).
  unfold make_number. rewrite strip_leading_zeros.
  rewrite strip_leading_nonzero by assumption.
  rewrite <- (app_nil_r (d :: ds)) at 1.
  change [] with (repeat 0 0) at 1.
  rewrite strip_trailing_zeros by (auto; discriminate).
  change (Z.of_nat (List.length [0])) with 1.
  do 3 f_equal. lia.
Qed.

(** One digit, the other digits after the point, and an exponent. *)
Lemma parse_exponent_layout :
  parse_unsigned neg
    ((digit_chars [d] ++
      (match ds with [] => [] | _ :: _ => 46 :: digit_chars ds end) ++
      101 :: (if n - 1 <? 0 then 45 else 43) :: decimal (Z.abs (n - 1))) ++ rest)
  = Some (mkNumber neg (d :: ds) n, rest).
Proof.
  assert (Hd1 : forallb digit_ok [d] = true).
  { simpl in Hds. apply andb_prop in Hds. destruct Hds as [H _].
    simpl. now rewrite H. }
  assert (Hds1 : forallb digit_ok ds = true).
  { simpl in Hds. apply andb_prop in Hds. tauto. }
  assert (Hexp : parse_exp (101 :: (if n - 1 <? 0 then 45 else 43) ::
                            decimal (Z.abs (n - 1)) ++ rest)
                 = Some (n - 1, rest)).
  { unfold parse_exp. change ((101 =? 101) || (101 =? 69)) with true.
    cbv iota. destruct (Z.ltb_spec (n - 1) 0).
    - change (45 =? 43) with false. change (45 =? 45) with true. cbv iota.
      rewrite parse_exp_digits_decimal by (auto using ends_number_no_digit; lia).
      do 2 f_equal. lia.
    - change (43 =? 43) with true. cbv iota.
      rewrite parse_exp_digits_decimal by (auto using ends_number_no_digit; lia).
      do 2 f_equal. lia. }
  rewrite <- !app_assoc. unfold parse_unsigned.
  rewrite span_digits_chars;
    [|assumption|destruct ds; reflexivity].
  rewrite int_ok_nonzero by assumption.
  destruct ds as [|d2 ds2] eqn:Eds.
  - cbn [app]. unfold parse_frac at 1. change (101 =? 46) with false. cbv iota.
    rewrite Hexp.
    rewrite make_number_shortest by assumption.
    change (Z.of_nat (List.length [d])) with 1.
    do 3 f_equal. lia.
  - cbn [app]. rewrite parse_frac_digits; [|discriminate|assumption|reflexivity].
    rewrite Hexp.
    change ([d] ++ d2 :: ds2) with (d :: d2 :: ds2).
    rewrite make_number_shortest by assumption.
    change (Z.of_nat (List.length [d])) with 1.
    do 3 f_equal. lia.
Qed.

End NumberLayouts.

Lemma is_digit_char d : 0 <= d <= 9 -> is_digit (48 + d) = true.
Proof. intros H. unfold is_digit. bsolve. Qed.

(** Whatever the layout, the text of a number starts with a digit. *)
Lemma digits_toString_head d ds n :
  0 <= d <= 9 ->
  exists c t, digits_toString d ds n = c :: t /\ is_digit c = true.
Proof.
  intros Hd. unfold digits_toString.
  destruct ((Z.of_nat (List.length (d :: ds)) <=? n) && (n <=? 21)).
  { eexists; eexists; split; [reflexivity|now apply is_digit_char]. }
  destruct ((0 <? n) && (n <=? 21)) eqn:E.
  { apply andb_prop in E. destruct E as [E _]. apply Z.ltb_lt in E.
    destruct (Z.to_nat n) as [|m] eqn:Hm; [lia|].
    eexists; eexists; split; [reflexivity|now apply is_digit_char]. }
  destruct ((-6 <? n) && (n <=? 0)).
  { eexists; eexists; split; [reflexivity|reflexivity]. }
  eexists; eexists; split; [reflexivity|now apply is_digit_char].
Qed.

Lemma parse_unsigned_digits_toString neg d ds n rest :
  forallb digit_ok (d :: ds) = true ->
  d <> 0 -> last (d :: ds) 0 <> 0 ->
  ends_number rest = true ->
  parse_unsigned neg (digits_toString d ds n ++ rest)
  = Some (mkNumber neg (d :: ds) n, rest).
Proof.
  intros Hds Hd Hlast Hrest. unfold digits_toString.
  destruct ((Z.of_nat (List.length (d :: ds)) <=? n) && (n <=? 21)) eqn:E1.
  { apply andb_prop in E1. destruct E1 as [E1 _]. apply Z.leb_le in E1.
    now apply parse_integer_layout. }
  destruct ((0 <? n) && (n <=? 21)) eqn:E2.
  { apply andb_prop in E2. destruct E2 as [E2 E3].
    apply Z.ltb_lt in E2. apply Z.leb_le in E3.
    apply parse_point_layout; auto.
    apply andb_false_iff in E1. destruct E1 as [E1|E1].
    - apply Z.leb_gt in E1. lia.
    - apply Z.leb_gt in E1. lia. }
  destruct ((-6 <? n) && (n <=? 0)) eqn:E3.
  { apply andb_prop in E3. destruct E3 as [_ E3]. apply Z.leb_le in E3.
    now apply parse_fraction_layout. }
  now apply parse_exponent_layout.
Qed.

Lemma number_ok_digits neg d ds n :
  number_ok (mkNumber neg (d :: ds) n) = true ->
  forallb digit_ok (d :: ds) = true /\ d <> 0 /\ last (d :: ds) 0 <> 0.
Proof.
  unfold number_ok. cbn [digits]. intros H.
  apply andb_prop in H. destruct H as [H Hl].
  apply andb_prop in H. destruct H as [H Hd].
  apply negb_true_iff in Hl, Hd. apply Z.eqb_neq in Hl, Hd. auto.
Qed.

(** [JSON.parse] reads a Number back from the text [Number::toString] gave. *)
Lemma parse_number_toString x rest :
  number_ok x = true ->
  ends_number rest = true ->
  parse_number (Number_toString x ++ rest) = Some (x, rest).
Proof.
  intros Hx Hrest. destruct x as [neg [|d ds] n].
  - unfold number_ok in Hx. cbn [digits negative pointpos] in Hx.
    apply andb_prop in Hx. destruct Hx as [Hneg Hn].
    apply negb_true_iff in Hneg. apply Z.eqb_eq in Hn. subst neg n.
    unfold Number_toString. cbn [digits app parse_number].
    change (48 =? 45) with false. cbv iota.
    unfold parse_unsigned.
    change (48 :: rest) with (digit_chars [0] ++ rest).
    rewrite span_digits_chars by (auto using ends_number_no_digit).
    change (int_ok [0]) with true. cbv iota.
    rewrite parse_frac_none, parse_exp_none by assumption. reflexivity.
  - destruct (number_ok_digits neg d ds n Hx) as [Hds [Hd Hlast]].
    unfold Number_toString. cbn [digits negative pointpos].
    destruct neg.
    + cbn [app parse_number]. change (45 =? 45) with true. cbv iota.
      now apply parse_unsigned_digits_toString.
    + cbn [app].
      assert (Hrange : 0 <= d <= 9).
      { simpl in Hds. apply andb_prop in Hds. destruct Hds as [H _].
        now apply digit_ok_range. }
      destruct (digits_toString_head d ds n Hrange) as [c [t [E Hc]]].
      assert (Hrun := parse_unsigned_digits_toString false d ds n rest
                        Hds Hd Hlast Hrest).
      rewrite E in *. cbn [app parse_number] in *.
      unfold is_digit in Hc. apply andb_prop in Hc. destruct Hc as [Hc1 Hc2].
      apply Z.leb_le in Hc1. bfalse (c =? 45). exact Hrun.
Qed.

(** ** Values *)

Lemma weight_array l : weight (JArr l) = S (weights l).
Proof. reflexivity. Qed.

Lemma weight_object m : weight (JObj m) = S (member_weights m).
Proof. reflexivity. Qed.

Lemma weight_positive v : (1 <= weight v)%nat.
Proof. destruct v; simpl; lia. Qed.

Lemma stringify_head v :
  representable v = true ->
  exists c t, stringify v = c :: t /\ starts_value c.
Proof.
  unfold starts_value. destruct v as [|[|]|x|s|l|m]; intros Hv.
  - exists 110, [117; 108; 108]. split; [reflexivity|lia].
  - exists 116, [114; 117; 101]. split; [reflexivity|lia].
  - exists 102, [97; 108; 115; 101]. split; [reflexivity|lia].
  - cbn [stringify]. unfold Number_toString.
    destruct x as [neg [|d ds] n]; cbn [digits negative pointpos].
    + exists 48, []. split; [reflexivity|lia].
    + destruct neg; [exists 45, (digits_toString d ds n); split; [reflexivity|lia]|].
      destruct (number_ok_digits false d ds n Hv) as [Hds _].
      simpl in Hds. apply andb_prop in Hds. destruct Hds as [Hd _].
      apply digit_ok_range in Hd.
      destruct (digits_toString_head d ds n Hd) as [c [t [E Hc]]].
      exists c, t. split; [now rewrite E|].
      unfold is_digit in Hc. apply andb_prop in Hc. destruct Hc as [H1 H2].
      apply Z.leb_le in H1, H2. lia.
  - exists 34, (quote_units s ++ [34]). split; [reflexivity|lia].
  - exists 91, (print_items stringify 93 l). split; [reflexivity|lia].
  - exists 123, (print_items (fun kv => QuoteJSONString (fst kv) ++ 58 :: stringify (snd kv)) 125 m).
    split; [reflexivity|lia].
Qed.

Lemma skip_ws_head c t : is_ws c = false -> skip_ws (c :: t) = c :: t.
Proof. intros H. cbn [skip_ws]. now rewrite H. Qed.

Lemma starts_value_not_ws c : starts_value c -> is_ws c = false.
Proof. unfold starts_value, is_ws. intros H. bsolve. Qed.

Lemma ends_number_punct c rest :
  c = 44 \/ c = 93 \/ c = 125 -> ends_number (c :: rest) = true.
Proof.
  intros H. unfold ends_number, is_digit.
  destruct H as [ -> | [ -> | -> ] ]; reflexivity.
Qed.

(** An object built from members with distinct names is those members. *)
Lemma jsstring_eqb_eq a b : jsstring_eqb a b = true <-> a = b.
Proof.
  revert b. induction a as [|x a IH]; intros [|y b]; simpl;
    try (split; [discriminate|discriminate]); try tauto.
  rewrite andb_true_iff, Z.eqb_eq, IH. split.
  - intros [-> ->]. reflexivity.
  - intros E. injection E. auto.
Qed.

Lemma obj_set_fresh k v acc :
  existsb (jsstring_eqb k) (map fst acc) = false ->
  obj_set k v acc = acc ++ [(k, v)].
Proof.
  induction acc as [|[k' v'] acc IH]; simpl; [reflexivity|].
  intros H. apply orb_false_iff in H. destruct H as [H1 H2].
  rewrite H1. f_equal. auto.
Qed.

Lemma existsb_eqb_sym k ks :
  existsb (fun k' => jsstring_eqb k' k) ks = existsb (jsstring_eqb k) ks.
Proof.
  induction ks as [|k' ks IH]; simpl; [reflexivity|]. rewrite IH. f_equal.
  destruct (jsstring_eqb k' k) eqn:E1, (jsstring_eqb k k') eqn:E2; auto.
  - apply jsstring_eqb_eq in E1. subst.
    assert (jsstring_eqb k k = true) by now apply jsstring_eqb_eq. congruence.
  - apply jsstring_eqb_eq in E2. subst.
    assert (jsstring_eqb k' k' = true) by now apply jsstring_eqb_eq. congruence.
Qed.

Lemma distinct_keys_app a k t :
  distinct_keys (a ++ k :: t) = true ->
  existsb (jsstring_eqb k) a = false /\ distinct_keys ((a ++ [k]) ++ t) = true.
Proof.
  intros H. split.
  - induction a as [|x a IH]; [reflexivity|].
    simpl in H. apply andb_prop in H. destruct H as [Hx Ha].
    simpl. rewrite (IH Ha). apply negb_true_iff in Hx.
    rewrite existsb_app in Hx. apply orb_false_iff in Hx. destruct Hx as [_ Hx].
    simpl in Hx. apply orb_false_iff in Hx. destruct Hx as [Hx _].
    destruct (jsstring_eqb k x) eqn:E; [|reflexivity].
    apply jsstring_eqb_eq in E. subst.
    assert (jsstring_eqb x x = true) by now apply jsstring_eqb_eq. congruence.
  - now rewrite <- app_assoc.
Qed.

Lemma fold_obj_set m :
  forall acc,
    distinct_keys (map fst acc ++ map fst m) = true ->
    fold_left (fun a kv => obj_set (fst kv) (snd kv) a) m acc = acc ++ m.
Proof.
  induction m as [|[k v] m IH]; intros acc H.
  - simpl. now rewrite app_nil_r.
  - cbn [fold_left fst snd map] in *.
    destruct (distinct_keys_app _ _ _ H) as [Hfresh Hrest].
    rewrite obj_set_fresh by assumption.
    rewrite IH.
    + now rewrite <- app_assoc.
    + rewrite map_app. exact Hrest.
Qed.

(** One step of each parser. *)
Lemma parse_elements_step f s :
  parse_elements (S f) s =
  match parse_value f s with
  | Some (v, r) =>
      match skip_ws r with
      | c :: t =>
          if c =? 44 then
            match parse_elements f t with
            | Some (l, r') => Some (v :: l, r')
            | None => None
            end
          else if c =? 93 then Some ([v], t)
          else None
      | [] => None
      end
  | None => None
  end.
Proof. reflexivity. Qed.

Lemma parse_members_step f k v r acc :
  parse_members (S f) (34 :: quote_units k ++ 34 :: 58 :: stringify v ++ r) acc =
  match parse_chars (quote_units k ++ 34 :: 58 :: stringify v ++ r) with
  | Some (k', r1) =>
      match skip_ws r1 with
      | c2 :: t2 =>
          if c2 =? 58 then
            match parse_value f t2 with
            | Some (v', r2) =>
                match skip_ws r2 with
                | c3 :: t3 =>
                    if c3 =? 44 then parse_members f t3 (obj_set k' v' acc)
                    else if c3 =? 125 then Some (obj_set k' v' acc, t3)
                    else None
                | [] => None
                end
            | None => None
            end
          else None
      | [] => None
      end
  | None => None
  end.
Proof. reflexivity. Qed.

Lemma parse_value_array f c t :
  starts_value c ->
  parse_value (S f) (91 :: c :: t) =
  match parse_elements f (c :: t) with
  | Some (l, r) => Some (JArr l, r)
  | None => None
  end.
Proof.
  intros Hc. cbn [parse_value].
  rewrite (skip_ws_head 91) by reflexivity.
  change (91 =? 123) with false. change (91 =? 91) with true. cbv iota.
  rewrite (skip_ws_head c t) by (now apply starts_value_not_ws).
  unfold starts_value in Hc. bfalse (c =? 93). reflexivity.
Qed.

Lemma parse_value_object f t :
  parse_value (S f) (123 :: 34 :: t) =
  match parse_members f (34 :: t) [] with
  | Some (m, r) => Some (JObj m, r)
  | None => None
  end.
Proof. reflexivity. Qed.

Lemma parse_value_string f t :
  parse_value (S f) (34 :: t) =
  match parse_chars t with
  | Some (k, r) => Some (JStr k, r)
  | None => None
  end.
Proof. reflexivity. Qed.

Lemma parse_value_number f c t :
  c = 45 \/ 48 <= c <= 57 ->
  parse_value (S f) (c :: t) =
  match parse_number (c :: t) with
  | Some (n, r) => Some (JNum n, r)
  | None => None
  end.
Proof.
  intros Hc. cbn [parse_value].
  rewrite (skip_ws_head c t) by (unfold is_ws; bsolve).
  bfalse (c =? 123). bfalse (c =? 91). bfalse (c =? 34).
  bfalse (c =? 116). bfalse (c =? 102). bfalse (c =? 110).
  replace ((c =? 45) || is_digit c) with true; [reflexivity|].
  symmetry. unfold is_digit. destruct Hc as [ -> | Hc ]; [reflexivity|].
  apply orb_true_intro. right. bsolve.
Qed.

Lemma print_items_cons {A} (f : A -> jsstring) close x l :
  print_items f close (x :: l) =
  match l with
  | [] => f x ++ [close]
  | _ :: _ => f x ++ 44 :: print_items f close l
  end.
Proof. reflexivity. Qed.

Lemma parse_elements_items l :
  Forall reads_back l ->
  forall fuel rest,
    l <> [] ->
    (weights l <= fuel)%nat ->
    forallb representable l = true ->
    parse_elements fuel (print_items stringify 93 l ++ rest) = Some (l, rest).
Proof.
  induction 1 as [|x t Hx Ht IH]; intros fuel rest Hne Hfuel Hrep; [contradiction|].
  cbn [weights fold_right] in Hfuel. fold (weights t) in Hfuel.
  destruct fuel as [|f]; [lia|].
  simpl in Hrep. apply andb_prop in Hrep. destruct Hrep as [Hrx Hrt].
  rewrite parse_elements_step, print_items_cons.
  destruct t as [|y t'].
  - rewrite <- app_assoc. cbn [app].
    rewrite (Hx f (93 :: rest)); [reflexivity|lia|assumption|].
    apply ends_number_punct. auto.
  - rewrite <- app_assoc. cbn [app].
    rewrite (Hx f (44 :: print_items stringify 93 (y :: t') ++ rest));
      [|lia|assumption|apply ends_number_punct; auto].
    cbn [skip_ws]. change (is_ws 44) with false. cbv iota.
    change (44 =? 44) with true. cbv iota.
    rewrite IH; [reflexivity|discriminate|lia|assumption].
Qed.

Lemma parse_members_items m :
  Forall (fun kv => reads_back (snd kv)) m ->
  forall fuel rest acc,
    m <> [] ->
    (member_weights m <= fuel)%nat ->
    forallb (fun kv => forallb unit_ok (fst kv) && representable (snd kv)) m = true ->
    parse_members fuel (print_items member_text 125 m ++ rest) acc =
    Some (fold_left (fun a kv => obj_set (fst kv) (snd kv) a) m acc, rest).
Proof.
  induction 1 as [|[k v] t Hv Ht IH]; intros fuel rest acc Hne Hfuel Hrep;
    [contradiction|].
  cbn [member_weights fold_right snd] in Hfuel. fold (member_weights t) in Hfuel.
  destruct fuel as [|f]; [lia|].
  cbn [forallb fst snd] in Hrep. apply andb_prop in Hrep. destruct Hrep as [Hkv Hrt].
  apply andb_prop in Hkv. destruct Hkv as [Hk Hrv].
  cbn [snd] in Hv.
  rewrite print_items_cons. unfold member_text at 1 2. cbn [fst snd].
  unfold QuoteJSONString.
  destruct t as [|kv' t'].
  - rewrite <- !app_assoc. cbn [app]. rewrite <- !app_assoc. cbn [app].
    rewrite parse_members_step.
    rewrite (parse_chars_quote_units (List.length k)) by auto.
    cbn [skip_ws]. change (is_ws 58) with false. cbv iota.
    change (58 =? 58) with true. cbv iota.
    rewrite (Hv f (125 :: rest)); [reflexivity|lia|assumption|].
    apply ends_number_punct. auto.
  - rewrite <- !app_assoc. cbn [app]. rewrite <- !app_assoc. cbn [app].
    rewrite parse_members_step.
    rewrite (parse_chars_quote_units (List.length k)) by auto.
    cbn [skip_ws]. change (is_ws 58) with false. cbv iota.
    change (58 =? 58) with true. cbv iota.
    rewrite (Hv f (44 :: print_items member_text 125 (kv' :: t') ++ rest));
      [|lia|assumption|apply ends_number_punct; auto].
    cbn [skip_ws]. change (is_ws 44) with false. cbv iota.
    change (44 =? 44) with true. cbv iota.
    rewrite IH; [reflexivity|discriminate|lia|assumption].
Qed.

(** [JSON.parse] reads every representable value back from the text
    [JSON.stringify] wrote. *)
Lemma reads_back_all v : reads_back v.
Proof.
  induction v as [|b|x|s|l IH|m IH] using json_induction;
    intros fuel rest Hfuel Hrep Hrest.
  - destruct fuel as [|f]; [simpl in Hfuel; lia|]. reflexivity.
  - destruct fuel as [|f]; [simpl in Hfuel; lia|]. destruct b; reflexivity.
  - destruct fuel as [|f]; [simpl in Hfuel; lia|].
    cbn [stringify representable] in *.
    assert (Hparse := parse_number_toString x rest Hrep Hrest).
    destruct (stringify_head (JNum x) Hrep) as [c [t [E Hc]]].
    cbn [stringify] in E. rewrite E in *. cbn [app] in *.
    rewrite parse_value_number, Hparse; [reflexivity|].
    unfold starts_value in Hc.
    destruct x as [neg [|d ds] n].
    + vm_compute in E. injection E as <- _. lia.
    + unfold Number_toString in E. cbn [digits negative pointpos] in E.
      destruct neg.
      * cbn [app] in E. injection E as <- _. lia.
      * cbn [app] in E.
        destruct (number_ok_digits false d ds n Hrep) as [Hds _].
        simpl in Hds. apply andb_prop in Hds. destruct Hds as [Hd _].
        apply digit_ok_range in Hd.
        destruct (digits_toString_head d ds n Hd) as [c' [t' [E' Hc']]].
        rewrite E' in E. injection E as <- _.
        unfold is_digit in Hc'. apply andb_prop in Hc'. destruct Hc' as [H1 H2].
        apply Z.leb_le in H1, H2. lia.
  - destruct fuel as [|f]; [simpl in Hfuel; lia|].
    cbn [stringify representable] in *. unfold QuoteJSONString.
    cbn [app]. rewrite <- app_assoc. cbn [app].
    rewrite parse_value_string.
    rewrite (parse_chars_quote_units (List.length s)) by auto. reflexivity.
  - rewrite weight_array in Hfuel.
    destruct fuel as [|f]; [lia|].
    cbn [stringify representable] in *. cbn [app].
    destruct l as [|x t]; [reflexivity|].
    assert (Hitems := parse_elements_items (x :: t) IH f rest
                        ltac:(discriminate) ltac:(lia) Hrep).
    assert (Hx : representable x = true).
    { simpl in Hrep. apply andb_prop in Hrep. tauto. }
    destruct (stringify_head x Hx) as [c [r [E Hc]]].
    rewrite print_items_cons in *.
    destruct t as [|y t']; rewrite E in *; cbn [app] in *;
      rewrite parse_value_array by assumption; rewrite Hitems; reflexivity.
  - rewrite weight_object in Hfuel.
    destruct fuel as [|f]; [lia|].
    cbn [stringify representable] in *. cbn [app].
    destruct m as [|[k v] t]; [reflexivity|].
    apply andb_prop in Hrep. destruct Hrep as [Hkeys Hrep].
    change (fun kv : jsstring * json =>
              QuoteJSONString (fst kv) ++ 58 :: stringify (snd kv))
      with member_text.
    assert (Hitems := parse_members_items ((k, v) :: t) IH f rest []
                        ltac:(discriminate) ltac:(lia) Hrep).
    rewrite fold_obj_set in Hitems by exact Hkeys.
    assert (Hhead : exists text,
               print_items member_text 125 ((k, v) :: t) ++ rest = 34 :: text).
    { rewrite print_items_cons.
      destruct t; unfold member_text at 1; unfold QuoteJSONString;
        cbn [fst app]; eexists; reflexivity. }
    destruct Hhead as [text Etext]. rewrite Etext in *.
    rewrite parse_value_object, Hitems. reflexivity.
Qed.

(** The fuel [JSON_parse] gives itself is enough for a printed value. *)
Lemma weights_le_length (f : json -> jsstring) l :
  Forall (fun v => (weight v <= List.length (f v))%nat) l ->
  (weights l <= List.length (print_items f 93 l))%nat.
Proof.
  induction 1 as [|x t Hx Ht IH]; [simpl; lia|].
  cbn [weights fold_right]. fold (weights t). rewrite print_items_cons.
  destruct t as [|y t'].
  - rewrite length_app. cbn [List.length]. change (weights []) with O. lia.
  - rewrite length_app. cbn [List.length]. lia.
Qed.

Lemma member_weights_le_length m :
  Forall (fun kv => (weight (snd kv) <= List.length (stringify (snd kv)))%nat) m ->
  (member_weights m <= List.length (print_items member_text 125 m))%nat.
Proof.
  induction 1 as [|x t Hx Ht IH]; [simpl; lia|].
  cbn [member_weights fold_right]. fold (member_weights t).
  rewrite print_items_cons. unfold member_text at 1 2.
  destruct t as [|y t'].
  - rewrite !length_app. cbn [List.length]. change (member_weights []) with O. lia.
  - rewrite !length_app. cbn [List.length]. lia.
Qed.

Lemma weight_le_length v :
  representable v = true -> (weight v <= List.length (stringify v))%nat.
Proof.
  induction v as [|b|x|s|l IH|m IH] using json_induction; intros Hrep.
  - simpl. lia.
  - destruct b; simpl; lia.
  - destruct (stringify_head (JNum x) Hrep) as [c [t [E _]]].
    rewrite E. simpl. lia.
  - simpl. lia.
  - rewrite weight_array. cbn [stringify List.length].
    apply le_n_S. apply weights_le_length.
    cbn [representable] in Hrep. rewrite forallb_forall in Hrep.
    rewrite Forall_forall in *. intros x Hx. apply IH; auto.
  - rewrite weight_object. cbn [stringify List.length].
    apply le_n_S.
    change (fun kv : jsstring * json =>
              QuoteJSONString (fst kv) ++ 58 :: stringify (snd kv))
      with member_text.
    apply member_weights_le_length.
    cbn [representable] in Hrep. apply andb_prop in Hrep. destruct Hrep as [_ Hrep].
    rewrite forallb_forall in Hrep.
    rewrite Forall_forall in *. intros kv Hkv. apply IH; auto.
    specialize (Hrep kv Hkv). apply andb_prop in Hrep. tauto.
Qed.

(** [JSON.parse(JSON.stringify(v))] is [v]. *)
Lemma JSON_parse_stringify v :
  representable v = true -> JSON_parse (stringify v) = Ok v.
Proof.
  intros Hrep. unfold JSON_parse.
  rewrite <- (app_nil_r (stringify v)) at 2.
  rewrite (reads_back_all v _ [] ); auto.
  pose proof (weight_le_length v Hrep). lia.
Qed.

(** ** UTF-8 *)

Lemma decode2_encode c :
  128 <= c < 2048 -> decode2 (192 + c / 64) (128 + c mod 64) = Some c.
Proof.
  intros H. unfold decode2, is_cont.
  assert (0 <= c mod 64 < 64) by (apply Z.mod_pos_bound; lia).
  assert (2 <= c / 64 < 32)
    by (split; [apply Z.div_le_lower_bound; lia|apply Z.div_lt_upper_bound; lia]).
  assert (E : (192 + c / 64 - 192) * 64 + (128 + c mod 64 - 128) = c).
  { pose proof (Z.div_mod c 64 ltac:(lia)). lia. }
  rewrite E.
  btrue ((192 <=? 192 + c / 64) && (192 + c / 64 <=? 223) &&
         ((128 <=? 128 + c mod 64) && (128 + c mod 64 <=? 191)) && (128 <=? c)).
  reflexivity.
Qed.

Lemma decode2_not_lead b1 b2 : 224 <= b1 -> decode2 b1 b2 = None.
Proof.
  intros H. unfold decode2.
  bfalse ((192 <=? b1) && (b1 <=? 223)). reflexivity.
Qed.

Lemma decode3_not_lead b1 b2 b3 : 240 <= b1 -> decode3 b1 b2 b3 = None.
Proof.
  intros H. unfold decode3.
  bfalse ((224 <=? b1) && (b1 <=? 239)). reflexivity.
Qed.

Lemma decode3_encode c :
  2048 <= c <= 65535 ->
  is_high_surrogate c || is_low_surrogate c = false ->
  decode3 (224 + c / 4096) (128 + c / 64 mod 64) (128 + c mod 64) = Some c.
Proof.
  intros H Hs. unfold decode3, is_cont.
  assert (0 <= c mod 64 < 64) by (apply Z.mod_pos_bound; lia).
  assert (0 <= c / 64 mod 64 < 64) by (apply Z.mod_pos_bound; lia).
  assert (0 <= c / 4096 < 16)
    by (split; [apply Z.div_pos; lia|apply Z.div_lt_upper_bound; lia]).
  assert (E : (224 + c / 4096 - 224) * 4096 + (128 + c / 64 mod 64 - 128) * 64 +
              (128 + c mod 64 - 128) = c).
  { Z.div_mod_to_equations; lia. }
  rewrite E, Hs.
  btrue ((224 <=? 224 + c / 4096) && (224 + c / 4096 <=? 239) &&
         ((128 <=? 128 + c / 64 mod 64) && (128 + c / 64 mod 64 <=? 191)) &&
         ((128 <=? 128 + c mod 64) && (128 + c mod 64 <=? 191)) && (2048 <=? c)).
  reflexivity.
Qed.

Lemma decode4_encode h l :
  55296 <= h <= 56319 -> 56320 <= l <= 57343 ->
  let cp := 65536 + (h - 55296) * 1024 + (l - 56320) in
  decode4 (240 + cp / 262144) (128 + cp / 4096 mod 64) (128 + cp / 64 mod 64)
    (128 + cp mod 64) = Some (h, l).
Proof.
  intros Hh Hl cp. unfold decode4, is_cont.
  assert (Hcp : 65536 <= cp <= 1114111) by (unfold cp; lia).
  assert (E : (240 + cp / 262144 - 240) * 262144 +
              (128 + cp / 4096 mod 64 - 128) * 4096 +
              (128 + cp / 64 mod 64 - 128) * 64 + (128 + cp mod 64 - 128) = cp).
  { clearbody cp. Z.div_mod_to_equations; lia. }
  rewrite E.
  assert (0 <= cp mod 64 < 64) by (apply Z.mod_pos_bound; lia).
  assert (0 <= cp / 64 mod 64 < 64) by (apply Z.mod_pos_bound; lia).
  assert (0 <= cp / 4096 mod 64 < 64) by (apply Z.mod_pos_bound; lia).
  assert (0 <= cp / 262144 < 5)
    by (split; [apply Z.div_pos; lia|apply Z.div_lt_upper_bound; lia]).
  btrue ((240 <=? 240 + cp / 262144) && (240 + cp / 262144 <=? 247) &&
         ((128 <=? 128 + cp / 4096 mod 64) && (128 + cp / 4096 mod 64 <=? 191)) &&
         ((128 <=? 128 + cp / 64 mod 64) && (128 + cp / 64 mod 64 <=? 191)) &&
         ((128 <=? 128 + cp mod 64) && (128 + cp mod 64 <=? 191)) &&
         (65536 <=? cp) && (cp <=? 1114111)).
  f_equal. f_equal.
  - unfold cp. Z.div_mod_to_equations; lia.
  - unfold cp. Z.div_mod_to_equations; lia.
Qed.

Lemma utf8_decode_unit c rest :
  unit_ok c = true ->
  is_high_surrogate c || is_low_surrogate c = false ->
  utf8_decode (encode_unit c ++ rest) = c :: utf8_decode rest.
Proof.
  intros Hc Hs. apply unit_ok_range in Hc. unfold encode_unit.
  destruct (Z.ltb_spec c 128) as [H1|H1].
  - cbn [app utf8_decode]. btrue (c <? 128). reflexivity.
  - destruct (Z.ltb_spec c 2048) as [H2|H2].
    + cbn [app utf8_decode].
      assert (0 <= c / 64) by (apply Z.div_pos; lia).
      bfalse (192 + c / 64 <? 128).
      rewrite decode2_encode by lia. reflexivity.
    + rewrite Hs. cbn [app utf8_decode].
      assert (0 <= c / 4096) by (apply Z.div_pos; lia).
      bfalse (224 + c / 4096 <? 128).
      rewrite decode2_not_lead by lia.
      rewrite decode3_encode by (auto; lia). reflexivity.
Qed.

Lemma utf8_decode_pair h l rest :
  is_high_surrogate h = true -> is_low_surrogate l = true ->
  utf8_decode (encode_pair h l ++ rest) = h :: l :: utf8_decode rest.
Proof.
  intros Hh Hl. apply high_surrogate_range in Hh. apply low_surrogate_range in Hl.
  unfold encode_pair. cbv zeta. cbn [app utf8_decode].
  set (cp := 65536 + (h - 55296) * 1024 + (l - 56320)).
  assert (0 <= cp / 262144) by (apply Z.div_pos; unfold cp; lia).
  bfalse (240 + cp / 262144 <? 128).
  rewrite decode2_not_lead by lia.
  rewrite decode3_not_lead by lia.
  unfold cp. rewrite (decode4_encode h l Hh Hl). reflexivity.
Qed.

Lemma utf8_encode_step c t :
  utf8_encode (c :: t) =
  match t with
  | d :: t' =>
      if is_high_surrogate c && is_low_surrogate d
      then encode_pair c d ++ utf8_encode t'
      else encode_unit c ++ utf8_encode t
  | [] => encode_unit c
  end.
Proof. destruct t; cbn [utf8_encode]; [now rewrite app_nil_r|reflexivity]. Qed.

Lemma well_formed_step c t :
  well_formed (c :: t) =
  match t with
  | d :: t' =>
      if is_high_surrogate c && is_low_surrogate d
      then well_formed t'
      else unit_ok c && negb (is_high_surrogate c || is_low_surrogate c)
           && well_formed t
  | [] => unit_ok c && negb (is_high_surrogate c || is_low_surrogate c)
  end.
Proof. destruct t; reflexivity. Qed.

(** Decoding the bytes of a well-formed string gives the string back. *)
Lemma utf8_decode_encode_bounded n :
  forall s, (List.length s <= n)%nat ->
    well_formed s = true -> utf8_decode (utf8_encode s) = s.
Proof.
  induction n as [|n IH]; intros s Hlen Hwf.
  - destruct s; [reflexivity|simpl in Hlen; lia].
  - destruct s as [|c t]; [reflexivity|].
    rewrite well_formed_step in Hwf. rewrite utf8_encode_step.
    destruct t as [|d t'].
    + apply andb_prop in Hwf. destruct Hwf as [Hc Hs].
      apply negb_true_iff in Hs.
      rewrite <- (app_nil_r (encode_unit c)).
      rewrite utf8_decode_unit by assumption. reflexivity.
    + destruct (is_high_surrogate c && is_low_surrogate d) eqn:Hpair.
      * apply andb_prop in Hpair. destruct Hpair as [Hh Hl].
        rewrite utf8_decode_pair by assumption.
        rewrite IH; [reflexivity|simpl in *; lia|assumption].
      * apply andb_prop in Hwf. destruct Hwf as [Hwf Ht].
        apply andb_prop in Hwf. destruct Hwf as [Hc Hs].
        apply negb_true_iff in Hs.
        rewrite utf8_decode_unit by assumption.
        rewrite IH; [reflexivity|simpl in *; lia|assumption].
Qed.

Lemma utf8_decode_encode s :
  well_formed s = true -> Buffer_toString (utf8_encode s) = s.
Proof. apply (utf8_decode_encode_bounded (List.length s)). lia. Qed.

(** ** The printed text is well-formed UTF-16 *)

Lemma scalar_ascii c : 0 <= c < 128 -> scalar c = true.
Proof.
  intros H. unfold scalar, unit_ok, is_high_surrogate, is_low_surrogate. bsolve.
Qed.

Lemma well_formed_scalar_cons c t :
  scalar c = true -> well_formed (c :: t) = well_formed t.
Proof.
  unfold scalar. intros H. rewrite well_formed_step.
  assert (Hh : is_high_surrogate c = false).
  { apply andb_prop in H. destruct H as [_ H]. apply negb_true_iff in H.
    apply orb_false_iff in H. tauto. }
  destruct t as [|d t']; [exact H|].
  rewrite H, Hh. reflexivity.
Qed.

Lemma well_formed_scalars a b :
  forallb scalar a = true -> well_formed (a ++ b) = well_formed b.
Proof.
  induction a as [|c a IH]; [reflexivity|].
  cbn [forallb app]. intros H. apply andb_prop in H. destruct H as [Hc Ha].
  rewrite well_formed_scalar_cons by assumption. auto.
Qed.

Lemma scalar_hexdigit d : 0 <= d < 16 -> scalar (hexdigit d) = true.
Proof.
  intros H. apply scalar_ascii. unfold hexdigit.
  destruct (Z.ltb_spec d 10); lia.
Qed.

Lemma scalars_quote_unit c :
  unit_ok c = true -> forallb scalar (quote_unit c) = true.
Proof.
  intros Hc. unfold quote_unit.
  destruct (c =? 8); [reflexivity|].
  destruct (c =? 9); [reflexivity|].
  destruct (c =? 10); [reflexivity|].
  destruct (c =? 12); [reflexivity|].
  destruct (c =? 13); [reflexivity|].
  destruct (c =? 34); [reflexivity|].
  destruct (c =? 92); [reflexivity|].
  assert (Hesc : forallb scalar (unicode_escape c) = true).
  { unfold unicode_escape. cbn [forallb].
    rewrite !scalar_hexdigit by (apply Z.mod_pos_bound; lia). reflexivity. }
  destruct (c <? 32); [exact Hesc|].
  destruct (is_high_surrogate c || is_low_surrogate c) eqn:Hs; [exact Hesc|].
  cbn [forallb]. unfold scalar. now rewrite Hc, Hs.
Qed.

Lemma well_formed_quote_units n :
  forall s b, (List.length s <= n)%nat ->
    forallb unit_ok s = true ->
    well_formed (quote_units s ++ b) = well_formed b.
Proof.
  induction n as [|n IH]; intros s b Hlen Hok.
  - destruct s; [reflexivity|simpl in Hlen; lia].
  - destruct s as [|c t]; [reflexivity|].
    cbn [forallb] in Hok. apply andb_prop in Hok. destruct Hok as [Hc Ht].
    rewrite quote_units_step. destruct t as [|d t'].
    + now rewrite well_formed_scalars by now apply scalars_quote_unit.
    + destruct (is_high_surrogate c && is_low_surrogate d) eqn:Hpair.
      * cbn [app]. rewrite well_formed_step, Hpair.
        cbn [forallb] in Ht. apply andb_prop in Ht. destruct Ht as [_ Ht'].
        apply IH; [simpl in *; lia|assumption].
      * rewrite <- app_assoc.
        rewrite well_formed_scalars by now apply scalars_quote_unit.
        apply IH; [simpl in *; lia|assumption].
Qed.

Lemma well_formed_quote s b :
  forallb unit_ok s = true ->
  well_formed (QuoteJSONString s ++ b) = well_formed b.
Proof.
  intros H. unfold QuoteJSONString. cbn [app].
  rewrite well_formed_scalar_cons by reflexivity.
  rewrite <- app_assoc. rewrite (well_formed_quote_units (List.length s)) by auto.
  cbn [app]. now rewrite well_formed_scalar_cons by reflexivity.
Qed.

Lemma scalars_digit_chars ds :
  forallb digit_ok ds = true -> forallb scalar (digit_chars ds) = true.
Proof.
  induction ds as [|d ds IH]; [reflexivity|].
  cbn [forallb digit_chars map]. intros H. apply andb_prop in H.
  destruct H as [Hd Hds]. apply digit_ok_range in Hd.
  rewrite scalar_ascii by lia. auto.
Qed.

Lemma scalars_zeros n : forallb scalar (repeat 48 n) = true.
Proof. induction n; simpl; auto. Qed.

Lemma scalars_digits_toString d ds n :
  forallb digit_ok (d :: ds) = true ->
  forallb scalar (digits_toString d ds n) = true.
Proof.
  intros Hds. unfold digits_toString.
  assert (Hsplit := firstn_skipn (Z.to_nat n) (d :: ds)).
  assert (Hboth := Hds). rewrite <- Hsplit, forallb_app in Hboth.
  apply andb_prop in Hboth. destruct Hboth as [Hfst Hsnd].
  assert (Hd1 : forallb digit_ok [d] = true).
  { cbn [forallb] in *. apply andb_prop in Hds. destruct Hds as [H _]. now rewrite H. }
  assert (Hds1 : forallb digit_ok ds = true).
  { cbn [forallb] in Hds. apply andb_prop in Hds. tauto. }
  destruct ((Z.of_nat (List.length (d :: ds)) <=? n) && (n <=? 21)).
  { rewrite forallb_app, scalars_digit_chars, scalars_zeros; auto. }
  destruct ((0 <? n) && (n <=? 21)).
  { rewrite forallb_app. cbn [forallb].
    rewrite !scalars_digit_chars by assumption. reflexivity. }
  destruct ((-6 <? n) && (n <=? 0)).
  { cbn [forallb]. rewrite forallb_app, scalars_zeros, scalars_digit_chars by assumption.
    reflexivity. }
  destruct (decimal_digits (Z.abs (n - 1)) ltac:(lia)) as [es [E [Hes _]]].
  rewrite !forallb_app. rewrite scalars_digit_chars by assumption.
  cbn [forallb]. rewrite E, scalars_digit_chars by assumption.
  destruct ds; [|cbn [forallb]; rewrite scalars_digit_chars by assumption];
    destruct (n - 1 <? 0); reflexivity.
Qed.

Lemma scalars_Number_toString x :
  number_ok x = true -> forallb scalar (Number_toString x) = true.
Proof.
  intros Hx. destruct x as [neg [|d ds] n]; [reflexivity|].
  destruct (number_ok_digits neg d ds n Hx) as [Hds _].
  unfold Number_toString. cbn [digits negative pointpos].
  rewrite forallb_app, scalars_digits_toString by assumption.
  destruct neg; reflexivity.
Qed.

Lemma well_formed_items {A} (f : A -> jsstring) close l b :
  scalar close = true ->
  Forall (fun x => forall b', well_formed (f x ++ b') = well_formed b') l ->
  well_formed (print_items f close l ++ b) = well_formed b.
Proof.
  intros Hclose. induction 1 as [|x t Hx Ht IH].
  - cbn [print_items app]. now apply well_formed_scalar_cons.
  - rewrite print_items_cons. destruct t as [|y t'].
    + rewrite <- app_assoc, Hx. cbn [app]. now apply well_formed_scalar_cons.
    + rewrite <- app_assoc, Hx. cbn [app].
      rewrite well_formed_scalar_cons by reflexivity. exact IH.
Qed.

(** Appending the text of a value keeps a text well formed. *)
Lemma well_formed_stringify v :
  representable v = true ->
  forall b, well_formed (stringify v ++ b) = well_formed b.
Proof.
  induction v as [|[|]|x|s|l IH|m IH] using json_induction; intros Hrep b.
  - now apply well_formed_scalars.
  - now apply well_formed_scalars.
  - now apply well_formed_scalars.
  - apply well_formed_scalars. now apply scalars_Number_toString.
  - now apply well_formed_quote.
  - cbn [stringify app]. rewrite well_formed_scalar_cons by reflexivity.
    apply well_formed_items; [reflexivity|].
    cbn [representable] in Hrep. rewrite forallb_forall in Hrep.
    rewrite Forall_forall in *. intros x Hx. apply IH; auto.
  - cbn [stringify app]. rewrite well_formed_scalar_cons by reflexivity.
    apply well_formed_items; [reflexivity|].
    cbn [representable] in Hrep. apply andb_prop in Hrep. destruct Hrep as [_ Hrep].
    rewrite forallb_forall in Hrep.
    rewrite Forall_forall in *. intros kv Hkv b'.
    specialize (Hrep kv Hkv). apply andb_prop in Hrep. destruct Hrep as [Hk Hv].
    rewrite <- app_assoc, well_formed_quote by assumption.
    cbn [app]. rewrite well_formed_scalar_cons by reflexivity.
    apply IH; auto.
Qed.

Lemma stringify_well_formed v :
  representable v = true -> well_formed (stringify v) = true.
Proof.
  intros H. rewrite <- (app_nil_r (stringify v)).
  now rewrite well_formed_stringify.
Qed.

(** ** Publisher to consumer *)

(** C8.  For every JSON-representable payload [P], the bytes that the
    publisher makes of it ([JSON.stringify], then [Buffer.from]) are turned
    back into [P] by the consumer's [deserializeMessage]
    ([msg.content.toString()], then [JSON.parse]). *)
Theorem serialization_roundtrip (P : json) (tag : Z) :
  representable P = true ->
  exists messageBuffer,
    Publisher.serialize (VJson P) = Ok messageBuffer /\
    Consumer.deserializeMessage
      {| Amqp.content := messageBuffer; Amqp.deliveryTag := tag |} = Ok P.
Proof.
  intros Hrep. exists (utf8_encode (stringify P)). split; [reflexivity|].
  unfold Consumer.deserializeMessage. cbn [Amqp.content].
  rewrite utf8_decode_encode by now apply stringify_well_formed.
  now rewrite JSON_parse_stringify.
Qed.

Lemma serialization_roundtrip_witness :
  exists messageBuffer,
    Publisher.serialize (VJson Scenario.order) = Ok messageBuffer /\
    Consumer.deserializeMessage
      {| Amqp.content := messageBuffer; Amqp.deliveryTag := 7 |} = Ok Scenario.order.
Proof.
  apply (serialization_roundtrip Scenario.order 7). vm_compute. reflexivity.
Defined.

(** The scenario of the order service: the order is published, the
    delivery carries the published bytes, the handler accepts it, and the
    only decision is the acknowledgement. *)
Example order_published_then_acknowledged :
  let published :=
    Publisher.publishMessage Scenario.broker_up Constants.ORDER_EXCHANGE
      Constants.EMAIL_QUEUE Constants.ORDER_CREATED (VJson Scenario.order)
      Scenario.connected in
  fst published = Ok true /\
  exists messageBuffer,
    last (Amqp.trace (snd published)) (Amqp.EvDelay 0) =
      Amqp.EvChannel 1%nat
        (Amqp.publish "order.exchange"%string "order.created"%string messageBuffer
           Constants.MESSAGE_OPTIONS) /\
    Observe.decisions
      (Observe.events_since (snd published)
         (snd (Consumer.onDelivery Scenario.broker_up 1%nat Scenario.handler_true
                 (Some {| Amqp.content := messageBuffer; Amqp.deliveryTag := 7 |})
                 (snd published)))) =
    [Amqp.ack {| Amqp.content := messageBuffer; Amqp.deliveryTag := 7 |}].
Proof.
  split; [reflexivity|]. exists (utf8_encode (stringify Scenario.order)).
  split; vm_compute; reflexivity.
Qed.

End JsonFacts.

(** * The life of the connection and of the channel *)

Module LifecycleFacts.
Import Amqp Observe Connection Shutdown TraceFacts.
Local Open Scope string_scope.
Local Open Scope list_scope.

(** X1.  The channel is a singleton: once [getChannel] has returned a
    channel, a later call returns that same channel and asks nothing of the
    broker, whatever the broker would answer. *)
Theorem getChannel_singleton env env' w ch w1 :
  getChannel env w = (Ok ch, w1) ->
  channel (state w1) = Some ch /\ getChannel env' w1 = (Ok ch, w1).
Proof.
  unfold getChannel. intros H.
  destruct (channel (state w)) as [ch0|] eqn:Hch.
  - inversion H; subst. rewrite Hch. auto.
  - destruct (connection (state w)) as [c|]; [|discriminate].
    destruct (createChannel env (trace w) c) as [ch1|e]; [|discriminate].
    inversion H; subst. simpl. auto.
Qed.

Lemma getChannel_singleton_witness :
  channel (state (snd (getChannel Scenario.broker_up Cases.channel_lost))) = Some 2%nat /\
  getChannel Scenario.broker_down
    (snd (getChannel Scenario.broker_up Cases.channel_lost)) =
  (Ok 2%nat, snd (getChannel Scenario.broker_up Cases.channel_lost)).
Proof.
  apply (getChannel_singleton Scenario.broker_up Scenario.broker_down
           Cases.channel_lost).
  reflexivity.
Defined.


(** X3.  When [channel.close()] throws, [connection.close()] is not
    called: the connection that was held is forgotten without having been
    closed. *)
Theorem failed_channel_close_skips_connection_close cenv w ch e :
  channel (state w) = Some ch ->
  channel_close cenv (trace w) ch = Some e ->
  snd (closeConnection cenv w) = [CloseChannel ch] /\
  connection (state (fst (closeConnection cenv w))) = None.
Proof.
  intros Hch Hthrow.
  unfold closeConnection, closeHeldChannel. rewrite Hch, Hthrow. simpl. auto.
Qed.

Lemma failed_channel_close_skips_connection_close_witness :
  snd (closeConnection Cases.closing_fails Scenario.connected) = [CloseChannel 1%nat] /\
  connection (state (fst (closeConnection Cases.closing_fails Scenario.connected))) = None.
Proof.
  apply (failed_channel_close_skips_connection_close Cases.closing_fails
           Scenario.connected 1%nat "Channel closed"); reflexivity.
Defined.

(** The world that a shutdown leaves. *)
Lemma closeConnection_world cenv w :
  fst (closeConnection cenv w) = forceCleanup w.
Proof.
  unfold closeConnection, closeHeldChannel, closeHeldConnection, forceCleanup.
  destruct w as [[c ch u r n] t]. simpl.
  destruct ch as [ch|]; simpl.
  - destruct (channel_close cenv t ch); simpl; [reflexivity|].
    destruct c as [c|]; simpl; [|reflexivity].
    destruct (connection_close cenv t c); reflexivity.
  - destruct c as [c|]; simpl; [|reflexivity].
    destruct (connection_close cenv t c); reflexivity.
Qed.

Lemma no_connection_getChannel env w :
  channel (state w) = None -> connection (state w) = None ->
  getChannel env w =
  (Throw "No RabbitMQ connection available. Call connect() first.", w).
Proof. intros Hch Hc. unfold getChannel. now rewrite Hch, Hc. Qed.

Lemma no_connection_publishMessage env ex q rk message w :
  channel (state w) = None -> connection (state w) = None ->
  Publisher.publishMessage env ex q rk message w =
  (Throw "No RabbitMQ connection available. Call connect() first.", w).
Proof.
  intros Hch Hc. unfold Publisher.publishMessage. rewrite try_catch_rethrow.
  unfold bind at 1. now rewrite (no_connection_getChannel env w Hch Hc).
Qed.

Lemma no_connection_consumeMessages env ex q rk onMessage w :
  channel (state w) = None -> connection (state w) = None ->
  Consumer.consumeMessages env ex q rk onMessage w =
  (Throw "No RabbitMQ connection available. Call connect() first.", w).
Proof.
  intros Hch Hc. unfold Consumer.consumeMessages. rewrite try_catch_rethrow.
  unfold bind at 1. now rewrite (no_connection_getChannel env w Hch Hc).
Qed.

(** X4.  While neither a channel nor a connection is held (before
    [connect()], after the connection was lost or closed), [getChannel],
    [publishMessage] and [consumeMessages] throw the error that asks for
    [connect()], and nothing is sent to the broker. *)
Theorem no_connection_no_interaction env w :
  channel (state w) = None ->
  connection (state w) = None ->
  let error := "No RabbitMQ connection available. Call connect() first." in
  getChannel env w = (Throw error, w) /\
  (forall ex q rk message,
     Publisher.publishMessage env ex q rk message w = (Throw error, w)) /\
  (forall ex q rk onMessage,
     Consumer.consumeMessages env ex q rk onMessage w = (Throw error, w)).
Proof.
  intros Hch Hc error. split; [now apply no_connection_getChannel|].
  split; intros.
  - now apply no_connection_publishMessage.
  - now apply no_connection_consumeMessages.
Qed.

Lemma no_connection_no_interaction_witness :
  Publisher.publishMessage Scenario.broker_up Constants.ORDER_EXCHANGE
    Constants.EMAIL_QUEUE Constants.ORDER_CREATED (Json.VJson Scenario.order) initial =
  (Throw "No RabbitMQ connection available. Call connect() first.", initial).
Proof.
  apply (proj1 (proj2 (no_connection_no_interaction Scenario.broker_up initial
                         eq_refl eq_refl))).
Defined.

(** X5.  After [closeConnection] the layer is back where it started: a
    second [closeConnection] makes no [close()] call and changes nothing,
    publishing throws the error that asks for [connect()], and
    [connect(url)] dials the broker again. *)
Theorem closeConnection_then env cenv w :
  let w' := fst (closeConnection cenv w) in
  (forall cenv', closeConnection cenv' w' = (w', [])) /\
  (forall ex q rk message,
     Publisher.publishMessage env ex q rk message w' =
     (Throw "No RabbitMQ connection available. Call connect() first.", w')) /\
  (forall fuel url c,
     amqp_connect env (trace w) (Some url) = Ok c ->
     exists w'',
       connect fuel env url w' = Some (Ok c, w'') /\
       trace w'' = trace w ++ [EvConnect (Some url)] /\
       connection (state w'') = Some c /\
       connectionUrl (state w'') = Some url).
Proof.
  intros w'. subst w'. rewrite closeConnection_world.
  split; [|split].
  - intros cenv'. destruct w as [[c ch u r n] t]. reflexivity.
  - intros. apply no_connection_publishMessage; reflexivity.
  - intros fuel url c Hc. unfold connect, forceCleanup. simpl. rewrite Hc.
    eexists. split; [reflexivity|]. simpl. auto.
Qed.

(** X6.  The ['close'] observer of the connection cannot tell a graceful
    shutdown from a lost connection: when it runs after [closeConnection]
    (no reconnection in progress, attempts left) and the broker is
    reachable, the process waits, dials the stored URL and holds a
    connection and a channel again. *)
Theorem close_event_after_shutdown_reconnects cenv env w c ch :
  isReconnecting (state w) = false ->
  (reconnectAttempts (state w) < MAX_RECONNECT_ATTEMPTS)%nat ->
  amqp_connect env (trace w ++ [EvDelay RECONNECT_DELAY_MS])
    (connectionUrl (state w)) = Ok c ->
  createChannel env
    (trace w ++ [EvDelay RECONNECT_DELAY_MS; EvConnect (connectionUrl (state w))]) c
    = Ok ch ->
  exists w',
    onConnectionClose 1 env (fst (closeConnection cenv w)) = Some w' /\
    trace w' = trace w ++ [EvDelay RECONNECT_DELAY_MS;
                           EvConnect (connectionUrl (state w));
                           EvCreateChannel c] /\
    connection (state w') = Some c /\
    channel (state w') = Some ch /\
    isReconnecting (state w') = false /\
    reconnectAttempts (state w') = 0%nat.
Proof.
  intros Hflag Hlt Hconn Hchan. rewrite closeConnection_world.
  unfold onConnectionClose, handleReconnection, forceCleanup. simpl. rewrite Hflag.
  simpl.
  destruct (Nat.ltb_spec (reconnectAttempts (state w)) MAX_RECONNECT_ATTEMPTS) as [_|];
    [|lia].
  rewrite Hconn. unfold getChannel. simpl.
  rewrite <- app_assoc. simpl. rewrite Hchan.
  eexists. split; [reflexivity|]. simpl. rewrite <- !app_assoc. simpl. auto.
Qed.

Lemma close_event_after_shutdown_reconnects_witness :
  exists w',
    onConnectionClose 1 Scenario.broker_up Cases.shut_down = Some w' /\
    trace w' = trace Scenario.connected ++
               [EvDelay 5000; EvConnect (Some "amqp://localhost"); EvCreateChannel 3%nat] /\
    connection (state w') = Some 3%nat /\
    channel (state w') = Some 4%nat /\
    isReconnecting (state w') = false /\
    reconnectAttempts (state w') = 0%nat.
Proof.
  apply (close_event_after_shutdown_reconnects Cases.closing_ok Scenario.broker_up
           Scenario.connected 3%nat 4%nat).
  - reflexivity.
  - unfold MAX_RECONNECT_ATTEMPTS. simpl. lia.
  - reflexivity.
  - reflexivity.
Defined.

(** ** Reconnection, whatever the broker does *)

Lemma delayed_connects_attempt ms u rest :
  delayed_connects ms (EvDelay ms :: EvConnect u :: rest) = delayed_connects ms rest.
Proof. simpl. now rewrite Z.eqb_refl. Qed.

Lemma reconnectLoop_dials_stored_url fuel env :
  forall w w',
    reconnectLoop fuel env w = Some w' ->
    connectionUrl (state w') = connectionUrl (state w) /\
    exists evs,
      trace w' = trace w ++ evs /\
      Forall (fun e => forall u, e = EvConnect u -> u = connectionUrl (state w)) evs /\
      delayed_connects RECONNECT_DELAY_MS evs = true.
Proof.
  induction fuel as [|f IH]; intros w w' Hrun.
  - simpl in Hrun.
    destruct (Nat.ltb (reconnectAttempts (state w)) MAX_RECONNECT_ATTEMPTS);
      [discriminate|].
    inversion Hrun; subst. split; [reflexivity|].
    exists []. simpl. rewrite app_nil_r. auto.
  - destruct (Nat.lt_ge_cases (reconnectAttempts (state w)) MAX_RECONNECT_ATTEMPTS)
      as [Hlt|Hge].
    + rewrite ConnectionFacts.reconnectLoop_step in Hrun by assumption.
      cbv zeta in Hrun.
      destruct (amqp_connect env _ _) as [c|e].
      * unfold getChannel in Hrun. simpl in Hrun.
        destruct (createChannel env _ c) as [ch|e].
        -- inversion Hrun; subst. simpl. split; [reflexivity|].
           exists [EvDelay RECONNECT_DELAY_MS; EvConnect (connectionUrl (state w));
                   EvCreateChannel c].
           rewrite <- !app_assoc. simpl. split; [reflexivity|]. split; [|reflexivity].
           repeat constructor; intros u Hu; congruence.
        -- apply IH in Hrun. destruct Hrun as [Hurl [evs [Htr [Hall Hdel]]]].
           simpl in *. split; [exact Hurl|].
           exists ([EvDelay RECONNECT_DELAY_MS; EvConnect (connectionUrl (state w));
                    EvCreateChannel c] ++ evs).
           split; [rewrite Htr; now rewrite <- !app_assoc|].
           split; [|exact Hdel].
           repeat constructor; try (intros u Hu; congruence). exact Hall.
      * apply IH in Hrun. destruct Hrun as [Hurl [evs [Htr [Hall Hdel]]]].
        simpl in *. split; [exact Hurl|].
        exists ([EvDelay RECONNECT_DELAY_MS; EvConnect (connectionUrl (state w))] ++ evs).
        split; [rewrite Htr; now rewrite <- !app_assoc|].
        split; [|exact Hdel].
        repeat constructor; try (intros u Hu; congruence). exact Hall.
    + rewrite ConnectionFacts.reconnect_exhausted in Hrun by exact Hge.
      inversion Hrun; subst. split; [reflexivity|].
      exists []. simpl. rewrite app_nil_r. auto.
Qed.

(** X7.  Whatever the broker does, a run of [handleReconnection] that ends
    has dialled only the URL stored by the last [connect(url)], each
    [amqp.connect] coming right after the fixed wait, and it leaves the
    stored URL as it was. *)
Theorem reconnection_dials_stored_url fuel env w w' :
  handleReconnection fuel env w = Some w' ->
  connectionUrl (state w') = connectionUrl (state w) /\
  exists evs,
    trace w' = trace w ++ evs /\
    Forall (fun e => forall u, e = EvConnect u -> u = connectionUrl (state w)) evs /\
    delayed_connects RECONNECT_DELAY_MS evs = true.
Proof.
  unfold handleReconnection. destruct (isReconnecting (state w)).
  - intros H. inversion H; subst. split; [reflexivity|].
    exists []. rewrite app_nil_r. auto.
  - intros H. apply reconnectLoop_dials_stored_url in H. exact H.
Qed.

Lemma reconnection_dials_stored_url_witness :
  connectionUrl (state Scenario.after_failed_connect) = Some "amqp://localhost" /\
  exists evs,
    trace Scenario.after_failed_connect =
      trace (log (EvConnect (Some "amqp://localhost"))
               (update (set_connectionUrl (Some "amqp://localhost")) initial)) ++ evs /\
    Forall (fun e => forall u, e = EvConnect u -> u = Some "amqp://localhost") evs /\
    delayed_connects RECONNECT_DELAY_MS evs = true.
Proof.
  apply (reconnection_dials_stored_url 10 Scenario.broker_down
           (log (EvConnect (Some "amqp://localhost"))
              (update (set_connectionUrl (Some "amqp://localhost")) initial))
           Scenario.after_failed_connect).
  reflexivity.
Defined.




(** X9.  Once the reconnection procedure has given up (the counter is at
    the maximum), or while it is in progress, a [connect(url)] whose
    [amqp.connect] fails throws at once: it dials the broker once, does not
    wait and makes no reconnection attempt. *)
Theorem connect_fails_fast_after_giving_up fuel env url w e :
  connection (state w) = None ->
  isReconnecting (state w) = true \/
  (MAX_RECONNECT_ATTEMPTS <= reconnectAttempts (state w))%nat ->
  amqp_connect env (trace w) (Some url) = Throw e ->
  exists w',
    connect fuel env url w = Some (Throw e, w') /\
    trace w' = trace w ++ [EvConnect (Some url)] /\
    connection (state w') = None /\
    reconnectAttempts (state w') = reconnectAttempts (state w).
Proof.
  intros Hconn Hstate Hfail. unfold connect. rewrite Hconn. simpl. rewrite Hfail.
  unfold handleReconnection. simpl.
  destruct (isReconnecting (state w)) eqn:Hflag.
  - eexists. split; [reflexivity|]. simpl. auto.
  - destruct Hstate as [Hr|Hmax]; [discriminate|].
    rewrite ConnectionFacts.reconnect_exhausted by exact Hmax.
    eexists. split; [reflexivity|]. simpl. auto.
Qed.

Lemma connect_fails_fast_after_giving_up_witness :
  exists w',
    connect 0 Scenario.broker_down "amqp://localhost" Scenario.after_failed_connect =
      Some (Throw "connect ECONNREFUSED", w') /\
    trace w' = trace Scenario.after_failed_connect ++
               [EvConnect (Some "amqp://localhost")] /\
    connection (state w') = None /\
    reconnectAttempts (state w') = reconnectAttempts (state Scenario.after_failed_connect).
Proof.
  apply (connect_fails_fast_after_giving_up 0 Scenario.broker_down "amqp://localhost"
           Scenario.after_failed_connect "connect ECONNREFUSED").
  - reflexivity.
  - right. vm_compute. lia.
  - reflexivity.
Defined.

(** X10.  The connection is a singleton: after a [connect] that returned
    a connection, any further [connect], with whatever URL and whatever the
    broker would answer, returns that same connection, dials nothing and
    leaves the stored URL as it is. *)
Theorem connect_singleton fuel env url w c w1 :
  connect fuel env url w = Some (Ok c, w1) ->
  connection (state w1) = Some c /\
  (connection (state w) = None ->
   trace w1 = trace w ++ [EvConnect (Some url)] /\
   connectionUrl (state w1) = Some url /\
   reconnectAttempts (state w1) = 0%nat /\
   isReconnecting (state w1) = false) /\
  (forall fuel' env' url',
     connect fuel' env' url' w1 = Some (Ok c, w1)).
Proof.
  unfold connect. intros H.
  destruct (connection (state w)) as [c0|] eqn:Hc.
  - inversion H; subst. rewrite Hc. repeat split; auto; discriminate.
  - simpl in H.
    destruct (amqp_connect env (trace w) (Some url)) as [c1|e].
    + inversion H; subst. simpl. repeat split; auto.
    + destruct (handleReconnection fuel env _); discriminate.
Qed.

Lemma connect_singleton_witness :
  connection (state Cases.first_connected) = Some 0%nat /\
  (connection (state initial) = None ->
   trace Cases.first_connected = trace initial ++ [EvConnect (Some "amqp://localhost")] /\
   connectionUrl (state Cases.first_connected) = Some "amqp://localhost" /\
   reconnectAttempts (state Cases.first_connected) = 0%nat /\
   isReconnecting (state Cases.first_connected) = false) /\
  (forall fuel' env' url',
     connect fuel' env' url' Cases.first_connected =
     Some (Ok 0%nat, Cases.first_connected)).
Proof.
  apply (connect_singleton 0 Scenario.broker_up "amqp://localhost" initial).
  reflexivity.
Defined.

End LifecycleFacts.

(** * Commands in a fixed order, up to the first failure *)

Module ScriptFacts.
Import Amqp Observe Constants Script TraceFacts.
Local Open Scope string_scope.
Local Open Scope list_scope.













Lemma consumeMessages_unfold env ex q rk onMessage w ch w1 :
  Connection.getChannel env w = (Ok ch, w1) ->
  Consumer.consumeMessages env ex q rk onMessage w =
  match Publisher.provision env ch ex q rk w1 with
  | (Throw e, w2) => (Throw e, w2)
  | (Ok _, w2) =>
      bind (call env ch (prefetch prefetchCount))
        (fun _ => call env ch (consume (q_name q) {| opt_noAck := noAck |})) w2
  end.
Proof.
  intros Hget. unfold Consumer.consumeMessages.
  rewrite try_catch_rethrow. unfold bind at 1. rewrite Hget.
  unfold bind at 1. rewrite PublisherFacts.consumer_provision_same.
  destruct (Publisher.provision env ch ex q rk w1) as [[[]|e] w2]; reflexivity.
Qed.



(** X13.  A queue configuration that is named [email.queue] and carries
    no [arguments] can neither be published to nor consumed from: on a
    channel that takes every command, the call asserts [dlx.exchange] and
    [email.dlq] and then throws the TypeError of reading the dead-letter
    routing key.  The main exchange and the main queue are never asserted,
    nothing is published and no subscription is made. *)
Theorem queue_without_arguments_is_refused env ex q rk w ch w1 :
  Connection.getChannel env w = (Ok ch, w1) ->
  accepting env ch ->
  q_name q = q_name EMAIL_QUEUE ->
  arguments (q_options q) = None ->
  let outcome :=
    (Throw "Cannot read properties of undefined (reading 'x-dead-letter-routing-key')",
     extend w1 [EvChannel ch assert_dlx; EvChannel ch (assert_queue EMAIL_DLQ)]) in
  (forall message, Publisher.publishMessage env ex q rk message w = outcome) /\
  (forall onMessage,
     Consumer.consumeMessages env ex q rk onMessage w =
     (Throw "Cannot read properties of undefined (reading 'x-dead-letter-routing-key')",
      extend w1 [EvChannel ch assert_dlx; EvChannel ch (assert_queue EMAIL_DLQ)])).
Proof.
  intros Hget Hacc Hname Hargs outcome.
  assert (Hprov : Publisher.provision env ch ex q rk w1 =
                  (Throw "Cannot read properties of undefined (reading 'x-dead-letter-routing-key')",
                   extend w1 [EvChannel ch assert_dlx;
                              EvChannel ch (assert_queue EMAIL_DLQ)])).
  { rewrite (PublisherFacts.provision_run env ch ex q rk w1 Hacc).
    unfold Publisher.findDLQForQueue, Publisher.deadLetterRoutingKey.
    rewrite Hname, Hargs. reflexivity. }
  split.
  - intros message.
    rewrite (PublisherFacts.publishMessage_run env ex q rk message w ch w1 Hget), Hprov.
    reflexivity.
  - intros onMessage.
    rewrite (consumeMessages_unfold env ex q rk onMessage w ch w1 Hget), Hprov.
    reflexivity.
Qed.

Lemma queue_without_arguments_is_refused_witness :
  (forall message,
     Publisher.publishMessage Scenario.broker_up ORDER_EXCHANGE Cases.EMAIL_QUEUE_plain
       ORDER_CREATED message Scenario.connected =
     (Throw "Cannot read properties of undefined (reading 'x-dead-letter-routing-key')",
      extend Scenario.connected
        [EvChannel 1%nat assert_dlx; EvChannel 1%nat (assert_queue EMAIL_DLQ)])) /\
  (forall onMessage,
     Consumer.consumeMessages Scenario.broker_up ORDER_EXCHANGE Cases.EMAIL_QUEUE_plain
       ORDER_CREATED onMessage Scenario.connected =
     (Throw "Cannot read properties of undefined (reading 'x-dead-letter-routing-key')",
      extend Scenario.connected
        [EvChannel 1%nat assert_dlx; EvChannel 1%nat (assert_queue EMAIL_DLQ)])).
Proof.
  apply (queue_without_arguments_is_refused Scenario.broker_up ORDER_EXCHANGE
           Cases.EMAIL_QUEUE_plain ORDER_CREATED Scenario.connected 1%nat
           Scenario.connected).
  - reflexivity.
  - intros h c. reflexivity.
  - reflexivity.
  - reflexivity.
Defined.

(** ** Runs that leave the connection manager alone *)

Lemma steady_ret A f (a : A) : steady f (ret a).
Proof. intros w. exists []. simpl. now rewrite extend_nil. Qed.

Lemma steady_throw A f e : steady f (@throw A e).
Proof. intros w. exists []. simpl. now rewrite extend_nil. Qed.

Lemma steady_lift A f (r : result A) : steady f (lift r).
Proof. intros w. exists []. simpl. now rewrite extend_nil. Qed.

Lemma steady_call f env ch c :
  f (EvChannel ch c) = true -> steady f (call env ch c).
Proof.
  intros Hf w. exists [EvChannel ch c]. unfold call.
  destruct (channel_call env (trace w) ch c); simpl; now rewrite Hf, log_extend.
Qed.

Lemma steady_call_publish f env ch c :
  f (EvChannel ch c) = true -> steady f (call_publish env ch c).
Proof.
  intros Hf w. exists [EvChannel ch c]. unfold call_publish.
  destruct (channel_call env (trace w) ch c); simpl; now rewrite Hf, log_extend.
Qed.

Lemma steady_bind A B f (m : M A) (k : A -> M B) :
  steady f m -> (forall a, steady f (k a)) -> steady f (bind m k).
Proof.
  intros Hm Hk w. unfold bind. destruct (Hm w) as [e1 [H1 F1]].
  destruct (m w) as [[a|e] w1]; simpl in *.
  - destruct (Hk a w1) as [e2 [H2 F2]]. exists (e1 ++ e2).
    rewrite H2, H1, extend_extend, forallb_app, F1, F2. auto.
  - exists e1. auto.
Qed.

Lemma steady_try_catch A f (m : M A) (h : string -> M A) :
  steady f m -> (forall e, steady f (h e)) -> steady f (try_catch m h).
Proof.
  intros Hm Hh w. unfold try_catch. destruct (Hm w) as [e1 [H1 F1]].
  destruct (m w) as [[a|e] w1]; simpl in *.
  - exists e1. auto.
  - destruct (Hh e w1) as [e2 [H2 F2]]. exists (e1 ++ e2).
    rewrite H2, H1, extend_extend, forallb_app, F1, F2. auto.
Qed.

Lemma on_channel_same ch c : on_channel ch (EvChannel ch c) = true.
Proof. simpl. apply Nat.eqb_refl. Qed.

Lemma steady_provision env ch ex q rk :
  steady (on_channel ch) (Publisher.provision env ch ex q rk).
Proof.
  unfold Publisher.provision.
  repeat (apply steady_bind; intros);
    try (apply steady_call; apply on_channel_same).
  destruct (Publisher.findDLQForQueue (q_name q)).
  - repeat (apply steady_bind; intros);
      try (apply steady_call; apply on_channel_same).
    apply steady_lift.
  - apply steady_ret.
Qed.

(** What [publishMessage] does once it has its channel. *)
Lemma steady_publish_on env ch ex q rk message :
  steady (on_channel ch)
    (bind (Publisher.provision env ch ex q rk)
       (fun _ =>
          bind (lift (Publisher.serialize message))
            (fun messageBuffer =>
               bind (call_publish env ch
                       (publish (ex_name ex) rk messageBuffer MESSAGE_OPTIONS))
                 (fun published => if published then ret true else ret false)))).
Proof.
  apply steady_bind; [apply steady_provision|intros _].
  apply steady_bind; [apply steady_lift|intros buf].
  apply steady_bind; [apply steady_call_publish; apply on_channel_same|intros b].
  destruct b; apply steady_ret.
Qed.

(** X14.  After the channel observers have run (['error'] or ['close'] on
    the channel) while a connection is held, the next [publishMessage]
    asks that connection for a new channel and, when it is granted, sends
    every one of its commands on the new channel, which becomes the
    singleton kept for later calls. *)
Theorem publish_after_channel_loss env ex q rk message w c ch' w0 :
  w0 = Shutdown.onChannelError w \/ w0 = Shutdown.onChannelClose w ->
  connection (state w) = Some c ->
  createChannel env (trace w) c = Ok ch' ->
  exists evs,
    trace (snd (Publisher.publishMessage env ex q rk message w0)) =
      trace w ++ EvCreateChannel c :: evs /\
    forallb (on_channel ch') evs = true /\
    channel (state (snd (Publisher.publishMessage env ex q rk message w0))) = Some ch' /\
    connection (state (snd (Publisher.publishMessage env ex q rk message w0))) = Some c.
Proof.
  intros Hw0 Hconn Hnew.
  assert (Hget : Connection.getChannel env w0 =
                 (Ok ch', update (set_channel (Some ch')) (log (EvCreateChannel c) w0))).
  { destruct Hw0; subst w0; unfold Connection.getChannel; simpl;
      rewrite Hconn, Hnew; reflexivity. }
  destruct (steady_publish_on env ch' ex q rk message
              (update (set_channel (Some ch')) (log (EvCreateChannel c) w0)))
    as [evs [Hrun Hall]].
  assert (Hpub : snd (Publisher.publishMessage env ex q rk message w0) =
                 extend (update (set_channel (Some ch')) (log (EvCreateChannel c) w0))
                   evs).
  { unfold Publisher.publishMessage. rewrite try_catch_rethrow.
    unfold bind at 1. rewrite Hget. exact Hrun. }
  exists evs. rewrite Hpub. simpl.
  split; [destruct Hw0; subst w0; simpl; now rewrite <- app_assoc|].
  split; [exact Hall|].
  destruct Hw0; subst w0; simpl; auto.
Qed.

Lemma publish_after_channel_loss_witness :
  exists evs,
    trace (snd (Publisher.publishMessage Scenario.broker_up ORDER_EXCHANGE EMAIL_QUEUE
                  ORDER_CREATED (Json.VJson Scenario.order) Cases.channel_lost)) =
      trace Scenario.connected ++ EvCreateChannel 0%nat :: evs /\
    forallb (on_channel 2%nat) evs = true /\
    channel (state (snd (Publisher.publishMessage Scenario.broker_up ORDER_EXCHANGE
                           EMAIL_QUEUE ORDER_CREATED (Json.VJson Scenario.order)
                           Cases.channel_lost))) = Some 2%nat /\
    connection (state (snd (Publisher.publishMessage Scenario.broker_up ORDER_EXCHANGE
                              EMAIL_QUEUE ORDER_CREATED (Json.VJson Scenario.order)
                              Cases.channel_lost))) = Some 0%nat.
Proof.
  apply (publish_after_channel_loss Scenario.broker_up ORDER_EXCHANGE EMAIL_QUEUE
           ORDER_CREATED (Json.VJson Scenario.order) Scenario.connected 0%nat 2%nat
           Cases.channel_lost).
  - right. reflexivity.
  - reflexivity.
  - reflexivity.
Defined.

End ScriptFacts.

(** * The consumer callback on a channel that may throw *)

Module CallbackFacts.
Import Amqp Observe Consumer TraceFacts.
Local Open Scope string_scope.
Local Open Scope list_scope.





End CallbackFacts.

(** * The email pattern *)

Module RegExpFacts.
Import Json RegExp.
Local Open Scope list_scope.
Local Open Scope Z_scope.

Lemma lang_cat_inv r1 r2 s :
  lang (Cat r1 r2) s -> exists s1 s2, s = s1 ++ s2 /\ lang r1 s1 /\ lang r2 s2.
Proof. intros H. inversion H; subst. eauto. Qed.

Lemma lang_alt_inv r1 r2 s : lang (Alt r1 r2) s -> lang r1 s \/ lang r2 s.
Proof. intros H. inversion H; subst; auto. Qed.

(** A non-empty string of [r*] starts with a non-empty string of [r]. *)
Lemma lang_star_cons_inv r c s :
  lang (Star r) (c :: s) ->
  exists s1 s2, s = s1 ++ s2 /\ lang r (c :: s1) /\ lang (Star r) s2.
Proof.
  intros H. remember (Star r) as r0 eqn:Hr. remember (c :: s) as s0 eqn:Hs.
  revert c s Hs. induction H; intros c0 s0 Hs; try discriminate.
  inversion Hr; subst r0. destruct s1 as [|a s1].
  - simpl in Hs. apply (IHlang2 eq_refl c0 s0 Hs).
  - simpl in Hs. inversion Hs; subst. eauto.
Qed.

Lemma lang_class_inv p s : lang (Class p) s -> exists c, s = [c] /\ p c = true.
Proof. intros H. inversion H; subst. eauto. Qed.

Lemma nullable_lang r : nullable r = true <-> lang r [].
Proof.
  induction r; simpl.
  - split; [discriminate|intros H; inversion H].
  - split; [constructor|reflexivity].
  - split; [discriminate|intros H; inversion H].
  - rewrite andb_true_iff, IHr1, IHr2. split.
    + intros [H1 H2]. change (@nil Z) with (@nil Z ++ []). now constructor.
    + intros H. apply lang_cat_inv in H. destruct H as [s1 [s2 [Hs [H1 H2]]]].
      symmetry in Hs. apply app_eq_nil in Hs. destruct Hs; subst. auto.
  - rewrite orb_true_iff, IHr1, IHr2. split.
    + intros [H|H]; [now apply lang_alt_l|now apply lang_alt_r].
    + apply lang_alt_inv.
  - split; [constructor|reflexivity].
Qed.

Lemma deriv_lang r : forall c s, lang (deriv c r) s <-> lang r (c :: s).
Proof.
  induction r; intros c s; simpl.
  - split; intros H; inversion H.
  - split; intros H; inversion H.
  - destruct (p c) eqn:Hp; split; intros H; inversion H; subst.
    + now constructor.
    + constructor.
    + congruence.
  - destruct (nullable r1) eqn:Hn.
    + split.
      * intros H. apply lang_alt_inv in H. destruct H as [H|H].
        -- apply lang_cat_inv in H. destruct H as [s1 [s2 [Hs [H1 H2]]]]. subst s.
           apply IHr1 in H1. change (c :: s1 ++ s2) with ((c :: s1) ++ s2).
           now constructor.
        -- apply IHr2 in H. change (c :: s) with ([] ++ c :: s).
           constructor; [now apply nullable_lang|exact H].
      * intros H. apply lang_cat_inv in H. destruct H as [s1 [s2 [Hs [H1 H2]]]].
        destruct s1 as [|a s1]; simpl in Hs.
        -- subst s2. apply lang_alt_r. now apply IHr2.
        -- inversion Hs; subst. apply lang_alt_l. constructor; [now apply IHr1|exact H2].
    + split.
      * intros H. apply lang_cat_inv in H. destruct H as [s1 [s2 [Hs [H1 H2]]]]. subst s.
        apply IHr1 in H1. change (c :: s1 ++ s2) with ((c :: s1) ++ s2).
        now constructor.
      * intros H. apply lang_cat_inv in H. destruct H as [s1 [s2 [Hs [H1 H2]]]].
        destruct s1 as [|a s1]; simpl in Hs.
        -- apply nullable_lang in H1. congruence.
        -- inversion Hs; subst. constructor; [now apply IHr1|exact H2].
  - split.
    + intros H. apply lang_alt_inv in H.
      destruct H as [H|H]; [apply lang_alt_l; now apply IHr1|apply lang_alt_r; now apply IHr2].
    + intros H. apply lang_alt_inv in H.
      destruct H as [H|H]; [apply lang_alt_l; now apply IHr1|apply lang_alt_r; now apply IHr2].
  - split.
    + intros H. apply lang_cat_inv in H. destruct H as [s1 [s2 [Hs [H1 H2]]]]. subst s.
      apply IHr in H1. change (c :: s1 ++ s2) with ((c :: s1) ++ s2).
      now constructor.
    + intros H. apply lang_star_cons_inv in H. destruct H as [s1 [s2 [Hs [H1 H2]]]].
      subst s. constructor; [now apply IHr|exact H2].
Qed.

(** The matcher decides the strings of the pattern. *)
Lemma matches_lang s : forall r, matches r s = true <-> lang r s.
Proof.
  unfold matches. induction s as [|c s IH]; intros r; simpl.
  - apply nullable_lang.
  - rewrite IH. apply deriv_lang.
Qed.

Lemma lang_class_star p s :
  lang (Star (Class p)) s <-> forallb p s = true.
Proof.
  induction s as [|c s IH]; simpl.
  - split; [reflexivity|constructor].
  - rewrite andb_true_iff, <- IH. split.
    + intros H. apply lang_star_cons_inv in H. destruct H as [s1 [s2 [Hs [H1 H2]]]].
      apply lang_class_inv in H1. destruct H1 as [c' [Heq Hc]].
      inversion Heq; subst. simpl. auto.
    + intros [Hp H]. change (c :: s) with ([c] ++ s).
      constructor; [now constructor|exact H].
Qed.

(** [[p]+] is a non-empty string of code units of the class. *)
Lemma lang_class_plus p s :
  lang (Plus (Class p)) s <-> s <> [] /\ forallb p s = true.
Proof.
  unfold Plus. split.
  - intros H. apply lang_cat_inv in H. destruct H as [s1 [s2 [Hs [H1 H2]]]].
    apply lang_class_inv in H1. destruct H1 as [c [-> Hc]].
    apply lang_class_star in H2. subst s. simpl.
    split; [discriminate|]. now rewrite Hc, H2.
  - intros [Hne Hall]. destruct s as [|c s]; [congruence|].
    simpl in Hall. apply andb_true_iff in Hall. destruct Hall as [Hc Hs].
    change (c :: s) with ([c] ++ s).
    constructor; [now constructor|now apply lang_class_star].
Qed.

Lemma lang_chr c s : lang (Chr c) s <-> s = [c].
Proof.
  unfold Chr. split.
  - intros H. apply lang_class_inv in H. destruct H as [c' [-> Hc]].
    apply Z.eqb_eq in Hc. now subst.
  - intros ->. constructor. apply Z.eqb_refl.
Qed.

(** X16.  The pattern with which both services check [customerEmail]
    accepts exactly the strings [local@domain.tld] in which [local],
    [domain] and [tld] are non-empty and contain neither white space nor
    [@]: one [@] only, no white space anywhere, and a dot after the [@]
    with something on both sides of it. *)
Theorem emailRegex_accepts s :
  matches emailRegex s = true <->
  exists local domain tld,
    s = local ++ 64 :: domain ++ 46 :: tld /\
    local <> [] /\ domain <> [] /\ tld <> [] /\
    forallb not_space_or_at local = true /\
    forallb not_space_or_at domain = true /\
    forallb not_space_or_at tld = true.
Proof.
  rewrite matches_lang. unfold emailRegex. split.
  - intros H.
    apply lang_cat_inv in H. destruct H as [a [s1 [-> [Ha H]]]].
    apply lang_cat_inv in H. destruct H as [at_ [s2 [-> [Hat H]]]].
    apply lang_cat_inv in H. destruct H as [b [s3 [-> [Hb H]]]].
    apply lang_cat_inv in H. destruct H as [dot [c [-> [Hdot Hc]]]].
    apply lang_chr in Hat, Hdot. subst at_ dot.
    apply lang_class_plus in Ha, Hb, Hc.
    destruct Ha as [Ha1 Ha2], Hb as [Hb1 Hb2], Hc as [Hc1 Hc2].
    exists a, b, c. simpl. repeat split; auto.
  - intros [a [b [c [-> [Ha1 [Hb1 [Hc1 [Ha2 [Hb2 Hc2]]]]]]]]].
    constructor; [apply lang_class_plus; auto|].
    change (64 :: b ++ 46 :: c) with ([64] ++ b ++ 46 :: c).
    constructor; [now apply lang_chr|].
    constructor; [apply lang_class_plus; auto|].
    change (46 :: c) with ([46] ++ c).
    constructor; [now apply lang_chr|apply lang_class_plus; auto].
Qed.

(** The pattern at work. *)
Example email_accepted :
  matches emailRegex (str "customer@example.com") = true /\
  matches emailRegex (str "a.b+c@mail.example.co.uk") = true.
Proof. split; vm_compute; reflexivity. Qed.

Example email_refused :
  matches emailRegex (str "customer@example") = false /\
  matches emailRegex (str "customer example@x.com") = false /\
  matches emailRegex (str "a@b@example.com") = false /\
  matches emailRegex (str "@example.com") = false /\
  matches emailRegex (str "customer@.com") = false /\
  matches emailRegex (str "customer@example.") = false /\
  matches emailRegex [] = false.
Proof. repeat split; vm_compute; reflexivity. Qed.

(** [regex.test] converts its argument: an array of one address passes,
    an object does not, and an object with an own [toString] throws. *)
Example test_converts_its_argument :
  test emailRegex (VJson (JArr [JStr (str "customer@example.com")])) = Ok true /\
  test emailRegex (VJson (JObj [(str "email", JStr (str "customer@example.com"))]))
    = Ok false /\
  test emailRegex (VJson (JObj [(str "toString", JNull)]))
    = Throw "Cannot convert object to primitive value" /\
  Values.ToString (JArr [JStr (str "a"); JNull; JNum (mkNumber false [1; 5] 1);
                         JArr [JBool true; JStr (str "b")]])
    = Ok (str "a,,1.5,true,b").
Proof. repeat split; vm_compute; reflexivity. Qed.

End RegExpFacts.

(** * The email service *)

Module EmailFacts.
Import Amqp Observe Json Values RegExp Checks EmailService TraceFacts.
Local Open Scope string_scope.
Local Open Scope list_scope.

Section Service.

Variable generateEmailContent : jsvalue -> result jsstring.
Variable Math_random : list Event -> number.

(** A nullish value has no truthy field. *)
Lemma nullish_validates v : nullish v = true -> validates v = false.
Proof. destruct v as [[]| |]; simpl; try discriminate; reflexivity. Qed.

(** The run of [sendOrderConfirmationEmail], case by case. *)
Lemma sendOrderConfirmationEmail_run orderData w :
  sendOrderConfirmationEmail generateEmailContent Math_random orderData w =
  if validates orderData then
    match ToStringV (GetV orderData "orderId"), generateEmailContent orderData with
    | Ok _, Ok _ =>
        (Ok (negb (simulated_failure (Math_random (trace w ++ [EvDelay 1000])))),
         extend w [EvDelay 1000])
    | _, _ => (Ok false, w)
    end
  else (Ok false, w).
Proof.
  unfold sendOrderConfirmationEmail, try_catch.
  destruct (nullish orderData) eqn:Hnull.
  { rewrite (nullish_validates _ Hnull). reflexivity. }
  unfold validates, email_matches.
  destruct (ToBoolean (GetV orderData "orderId")); [|reflexivity].
  destruct (ToBoolean (GetV orderData "customerEmail")); [|reflexivity].
  destruct (ToBoolean (GetV orderData "items")); [|reflexivity].
  destruct (ToBoolean (GetV orderData "total")); [|reflexivity].
  cbn [negb orb andb]. unfold bind at 1. unfold lift at 1.
  destruct (test emailRegex (GetV orderData "customerEmail")) as [[|]|e];
    [|reflexivity|reflexivity].
  cbn [negb]. unfold bind at 1. unfold lift at 1.
  destruct (ToStringV (GetV orderData "orderId")) as [s|e]; [|reflexivity].
  unfold bind at 1. unfold lift at 1.
  destruct (generateEmailContent orderData) as [text|e]; [|reflexivity].
  unfold bind, delay, random, simulated_failure. cbn [fst snd trace log].
  destruct (number_ltb _ _); reflexivity.
Qed.

(** X17.  [sendOrderConfirmationEmail] never throws, and it answers
    [true] in one case only: the four fields are truthy, [customerEmail]
    matches the pattern, the order number can be written in the subject
    line, the text of the email can be built, the simulated sending time of
    one second has been waited and the random draw is not below 0.05.
    When a field is missing or the address does not match, it answers
    [false] at once, without waiting and without drawing. *)
Theorem sendOrderConfirmationEmail_answers orderData w :
  (exists b w',
     sendOrderConfirmationEmail generateEmailContent Math_random orderData w =
     (Ok b, w')) /\
  (forall w',
     sendOrderConfirmationEmail generateEmailContent Math_random orderData w =
     (Ok true, w') <->
     validates orderData = true /\
     (exists subject, ToStringV (GetV orderData "orderId") = Ok subject) /\
     (exists text, generateEmailContent orderData = Ok text) /\
     simulated_failure (Math_random (trace w ++ [EvDelay 1000])) = false /\
     w' = extend w [EvDelay 1000]) /\
  (validates orderData = false ->
   sendOrderConfirmationEmail generateEmailContent Math_random orderData w =
   (Ok false, w)).
Proof.
  rewrite sendOrderConfirmationEmail_run.
  destruct (validates orderData).
  - destruct (ToStringV (GetV orderData "orderId")) as [subject|e].
    + destruct (generateEmailContent orderData) as [text|e].
      * split; [eauto|]. split; [|discriminate]. intros w'. split.
        -- intros H. inversion H; subst.
           repeat split; eauto.
           now destruct (simulated_failure _).
        -- intros [_ [_ [_ [Hr ->]]]]. now rewrite Hr.
      * split; [eauto|]. split; [|discriminate]. intros w'. split.
        -- discriminate.
        -- intros [_ [_ [[text Ht] _]]]. discriminate.
    + split; [eauto|]. split; [|discriminate]. intros w'. split.
      * discriminate.
      * intros [_ [[subject Hs] _]]. discriminate.
  - split; [eauto|]. split; [|reflexivity]. intros w'. split.
    + discriminate.
    + intros [H _]. discriminate.
Qed.

(** The run of [processOrderMessage]. *)
Lemma processOrderMessage_run message w :
  processOrderMessage generateEmailContent Math_random message w =
  if is_order_created message
  then sendOrderConfirmationEmail generateEmailContent Math_random message w
  else (Ok false, w).
Proof.
  unfold processOrderMessage, is_order_created, try_catch.
  destruct (nullish message) eqn:Hnull.
  { destruct message as [[]| |]; simpl in *; try discriminate; reflexivity. }
  destruct (strict_equal_string _ _); [|reflexivity].
  cbn [negb]. unfold bind.
  rewrite sendOrderConfirmationEmail_run.
  destruct (validates message); [|reflexivity].
  destruct (ToStringV _); [|reflexivity].
  destruct (generateEmailContent message); [|reflexivity].
  destruct (simulated_failure _); reflexivity.
Qed.

(** X18.  [processOrderMessage] never throws: every failure inside it is
    turned into the answer [false].  A message whose [eventType] is not the
    string [order.created] (a message of another kind, a message without
    the field, a payload that is not an object, [null]) is answered [false]
    at once: no email is prepared and nothing is waited for. *)
Theorem processOrderMessage_answers message w :
  (exists b w',
     processOrderMessage generateEmailContent Math_random message w = (Ok b, w') /\
     state w' = state w) /\
  (is_order_created message = false ->
   processOrderMessage generateEmailContent Math_random message w = (Ok false, w)) /\
  (forall w',
     processOrderMessage generateEmailContent Math_random message w = (Ok true, w') ->
     is_order_created message = true /\ validates message = true /\
     w' = extend w [EvDelay 1000]).
Proof.
  rewrite processOrderMessage_run.
  destruct (is_order_created message).
  - rewrite sendOrderConfirmationEmail_run.
    destruct (validates message).
    + destruct (ToStringV _).
      * destruct (generateEmailContent message).
        -- split; [eexists; eexists; split; reflexivity|].
           split; [discriminate|]. intros w' H. inversion H; subst. auto.
        -- split; [eexists; eexists; split; reflexivity|].
           split; [discriminate|]. intros w' H. discriminate.
      * split; [eexists; eexists; split; reflexivity|].
        split; [discriminate|]. intros w' H. discriminate.
    + split; [eexists; eexists; split; reflexivity|].
      split; [discriminate|]. intros w' H. discriminate.
  - split; [eexists; eexists; split; reflexivity|].
    split; [reflexivity|]. intros w' H. discriminate.
Qed.

(** The handler given to [consumeMessages] answers with a boolean. *)
Lemma onMessage_run history payload :
  onMessage generateEmailContent Math_random history payload =
  Ok (VJson (JBool
    (is_order_created (VJson payload) && validates (VJson payload) &&
     match ToStringV (GetV (VJson payload) "orderId"),
           generateEmailContent (VJson payload) with
     | Ok _, Ok _ =>
         negb (simulated_failure (Math_random (history ++ [EvDelay 1000])))
     | _, _ => false
     end))).
Proof.
  unfold onMessage. rewrite processOrderMessage_run.
  destruct (is_order_created (VJson payload)); [|reflexivity].
  rewrite sendOrderConfirmationEmail_run.
  destruct (validates (VJson payload)); [|reflexivity].
  destruct (ToStringV _); [|reflexivity].
  destruct (generateEmailContent _); reflexivity.
Qed.

(** X19.  With the handler of the email service, a delivery that parses
    is decided by the checks of the service, on a channel that takes the
    command: it is acknowledged only when its [eventType] is
    [order.created] and its fields pass the checks; a delivery of another
    kind, or with a missing field or an address that does not match, is
    rejected with [nack(msg, false, false)] after one call of the handler.
    The handler itself never makes the callback take its [catch] path. *)
Theorem other_events_are_dead_lettered env ch msg payload w :
  Consumer.deserializeMessage msg = Ok payload ->
  (forall h, channel_call env h ch (ack msg) = None) ->
  (forall h, channel_call env h ch (nack msg false false) = None) ->
  (exists b, onMessage generateEmailContent Math_random (trace w) payload =
             Ok (VJson (JBool b))) /\
  (is_order_created (VJson payload) = false \/ validates (VJson payload) = false ->
   Consumer.onDelivery env ch (onMessage generateEmailContent Math_random)
     (Some msg) w =
   (Ok tt, extend w [EvHandler payload; EvChannel ch (nack msg false false)])) /\
  (decisions
     (events_since w
        (snd (Consumer.onDelivery env ch
                (onMessage generateEmailContent Math_random) (Some msg) w))) =
   [ack msg] ->
   is_order_created (VJson payload) = true /\ validates (VJson payload) = true).
Proof.
  intros Hparse Hack Hnack.
  rewrite (ConsumerFacts.onDelivery_run env ch _ msg w Hack Hnack), Hparse.
  rewrite onMessage_run.
  split; [eauto|]. split.
  - intros [H|H]; rewrite H; cbn [andb ToBoolean]; [reflexivity|].
    now rewrite andb_false_r.
  - cbn [snd].
    match goal with
    | |- context [events_since w (extend w ?evs)] =>
        rewrite (events_since_app w (extend w evs) evs eq_refl)
    end.
    destruct (is_order_created (VJson payload)); cbn [andb ToBoolean].
    + destruct (validates (VJson payload)); cbn [andb ToBoolean]; [auto|].
      simpl. discriminate.
    + simpl. discriminate.
Qed.

End Service.

Lemma other_events_are_dead_lettered_witness :
  (exists b, onMessage Cases.plain_text Cases.draw_half (trace Scenario.connected)
               Scenario.order = Ok (VJson (JBool b))) /\
  (is_order_created (VJson Scenario.order) = false \/
   validates (VJson Scenario.order) = false ->
   Consumer.onDelivery Scenario.broker_up 1%nat
     (onMessage Cases.plain_text Cases.draw_half)
     (Some Scenario.order_delivery) Scenario.connected =
   (Ok tt, extend Scenario.connected
             [EvHandler Scenario.order;
              EvChannel 1%nat (nack Scenario.order_delivery false false)])) /\
  (decisions
     (events_since Scenario.connected
        (snd (Consumer.onDelivery Scenario.broker_up 1%nat
                (onMessage Cases.plain_text Cases.draw_half)
                (Some Scenario.order_delivery) Scenario.connected))) =
   [ack Scenario.order_delivery] ->
   is_order_created (VJson Scenario.order) = true /\
   validates (VJson Scenario.order) = true).
Proof.
  apply (other_events_are_dead_lettered Cases.plain_text Cases.draw_half
           Scenario.broker_up 1%nat Scenario.order_delivery Scenario.order
           Scenario.connected).
  - apply ConsumerFacts.order_delivery_parses.
  - reflexivity.
  - reflexivity.
Defined.

End EmailFacts.

(** * The order controller *)

Module OrderFacts.
Import Amqp Observe Constants Json Values RegExp Checks OrderController TraceFacts.
Local Open Scope string_scope.
Local Open Scope list_scope.

(** The run of [createOrder], check by check. *)
Lemma createOrder_run env toISOString req_body w :
  createOrder env toISOString req_body w =
  if nullish req_body then
    (Ok (server_error
           "Cannot destructure property 'orderId' of 'req.body' as it is undefined."), w)
  else if negb (ToBoolean (GetV req_body "orderId")) ||
          negb (ToBoolean (GetV req_body "customerEmail")) ||
          negb (ToBoolean (GetV req_body "items")) ||
          negb (ToBoolean (GetV req_body "total"))
  then (Ok (failure 400 "Missing required fields: orderId, customerEmail, items, total"), w)
  else if negb (Array_isArray (GetV req_body "items")) ||
          length_is_zero (GetV req_body "items")
  then (Ok (failure 400 "Items must be a non-empty array"), w)
  else if not_a_number (GetV req_body "total") || le_zero (GetV req_body "total")
  then (Ok (failure 400 "Total must be a positive number"), w)
  else
    match test emailRegex (GetV req_body "customerEmail") with
    | Throw e => (Ok (server_error e), w)
    | Ok false => (Ok (failure 400 "Invalid email format"), w)
    | Ok true =>
        match Publisher.publishMessage env ORDER_EXCHANGE EMAIL_QUEUE ORDER_CREATED
                (VJson (message_of req_body (toISOString (trace w)))) w with
        | (Ok _, w') => (Ok (created (GetV req_body "orderId")), w')
        | (Throw e, w') => (Ok (server_error e), w')
        end
    end.
Proof.
  unfold createOrder, try_catch, message_of.
  destruct (nullish req_body); [reflexivity|].
  destruct (_ || _ || _ || _); [reflexivity|].
  destruct (_ || _); [reflexivity|].
  destruct (_ || _); [reflexivity|].
  unfold bind at 1. unfold lift at 1.
  destruct (test emailRegex (GetV req_body "customerEmail")) as [[|]|e];
    [|reflexivity|reflexivity].
  cbn [negb]. unfold bind at 1. unfold bind at 1.
  destruct (Publisher.publishMessage env _ _ _ _ w) as [[b|e] w']; reflexivity.
Qed.

Ltac settle :=
  eexists; eexists; split; [reflexivity|];
  cbn [status failure created server_error andb negb orb];
  split; [auto|]; split; intros Hs; try discriminate Hs; auto.

(** X20.  [createOrder] never throws and answers 400, 201 or 500.  An
    answer 400 comes before any interaction with the broker: nothing has
    been asserted or published and the connection manager is untouched.
    An answer 201 is given only to a body that passed every check and
    only after [publishMessage] has returned. *)
Theorem createOrder_rejects_without_interaction env toISOString req_body w :
  exists r w',
    createOrder env toISOString req_body w = (Ok r, w') /\
    (status r = 400%Z \/ status r = 201%Z \/ status r = 500%Z) /\
    (status r = 400%Z -> w' = w /\ acceptable req_body = false) /\
    (status r = 201%Z ->
     acceptable req_body = true /\
     exists published,
       Publisher.publishMessage env ORDER_EXCHANGE EMAIL_QUEUE ORDER_CREATED
         (VJson (message_of req_body (toISOString (trace w)))) w =
       (Ok published, w')).
Proof.
  rewrite createOrder_run. unfold acceptable, validates, email_matches.
  destruct (nullish req_body); [settle|].
  destruct (ToBoolean (GetV req_body "orderId")); cbn [negb orb andb]; [|settle].
  destruct (ToBoolean (GetV req_body "customerEmail")); cbn [negb orb andb]; [|settle].
  destruct (ToBoolean (GetV req_body "items")); cbn [negb orb andb]; [|settle].
  destruct (ToBoolean (GetV req_body "total")); cbn [negb orb andb]; [|settle].
  destruct (Array_isArray (GetV req_body "items")); cbn [negb orb andb];
    [|settle; split; auto; now destruct (test _ _) as [[|]|]].
  destruct (length_is_zero (GetV req_body "items")); cbn [negb orb andb];
    [settle; split; auto; now destruct (test _ _) as [[|]|]|].
  destruct (not_a_number (GetV req_body "total")); cbn [negb orb andb];
    [settle; split; auto; now destruct (test _ _) as [[|]|]|].
  destruct (le_zero (GetV req_body "total")); cbn [negb orb andb];
    [settle; split; auto; now destruct (test _ _) as [[|]|]|].
  destruct (test emailRegex (GetV req_body "customerEmail")) as [[|]|e];
    [|settle|settle].
  destruct (Publisher.publishMessage env _ _ _ _ w) as [[b|e] w'] eqn:Hpub;
    [|settle].
  settle. split; eauto.
Qed.

Lemma acceptable_createOrder env toISOString req_body w :
  acceptable req_body = true ->
  createOrder env toISOString req_body w =
  match Publisher.publishMessage env ORDER_EXCHANGE EMAIL_QUEUE ORDER_CREATED
          (VJson (message_of req_body (toISOString (trace w)))) w with
  | (Ok _, w') => (Ok (created (GetV req_body "orderId")), w')
  | (Throw e, w') => (Ok (server_error e), w')
  end.
Proof.
  unfold acceptable, validates, email_matches. intros H.
  repeat (apply andb_prop in H; destruct H as [H ?]).
  rewrite createOrder_run.
  destruct (nullish req_body) eqn:Hnull.
  { destruct req_body as [[]| |]; simpl in *; discriminate. }
  repeat match goal with
         | Hb : negb ?b = true |- _ =>
             apply negb_true_iff in Hb
         end.
  repeat match goal with
         | Hb : ?b = _ |- context [?b] => rewrite Hb
         end.
  cbn [negb orb].
  destruct (test emailRegex (GetV req_body "customerEmail")) as [[|]|e];
    try discriminate.
  reflexivity.
Qed.

(** X21.  For a body that passes the checks, the answer of [createOrder]
    is decided by [publishMessage] alone.  Whenever [publishMessage]
    returns, the answer is 201, also when it returns [false] because the
    write buffer of the channel is full: the returned value is not looked
    at.  Whenever [publishMessage] throws, the answer is 500 and carries
    the message of the error in its [details]. *)
Theorem createOrder_answer_follows_publish env toISOString req_body w :
  acceptable req_body = true ->
  (forall published w',
     Publisher.publishMessage env ORDER_EXCHANGE EMAIL_QUEUE ORDER_CREATED
       (VJson (message_of req_body (toISOString (trace w)))) w = (Ok published, w') ->
     createOrder env toISOString req_body w =
     (Ok (created (GetV req_body "orderId")), w')) /\
  (forall e w',
     Publisher.publishMessage env ORDER_EXCHANGE EMAIL_QUEUE ORDER_CREATED
       (VJson (message_of req_body (toISOString (trace w)))) w = (Throw e, w') ->
     createOrder env toISOString req_body w = (Ok (server_error e), w')).
Proof.
  intros Hacc. rewrite (acceptable_createOrder env toISOString req_body w Hacc).
  split; intros x w' Hpub; now rewrite Hpub.
Qed.

Lemma createOrder_answer_follows_publish_witness :
  createOrder Scenario.broker_buffer_full Cases.noon Cases.order_request
    Scenario.connected =
  (Ok (created (GetV Cases.order_request "orderId")),
   snd (Publisher.publishMessage Scenario.broker_buffer_full ORDER_EXCHANGE
          EMAIL_QUEUE ORDER_CREATED
          (VJson (message_of Cases.order_request
                    (Cases.noon (trace Scenario.connected))))
          Scenario.connected)).
Proof.
  apply (proj1 (createOrder_answer_follows_publish Scenario.broker_buffer_full
                  Cases.noon Cases.order_request Scenario.connected eq_refl) false).
  vm_compute. reflexivity.
Defined.

Lemma unacceptable_createOrder env toISOString req_body w :
  acceptable req_body = false ->
  exists r,
    createOrder env toISOString req_body w = (Ok r, w) /\ status r <> 201%Z.
Proof.
  rewrite createOrder_run. unfold acceptable, validates, email_matches.
  destruct (nullish req_body); [intros _; eexists; split; [reflexivity|discriminate]|].
  destruct (ToBoolean (GetV req_body "orderId")); cbn [negb orb andb];
    [|intros _; eexists; split; [reflexivity|discriminate]].
  destruct (ToBoolean (GetV req_body "customerEmail")); cbn [negb orb andb];
    [|intros _; eexists; split; [reflexivity|discriminate]].
  destruct (ToBoolean (GetV req_body "items")); cbn [negb orb andb];
    [|intros _; eexists; split; [reflexivity|discriminate]].
  destruct (ToBoolean (GetV req_body "total")); cbn [negb orb andb];
    [|intros _; eexists; split; [reflexivity|discriminate]].
  destruct (Array_isArray (GetV req_body "items")); cbn [negb orb andb];
    [|intros _; eexists; split; [reflexivity|discriminate]].
  destruct (length_is_zero (GetV req_body "items")); cbn [negb orb andb];
    [intros _; eexists; split; [reflexivity|discriminate]|].
  destruct (not_a_number (GetV req_body "total")); cbn [negb orb andb];
    [intros _; eexists; split; [reflexivity|discriminate]|].
  destruct (le_zero (GetV req_body "total")); cbn [negb orb andb];
    [intros _; eexists; split; [reflexivity|discriminate]|].
  destruct (test emailRegex (GetV req_body "customerEmail")) as [[|]|e];
    cbn [negb orb andb]; try discriminate;
    intros _; eexists; split; try reflexivity; discriminate.
Qed.

(** ** From the request to the consumer *)


Lemma representable_assoc key m x :
  representable (JObj m) = true -> assoc key m = Some x -> representable x = true.
Proof.
  cbn [representable]. intros H. apply andb_prop in H. destruct H as [_ H].
  induction m as [|[k v] m IH]; simpl in *; [discriminate|].
  apply andb_prop in H. destruct H as [Hkv Hm].
  destruct (jsstring_eqb k key).
  - intros Hx. inversion Hx; subst. apply andb_prop in Hkv. tauto.
  - apply IH. exact Hm.
Qed.

Lemma representable_field v key x :
  representable v = true -> GetV (VJson v) key = VJson x -> representable x = true.
Proof.
  unfold GetV. destruct v as [| | | | |m]; try discriminate.
  intros Hrep. destruct (assoc (str key) m) as [y|] eqn:Hy; [|discriminate].
  intros Hx. inversion Hx; subst. exact (representable_assoc _ _ _ Hrep Hy).
Qed.




(** ** Totals *)

Lemma value_of_digits_from ds : forall a,
  (0 <= a)%Z -> forallb digit_ok ds = true ->
  (a <= fold_left (fun a d => 10 * a + d) ds a)%Z.
Proof.
  induction ds as [|d ds IH]; cbn [fold_left forallb]; intros a Ha Hds; [lia|].
  apply andb_prop in Hds. destruct Hds as [Hd Hds].
  unfold digit_ok in Hd. apply andb_prop in Hd. destruct Hd as [Hd0 Hd9].
  apply Z.leb_le in Hd0, Hd9.
  assert (Hnext : (0 <= 10 * a + d)%Z) by lia.
  specialize (IH (10 * a + d)%Z Hnext Hds). lia.
Qed.

(** The digits of a Number other than zero stand for a positive integer. *)
Lemma mantissa_positive n d ds :
  number_ok n = true -> digits n = d :: ds ->
  (0 < value_of_digits (digits n))%Z.
Proof.
  unfold number_ok. intros Hok Hd. rewrite Hd in *.
  apply andb_prop in Hok. destruct Hok as [Hok _].
  apply andb_prop in Hok. destruct Hok as [Hall Hnz].
  cbn [forallb] in Hall. apply andb_prop in Hall. destruct Hall as [Hd0 Hds].
  unfold digit_ok in Hd0. apply andb_prop in Hd0. destruct Hd0 as [Hd0 _].
  apply Z.leb_le in Hd0. apply negb_true_iff, Z.eqb_neq in Hnz.
  unfold value_of_digits. cbn [fold_left].
  replace (10 * 0 + d)%Z with d by lia.
  pose proof (value_of_digits_from ds d Hd0 Hds). lia.
Qed.

(** [total <= 0] holds of zero and of the negative Numbers. *)
Lemma le_zero_number n :
  number_ok n = true ->
  le_zero (VJson (JNum n)) =
  match digits n with [] => true | _ :: _ => negative n end.
Proof.
  intros Hok. unfold le_zero, number_ltb, mantissa, exponent.
  cbn [digits zero negative pointpos List.length value_of_digits fold_left].
  destruct (digits n) as [|d ds] eqn:Hd.
  - change (value_of_digits []) with 0%Z.
    rewrite ?Z.mul_0_r, ?Z.mul_0_l. reflexivity.
  - pose proof (mantissa_positive n d ds Hok Hd) as Hpos. rewrite Hd in Hpos.
    set (e := Z.min _ _).
    assert (Hpow : (0 < 10 ^ (pointpos n - Z.of_nat (List.length (d :: ds)) - e))%Z).
    { apply Z.pow_pos_nonneg; [lia|]. unfold e. lia. }
    rewrite Z.mul_0_l.
    destruct (negative n).
    + replace (0 <? _)%Z with false; [reflexivity|].
      symmetry. apply Z.ltb_ge. nia.
    + replace (0 <? _)%Z with true; [reflexivity|].
      symmetry. apply Z.ltb_lt. nia.
Qed.

(** X23.  An order that [createOrder] answers with 201 has at least one
    item and a total that is a Number greater than zero: a total of zero,
    a negative total and a total given as a string are never accepted, nor
    is an empty list of items. *)
Theorem accepted_order_has_items_and_positive_total
    env toISOString v w r w' :
  representable v = true ->
  createOrder env toISOString (VJson v) w = (Ok r, w') ->
  status r = 201%Z ->
  (exists item items, GetV (VJson v) "items" = VJson (JArr (item :: items))) /\
  (exists n d ds,
     GetV (VJson v) "total" = VJson (JNum n) /\
     negative n = false /\ digits n = d :: ds).
Proof.
  intros Hrep Hrun Hstatus.
  destruct (acceptable (VJson v)) eqn:Hacc.
  2:{ destruct (unacceptable_createOrder env toISOString (VJson v) w Hacc)
        as [r0 [Hr0 Hne]].
      rewrite Hr0 in Hrun. injection Hrun as <- _. contradiction. }
  unfold acceptable in Hacc.
  repeat (apply andb_prop in Hacc; destruct Hacc as [Hacc ?]).
  repeat match goal with
         | Hb : negb ?b = true |- _ => apply negb_true_iff in Hb
         end.
  split.
  - destruct (GetV (VJson v) "items") as [[| | | |[|item items]|]| |];
      try discriminate. eauto.
  - destruct (GetV (VJson v) "total") as [[| |n| | |]| |] eqn:Htotal;
      try discriminate.
    assert (Hok : number_ok n = true).
    { apply (representable_field v "total" (JNum n) Hrep Htotal). }
    match goal with
    | Hz : le_zero _ = false |- _ => rewrite (le_zero_number n Hok) in Hz
    end.
    destruct (digits n) as [|d ds] eqn:Hd; [discriminate|].
    exists n, d, ds. auto.
Qed.

Lemma accepted_order_has_items_and_positive_total_witness :
  (exists item items,
     GetV (VJson Scenario.order) "items" = VJson (JArr (item :: items))) /\
  (exists n d ds,
     GetV (VJson Scenario.order) "total" = VJson (JNum n) /\
     negative n = false /\ digits n = d :: ds).
Proof.
  apply (accepted_order_has_items_and_positive_total Scenario.broker_up Cases.noon
           Scenario.order Scenario.connected
           (created (GetV Cases.order_request "orderId"))
           (snd (createOrder Scenario.broker_up Cases.noon Cases.order_request
                   Scenario.connected))).
  - vm_compute. reflexivity.
  - vm_compute. reflexivity.
  - vm_compute. reflexivity.
Defined.

End OrderFacts.

(** * Startup of the email service *)

Module ServerFacts.
Import Amqp Observe Constants Connection Server TraceFacts.
Local Open Scope string_scope.
Local Open Scope list_scope.

Section Startup.

Variable generateEmailContent : Json.jsvalue -> result Json.jsstring.
Variable Math_random : list Event -> Json.number.
Variable listen : list Event -> option string.

(** X24.  When the first [amqp.connect] of [startServer] fails, the
    process ends with exit code 1 even if the reconnection procedure then
    succeeds: with a broker that answers the first reconnection attempt,
    the process has waited, dialled again, holds a connection and a
    channel, and exits all the same, without having started the consumer. *)
Theorem startServer_exits_although_reconnected fuel env url w e c ch :
  connection (state w) = None ->
  isReconnecting (state w) = false ->
  (reconnectAttempts (state w) < MAX_RECONNECT_ATTEMPTS)%nat ->
  amqp_connect env (trace w) (Some url) = Throw e ->
  amqp_connect env (trace w ++ [EvConnect (Some url); EvDelay RECONNECT_DELAY_MS])
    (Some url) = Ok c ->
  createChannel env
    (trace w ++ [EvConnect (Some url); EvDelay RECONNECT_DELAY_MS;
                 EvConnect (Some url)]) c = Ok ch ->
  exists w',
    startServer generateEmailContent Math_random listen (S fuel) env url w =
      Some (Exited 1, w') /\
    trace w' = trace w ++ [EvConnect (Some url); EvDelay RECONNECT_DELAY_MS;
                           EvConnect (Some url); EvCreateChannel c] /\
    connection (state w') = Some c /\
    channel (state w') = Some ch.
Proof.
  intros Hnone Hflag Hlt Hfail Hconn Hchan.
  destruct w as [[cn chn u r n] t]. simpl in Hnone, Hflag, Hlt, Hfail, Hconn, Hchan.
  subst cn r.
  unfold startServer, connect, handleReconnection. simpl. rewrite Hfail. simpl.
  destruct (Nat.ltb_spec n MAX_RECONNECT_ATTEMPTS) as [_|Hge]; [|lia].
  rewrite <- app_assoc. simpl. rewrite Hconn.
  unfold getChannel. simpl. rewrite <- !app_assoc. simpl. rewrite Hchan.
  eexists. split; [reflexivity|]. simpl. rewrite <- !app_assoc. simpl. auto.
Qed.




End Startup.

Lemma startServer_exits_although_reconnected_witness :
  exists w',
    startServer Cases.plain_text Cases.draw_half Cases.port_free 1 Cases.broker_late
      "amqp://localhost" initial = Some (Exited 1, w') /\
    trace w' = trace initial ++
               [EvConnect (Some "amqp://localhost"); EvDelay RECONNECT_DELAY_MS;
                EvConnect (Some "amqp://localhost"); EvCreateChannel 2%nat] /\
    connection (state w') = Some 2%nat /\
    channel (state w') = Some 3%nat.
Proof.
  apply (startServer_exits_although_reconnected Cases.plain_text Cases.draw_half
           Cases.port_free 0 Cases.broker_late "amqp://localhost" initial
           "connect ECONNREFUSED" 2%nat 3%nat).
  - reflexivity.
  - reflexivity.
  - unfold MAX_RECONNECT_ATTEMPTS. simpl. lia.
  - reflexivity.
  - reflexivity.
  - reflexivity.
Defined.


End ServerFacts.
